(** * bcache/datao.go: the per-pass read table (DLT) of the aggregation cache

    A shallow embedding of [DLT] and [DLTGroup] and of their methods, followed
    by the properties of the read protocol.

    Conventions.
    - [uint32] values are [N] with the wrap-around at [2^32] written out
      ([u32_inc], [u32_dec]); [int32] is [Z] wrapped into [-2^31, 2^31).
    - Go slices are lists; an index outside the slice is a run-time panic,
      as is an integer division by zero.
    - A method is a state transformer [M S A] whose result is either a normal
      return, a panic, or a goroutine that cannot proceed (parked on the mutex
      or on the condition variable).  Every result carries the state reached,
      because writes made before a panic are not undone.
    - [Get] gives up the group lock twice: around [readFromBackend] and inside
      [cond.Wait].  It is therefore split at these two points in three atomic
      sections, [Get_enter], [Get_fetched] and [Get_woken]; other goroutines may
      run between them. *)

From stdpp Require Import base numbers list strings gmap.

Local Open Scope N_scope.

(* ------------------------------------------------------------------------- *)
(** ** Machine integers *)

Definition modulus : N := 2 ^ 32.

(** [x++] on a [uint32] *)
Definition u32_inc (x : N) : N := (x + 1) mod modulus.

(** [x--] and [x - 1] on a [uint32] *)
Definition u32_dec (x : N) : N := (x + (modulus - 1)) mod modulus.

(** [atomic.AddInt32] *)
Definition int32_add (x d : Z) : Z := ((x + d + 2 ^ 31) mod 2 ^ 32 - 2 ^ 31)%Z.

(* ------------------------------------------------------------------------- *)
(** ** Results of a method call *)

Inductive Panic : Type :=
| IndexOutOfRange
| DivideByZero
| NilDereference
| UnlockOfUnlockedMutex.

Inductive Res (S A : Type) : Type :=
| Done (a : A) (s : S)
| Crash (p : Panic) (s : S)
| Parked (s : S).

Arguments Done {S A} a s.
Arguments Crash {S A} p s.
Arguments Parked {S A} s.

Definition M (S A : Type) : Type := S -> Res S A.

Definition ret {S A} (a : A) : M S A := fun s => Done a s.

Definition bind {S A B} (m : M S A) (k : A -> M S B) : M S B :=
  fun s =>
    match m s with
    | Done a s' => k a s'
    | Crash p s' => Crash p s'
    | Parked s' => Parked s'
    end.

Notation "x <~ m ;; k" := (bind m (fun x => k))
  (at level 100, m at next level, right associativity).
Notation "m ;;; k" := (bind m (fun _ => k))
  (at level 100, right associativity).

Definition gets {S A} (f : S -> A) : M S A := fun s => Done (f s) s.
Definition modify {S} (f : S -> S) : M S unit := fun s => Done tt (f s).
Definition panic {S A} (p : Panic) : M S A := fun s => Crash p s.

(** The state reached, whatever the outcome. *)
Definition final {S A} (r : Res S A) : S :=
  match r with
  | Done _ s => s
  | Crash _ s => s
  | Parked s => s
  end.

(** [a[i]] on a slice *)
Definition slice_get {S} (a : S -> list N) (i : N) : M S N :=
  fun s =>
    match a s !! N.to_nat i with
    | Some v => Done v s
    | None => Crash IndexOutOfRange s
    end.

(** [a[i] = v] on a slice *)
Definition slice_set {S} (a : S -> list N) (upd : list N -> S -> S) (i v : N)
  : M S unit :=
  fun s =>
    if (N.to_nat i <? length (a s))%nat
    then Done tt (upd (<[N.to_nat i := v]> (a s)) s)
    else Crash IndexOutOfRange s.

(* ------------------------------------------------------------------------- *)
(** ** Collaborators declared in other files of the package *)

(** Modelled from the spec: [FileNode] is declared outside this file; the code
    reads only its [fileId], the rest is the fetched content. *)
Record FileNode : Type := { fileId : N; content : string }.

(** [node.fileId], under a name that the parameters called [fileId] do not
    hide. *)
Definition node_fileId (node : FileNode) : N := fileId node.

#[global] Instance FileNode_eq_dec : EqDecision FileNode.
Proof. solve_decision. Defined.

(** Modelled from the spec: the [ErrorCode] constants used by [Get]. *)
Inductive ErrorCode : Type :=
| CODE_OK
| CODE_EMPTY
| CODE_DLT_NOT_INIT
| CODE_NOT_FOUND.

(** The [error] values: one constructor for each [fmt.Errorf] of the file, with
    its arguments, one for a failed allocation and one for whatever
    [readFromBackend] reports. *)
Inductive Error : Type :=
| ErrReadAgain (id : N)               (* "read angin %d" *)
| ErrNoCacheButNum (n : N)            (* "don't have cache, but cachedFileNum is %d" *)
| ErrNoUnreadedButNum (n : N)         (* "don't have unreaded file, but unreadFileNum is %d" *)
| ErrNoCacheButCondition              (* "don't have cache, but get condition" *)
| ErrNoUnreadFile (id : N)            (* "don't have unread file, when try to read %d" *)
| ErrCantGetCachedFile                (* "can't get cached file" *)
| ErrMarkedNotCached (id : N)         (* "file %d is mark as cached , but not cached" *)
| ErrAlloc
| ErrBackend (msg : string).

(** The names the spec gives to the two failures of the calling protocol. *)
Definition AlreadyRequested (id : N) : Error := ErrReadAgain id.
Definition Exhausted (id : N) : Error := ErrNoUnreadFile id.

(** Modelled from the spec: [utils.BitMap], a fixed-capacity set of ids with
    [set] and [test]; a fresh one is empty.  An id at or beyond the capacity
    is never a member. *)
Record BitMap : Type := { bits : list bool }.

Definition BitMap_Get (b : BitMap) (id : N) : bool :=
  default false (bits b !! N.to_nat id).

Definition BitMap_Set (b : BitMap) (id : N) : BitMap :=
  {| bits := <[N.to_nat id := true]> (bits b) |}.

(** [utils.NewBitMap]; [mem size] tells whether the allocation succeeds. *)
Definition NewBitMap (mem : N -> bool) (size : N) : BitMap + Error :=
  if mem size then inl {| bits := replicate (N.to_nat size) false |}
  else inr ErrAlloc.

(** Modelled from the spec: [Group], a partition of the dataset with its file
    count and its cache budget. *)
Record Group : Type :=
  { grp_id : N; grp_fileNum : N; allowCacheSize : N; cachedSize : N }.

(** Modelled from the spec: the fields and the method of [Dataset] that this
    file uses.  [ds_cachedFiles] is the shared content cache; a missing key
    is Go's [nil]. *)
Record Dataset : Type :=
  { ds_id : N;
    groupNum : N;
    ds_groups : list Group;
    fileIdToGroups : N -> N;
    GetFileId : string -> option N;
    ds_cachedFiles : gmap N FileNode }.

Definition set_ds_cachedFiles (c : gmap N FileNode) (d : Dataset) : Dataset :=
  {| ds_id := ds_id d; groupNum := groupNum d; ds_groups := ds_groups d;
     fileIdToGroups := fileIdToGroups d; GetFileId := GetFileId d;
     ds_cachedFiles := c |}.

(** [sync.Cond]: the goroutines parked in [Wait], and those a [Signal] has
    released and that have not yet returned from [Wait]. *)
Record Cond : Type := { waiters : nat; notified : nat }.

(* ------------------------------------------------------------------------- *)
(** ** [DLTGroup] *)

(** [lock] is [true] while the mutex is held.  [group] points into the groups
    of the dataset given to [init]; nothing in this file writes through it, so
    the value is stored.  Pointers are options, [None] being [nil].  The back
    pointer [dlt] is never read and is left out. *)
Record DLTGroup : Type :=
  { lock : bool;
    cond : option Cond;
    hasWiated : Z;
    group : option Group;
    readedFilesReal : option BitMap;
    readedFilesCache : option BitMap;
    unreadFileNum : N;
    unreadFilesIndexs : list N;
    unreadFiles : list N;
    readedCachedFileNum : N;
    readedCachedFiles : list N;
    prereadFileNum : N;
    cachedFileNum : N;
    cacheedFilesCache : list N;
    cachedFiles : list N }.

(** The zero value of the struct, as [make([]DLTGroup, n)] fills it in. *)
Definition zeroGroup : DLTGroup :=
  {| lock := false; cond := None; hasWiated := 0; group := None;
     readedFilesReal := None; readedFilesCache := None;
     unreadFileNum := 0; unreadFilesIndexs := []; unreadFiles := [];
     readedCachedFileNum := 0; readedCachedFiles := [];
     prereadFileNum := 0;
     cachedFileNum := 0; cacheedFilesCache := []; cachedFiles := [] |}.

Definition set_lock (v : bool) (g : DLTGroup) : DLTGroup :=
  {| lock := v; cond := cond g; hasWiated := hasWiated g; group := group g;
     readedFilesReal := readedFilesReal g; readedFilesCache := readedFilesCache g;
     unreadFileNum := unreadFileNum g; unreadFilesIndexs := unreadFilesIndexs g;
     unreadFiles := unreadFiles g;
     readedCachedFileNum := readedCachedFileNum g;
     readedCachedFiles := readedCachedFiles g;
     prereadFileNum := prereadFileNum g;
     cachedFileNum := cachedFileNum g; cacheedFilesCache := cacheedFilesCache g;
     cachedFiles := cachedFiles g |}.

Definition set_cond (v : option Cond) (g : DLTGroup) : DLTGroup :=
  {| lock := lock g; cond := v; hasWiated := hasWiated g; group := group g;
     readedFilesReal := readedFilesReal g; readedFilesCache := readedFilesCache g;
     unreadFileNum := unreadFileNum g; unreadFilesIndexs := unreadFilesIndexs g;
     unreadFiles := unreadFiles g;
     readedCachedFileNum := readedCachedFileNum g;
     readedCachedFiles := readedCachedFiles g;
     prereadFileNum := prereadFileNum g;
     cachedFileNum := cachedFileNum g; cacheedFilesCache := cacheedFilesCache g;
     cachedFiles := cachedFiles g |}.

Definition set_hasWiated (v : Z) (g : DLTGroup) : DLTGroup :=
  {| lock := lock g; cond := cond g; hasWiated := v; group := group g;
     readedFilesReal := readedFilesReal g; readedFilesCache := readedFilesCache g;
     unreadFileNum := unreadFileNum g; unreadFilesIndexs := unreadFilesIndexs g;
     unreadFiles := unreadFiles g;
     readedCachedFileNum := readedCachedFileNum g;
     readedCachedFiles := readedCachedFiles g;
     prereadFileNum := prereadFileNum g;
     cachedFileNum := cachedFileNum g; cacheedFilesCache := cacheedFilesCache g;
     cachedFiles := cachedFiles g |}.

Definition set_group (v : option Group) (g : DLTGroup) : DLTGroup :=
  {| lock := lock g; cond := cond g; hasWiated := hasWiated g; group := v;
     readedFilesReal := readedFilesReal g; readedFilesCache := readedFilesCache g;
     unreadFileNum := unreadFileNum g; unreadFilesIndexs := unreadFilesIndexs g;
     unreadFiles := unreadFiles g;
     readedCachedFileNum := readedCachedFileNum g;
     readedCachedFiles := readedCachedFiles g;
     prereadFileNum := prereadFileNum g;
     cachedFileNum := cachedFileNum g; cacheedFilesCache := cacheedFilesCache g;
     cachedFiles := cachedFiles g |}.

Definition set_readedFilesReal (v : option BitMap) (g : DLTGroup) : DLTGroup :=
  {| lock := lock g; cond := cond g; hasWiated := hasWiated g; group := group g;
     readedFilesReal := v; readedFilesCache := readedFilesCache g;
     unreadFileNum := unreadFileNum g; unreadFilesIndexs := unreadFilesIndexs g;
     unreadFiles := unreadFiles g;
     readedCachedFileNum := readedCachedFileNum g;
     readedCachedFiles := readedCachedFiles g;
     prereadFileNum := prereadFileNum g;
     cachedFileNum := cachedFileNum g; cacheedFilesCache := cacheedFilesCache g;
     cachedFiles := cachedFiles g |}.

Definition set_readedFilesCache (v : option BitMap) (g : DLTGroup) : DLTGroup :=
  {| lock := lock g; cond := cond g; hasWiated := hasWiated g; group := group g;
     readedFilesReal := readedFilesReal g; readedFilesCache := v;
     unreadFileNum := unreadFileNum g; unreadFilesIndexs := unreadFilesIndexs g;
     unreadFiles := unreadFiles g;
     readedCachedFileNum := readedCachedFileNum g;
     readedCachedFiles := readedCachedFiles g;
     prereadFileNum := prereadFileNum g;
     cachedFileNum := cachedFileNum g; cacheedFilesCache := cacheedFilesCache g;
     cachedFiles := cachedFiles g |}.

Definition set_unreadFileNum (v : N) (g : DLTGroup) : DLTGroup :=
  {| lock := lock g; cond := cond g; hasWiated := hasWiated g; group := group g;
     readedFilesReal := readedFilesReal g; readedFilesCache := readedFilesCache g;
     unreadFileNum := v; unreadFilesIndexs := unreadFilesIndexs g;
     unreadFiles := unreadFiles g;
     readedCachedFileNum := readedCachedFileNum g;
     readedCachedFiles := readedCachedFiles g;
     prereadFileNum := prereadFileNum g;
     cachedFileNum := cachedFileNum g; cacheedFilesCache := cacheedFilesCache g;
     cachedFiles := cachedFiles g |}.

Definition set_unreadFilesIndexs (v : list N) (g : DLTGroup) : DLTGroup :=
  {| lock := lock g; cond := cond g; hasWiated := hasWiated g; group := group g;
     readedFilesReal := readedFilesReal g; readedFilesCache := readedFilesCache g;
     unreadFileNum := unreadFileNum g; unreadFilesIndexs := v;
     unreadFiles := unreadFiles g;
     readedCachedFileNum := readedCachedFileNum g;
     readedCachedFiles := readedCachedFiles g;
     prereadFileNum := prereadFileNum g;
     cachedFileNum := cachedFileNum g; cacheedFilesCache := cacheedFilesCache g;
     cachedFiles := cachedFiles g |}.

Definition set_unreadFiles (v : list N) (g : DLTGroup) : DLTGroup :=
  {| lock := lock g; cond := cond g; hasWiated := hasWiated g; group := group g;
     readedFilesReal := readedFilesReal g; readedFilesCache := readedFilesCache g;
     unreadFileNum := unreadFileNum g; unreadFilesIndexs := unreadFilesIndexs g;
     unreadFiles := v;
     readedCachedFileNum := readedCachedFileNum g;
     readedCachedFiles := readedCachedFiles g;
     prereadFileNum := prereadFileNum g;
     cachedFileNum := cachedFileNum g; cacheedFilesCache := cacheedFilesCache g;
     cachedFiles := cachedFiles g |}.

Definition set_readedCachedFileNum (v : N) (g : DLTGroup) : DLTGroup :=
  {| lock := lock g; cond := cond g; hasWiated := hasWiated g; group := group g;
     readedFilesReal := readedFilesReal g; readedFilesCache := readedFilesCache g;
     unreadFileNum := unreadFileNum g; unreadFilesIndexs := unreadFilesIndexs g;
     unreadFiles := unreadFiles g;
     readedCachedFileNum := v;
     readedCachedFiles := readedCachedFiles g;
     prereadFileNum := prereadFileNum g;
     cachedFileNum := cachedFileNum g; cacheedFilesCache := cacheedFilesCache g;
     cachedFiles := cachedFiles g |}.

Definition set_readedCachedFiles (v : list N) (g : DLTGroup) : DLTGroup :=
  {| lock := lock g; cond := cond g; hasWiated := hasWiated g; group := group g;
     readedFilesReal := readedFilesReal g; readedFilesCache := readedFilesCache g;
     unreadFileNum := unreadFileNum g; unreadFilesIndexs := unreadFilesIndexs g;
     unreadFiles := unreadFiles g;
     readedCachedFileNum := readedCachedFileNum g;
     readedCachedFiles := v;
     prereadFileNum := prereadFileNum g;
     cachedFileNum := cachedFileNum g; cacheedFilesCache := cacheedFilesCache g;
     cachedFiles := cachedFiles g |}.

Definition set_prereadFileNum (v : N) (g : DLTGroup) : DLTGroup :=
  {| lock := lock g; cond := cond g; hasWiated := hasWiated g; group := group g;
     readedFilesReal := readedFilesReal g; readedFilesCache := readedFilesCache g;
     unreadFileNum := unreadFileNum g; unreadFilesIndexs := unreadFilesIndexs g;
     unreadFiles := unreadFiles g;
     readedCachedFileNum := readedCachedFileNum g;
     readedCachedFiles := readedCachedFiles g;
     prereadFileNum := v;
     cachedFileNum := cachedFileNum g; cacheedFilesCache := cacheedFilesCache g;
     cachedFiles := cachedFiles g |}.

Definition set_cachedFileNum (v : N) (g : DLTGroup) : DLTGroup :=
  {| lock := lock g; cond := cond g; hasWiated := hasWiated g; group := group g;
     readedFilesReal := readedFilesReal g; readedFilesCache := readedFilesCache g;
     unreadFileNum := unreadFileNum g; unreadFilesIndexs := unreadFilesIndexs g;
     unreadFiles := unreadFiles g;
     readedCachedFileNum := readedCachedFileNum g;
     readedCachedFiles := readedCachedFiles g;
     prereadFileNum := prereadFileNum g;
     cachedFileNum := v; cacheedFilesCache := cacheedFilesCache g;
     cachedFiles := cachedFiles g |}.

Definition set_cacheedFilesCache (v : list N) (g : DLTGroup) : DLTGroup :=
  {| lock := lock g; cond := cond g; hasWiated := hasWiated g; group := group g;
     readedFilesReal := readedFilesReal g; readedFilesCache := readedFilesCache g;
     unreadFileNum := unreadFileNum g; unreadFilesIndexs := unreadFilesIndexs g;
     unreadFiles := unreadFiles g;
     readedCachedFileNum := readedCachedFileNum g;
     readedCachedFiles := readedCachedFiles g;
     prereadFileNum := prereadFileNum g;
     cachedFileNum := cachedFileNum g; cacheedFilesCache := v;
     cachedFiles := cachedFiles g |}.

Definition set_cachedFiles (v : list N) (g : DLTGroup) : DLTGroup :=
  {| lock := lock g; cond := cond g; hasWiated := hasWiated g; group := group g;
     readedFilesReal := readedFilesReal g; readedFilesCache := readedFilesCache g;
     unreadFileNum := unreadFileNum g; unreadFilesIndexs := unreadFilesIndexs g;
     unreadFiles := unreadFiles g;
     readedCachedFileNum := readedCachedFileNum g;
     readedCachedFiles := readedCachedFiles g;
     prereadFileNum := prereadFileNum g;
     cachedFileNum := cachedFileNum g; cacheedFilesCache := cacheedFilesCache g;
     cachedFiles := v |}.

(* ------------------------------------------------------------------------- *)
(** ** The mutex, the condition variable and the two bitmaps of a group *)

(** [g.lock.Lock()]: a goroutine that finds the mutex held cannot proceed. *)
Definition Lock : M DLTGroup unit :=
  fun g => if lock g then Parked g else Done tt (set_lock true g).

(** [g.lock.Unlock()] *)
Definition Unlock : M DLTGroup unit :=
  fun g => if lock g then Done tt (set_lock false g)
           else Crash UnlockOfUnlockedMutex g.

(** The first half of [g.cond.Wait()]: join the waiters and release the lock. *)
Definition Wait_park : M DLTGroup unit :=
  fun g =>
    match cond g with
    | None => Crash NilDereference g
    | Some c =>
        Unlock (set_cond (Some {| waiters := S (waiters c);
                                  notified := notified c |}) g)
    end.

(** The second half of [g.cond.Wait()]: once released by a [Signal], take the
    lock again and return. *)
Definition Wait_resume : M DLTGroup unit :=
  fun g =>
    match cond g with
    | None => Crash NilDereference g
    | Some c =>
        match notified c with
        | O => Parked g
        | S k => Lock (set_cond (Some {| waiters := waiters c;
                                         notified := k |}) g)
        end
    end.

(** [g.cond.Signal()]: release one parked goroutine, if there is one. *)
Definition Signal : M DLTGroup unit :=
  fun g =>
    match cond g with
    | None => Crash NilDereference g
    | Some c =>
        match waiters c with
        | O => Done tt g
        | S k => Done tt (set_cond (Some {| waiters := k;
                                            notified := S (notified c) |}) g)
        end
    end.

(** [g.readedFilesReal.Get(id)] *)
Definition real_Get (id : N) : M DLTGroup bool :=
  fun g =>
    match readedFilesReal g with
    | None => Crash NilDereference g
    | Some b => Done (BitMap_Get b id) g
    end.

(** [g.readedFilesReal.Set(id)] *)
Definition real_Set (id : N) : M DLTGroup unit :=
  fun g =>
    match readedFilesReal g with
    | None => Crash NilDereference g
    | Some b => Done tt (set_readedFilesReal (Some (BitMap_Set b id)) g)
    end.

(** [g.readedFilesCache.Get(id)] *)
Definition cache_Get (id : N) : M DLTGroup bool :=
  fun g =>
    match readedFilesCache g with
    | None => Crash NilDereference g
    | Some b => Done (BitMap_Get b id) g
    end.

(** [g.readedFilesCache.Set(id)] *)
Definition cache_Set (id : N) : M DLTGroup unit :=
  fun g =>
    match readedFilesCache g with
    | None => Crash NilDereference g
    | Some b => Done tt (set_readedFilesCache (Some (BitMap_Set b id)) g)
    end.

(* ------------------------------------------------------------------------- *)
(** ** The methods of [DLTGroup] *)

(** [markCachedFileReaded]: log the id as read and fill its slot of
    [cachedFiles] with the last cached id. *)
Definition markCachedFileReaded (fileId index : N) : M DLTGroup unit :=
  n <~ gets readedCachedFileNum ;;
  slice_set readedCachedFiles set_readedCachedFiles n fileId ;;;
  modify (set_readedCachedFileNum (u32_inc n)) ;;;
  c <~ gets cachedFileNum ;;
  let lastId := u32_dec c in
  (if negb (index =? lastId) then
     v <~ slice_get cachedFiles lastId ;;
     slice_set cachedFiles set_cachedFiles index v ;;;
     w <~ slice_get cachedFiles lastId ;;
     slice_set cacheedFilesCache set_cacheedFilesCache w (u32_inc index)
   else ret tt) ;;;
  slice_set cacheedFilesCache set_cacheedFilesCache fileId 0 ;;;
  c' <~ gets cachedFileNum ;;
  modify (set_cachedFileNum (u32_dec c')).

(** [getRandomCachedFile]; [r] is the value of [rand.Uint32()].  There is no
    test for an empty pool: the remainder by [cachedFileNum] panics then. *)
Definition getRandomCachedFile (r : N) : M DLTGroup (N * bool) :=
  c <~ gets cachedFileNum ;;
  if c =? 0 then panic DivideByZero
  else
    let randNum := r mod c in
    fileId <~ slice_get cachedFiles randNum ;;
    markCachedFileReaded fileId randNum ;;;
    ret (fileId, true).

(** [getRandomUnreadedFile]; [r] is the value of [rand.Uint32()]. *)
Definition getRandomUnreadedFile (r : N) : M DLTGroup (N * bool) :=
  u <~ gets unreadFileNum ;;
  if u =? 0 then ret (0, false)
  else
    let randNum := r mod u in
    fileId <~ slice_get unreadFiles randNum ;;
    let lastId := u32_dec u in
    (if negb (randNum =? lastId) then
       v <~ slice_get unreadFiles lastId ;;
       slice_set unreadFiles set_unreadFiles randNum v ;;;
       w <~ slice_get unreadFiles lastId ;;
       slice_set unreadFilesIndexs set_unreadFilesIndexs w (u32_inc randNum)
     else ret tt) ;;;
    slice_set unreadFilesIndexs set_unreadFilesIndexs fileId 0 ;;;
    u' <~ gets unreadFileNum ;;
    modify (set_unreadFileNum (u32_dec u')) ;;;
    ret (fileId, true).

(** [addUnreadedFile], the spec's [register_unread]. *)
Definition addUnreadedFile (fileId : N) : M DLTGroup unit :=
  index <~ slice_get unreadFilesIndexs fileId ;;
  if negb (index =? 0) then ret tt
  else
    consumed <~ cache_Get fileId ;;
    if consumed then ret tt
    else
      val <~ slice_get cacheedFilesCache fileId ;;
      if negb (val =? 0) then ret tt
      else
        p <~ gets prereadFileNum ;;
        modify (set_prereadFileNum (u32_dec p)) ;;;
        u <~ gets unreadFileNum ;;
        slice_set unreadFiles set_unreadFiles u fileId ;;;
        modify (set_unreadFileNum (u32_inc u)) ;;;
        u' <~ gets unreadFileNum ;;
        slice_set unreadFilesIndexs set_unreadFilesIndexs fileId u'.

(** [addFileToCache], the spec's [land_in_cache]; the caller holds the lock.
    Only [node.fileId] is used: the node itself is not stored anywhere.  The
    two warnings printed on standard output are not modelled. *)
Definition addFileToCache (node : FileNode) : M DLTGroup unit :=
  let fileId := node_fileId node in
  consumed <~ cache_Get fileId ;;
  if consumed then
    v <~ slice_get readedCachedFiles fileId ;;
    if v =? 0 then
      n <~ gets readedCachedFileNum ;;
      slice_set readedCachedFiles set_readedCachedFiles fileId n ;;;
      modify (set_readedCachedFileNum (u32_inc n))
    else ret tt
  else
    orgIndex <~ slice_get unreadFilesIndexs fileId ;;
    if negb (orgIndex =? 0) then
      u <~ gets unreadFileNum ;;
      (if negb (orgIndex =? u) then
         v <~ slice_get unreadFiles (u32_dec u) ;;
         slice_set unreadFiles set_unreadFiles (u32_dec orgIndex) v
       else ret tt) ;;;
      u' <~ gets unreadFileNum ;;
      modify (set_unreadFileNum (u32_dec u')) ;;;
      slice_set unreadFilesIndexs set_unreadFilesIndexs fileId 0
    else
      val <~ slice_get cacheedFilesCache fileId ;;
      if val =? 0 then
        p <~ gets prereadFileNum ;;
        modify (set_prereadFileNum (u32_dec p)) ;;;
        c <~ gets cachedFileNum ;;
        slice_set cachedFiles set_cachedFiles c fileId ;;;
        modify (set_cachedFileNum (u32_inc c)) ;;;
        c' <~ gets cachedFileNum ;;
        slice_set cacheedFilesCache set_cacheedFilesCache fileId c' ;;;
        w <~ gets hasWiated ;;
        if (0 <? w)%Z then Signal else ret tt
      else ret tt.

(** Lines 232-246 of [getFileFromCache]: choose the cached file to hand out
    and take it out of the pool; [inr] carries the error of an early return. *)
Definition pickCachedFile (r fileId : N) : M DLTGroup (N + Error) :=
  let random : M DLTGroup (N + Error) :=
    p <~ getRandomCachedFile r ;;
    if snd p then ret (inl (fst p)) else ret (inr ErrCantGetCachedFile) in
  consumed <~ cache_Get fileId ;;
  if consumed then random
  else
    val <~ slice_get cacheedFilesCache fileId ;;
    if val =? 0 then random
    else markCachedFileReaded fileId (u32_dec val) ;;; ret (inl fileId).

(** [getFileFromCache]; [cache] is [t.dataset.cachedFiles], which the method
    only reads.  The result is the pair [(node, err)]. *)
Definition getFileFromCache (cache : gmap N FileNode) (r fileId : N)
  : M DLTGroup (option FileNode * option Error) :=
  pick <~ pickCachedFile r fileId ;;
  match pick with
  | inr e => ret (None, Some e)
  | inl tempId =>
      match cache !! tempId with
      | None => ret (None, Some (ErrMarkedNotCached tempId))
      | Some node => ret (Some node, None)
      end
  end.

(* ------------------------------------------------------------------------- *)
(** ** [DLT] *)

(** A table is built around its dataset by code outside this file; [init]
    allocates the groups. *)
Record DLT : Type :=
  { dlt_id : N;
    fileNum : N;
    dataset : Dataset;
    readedFileNum : N;
    groups : list DLTGroup;
    inited : bool }.

Definition set_groups (v : list DLTGroup) (t : DLT) : DLT :=
  {| dlt_id := dlt_id t; fileNum := fileNum t; dataset := dataset t;
     readedFileNum := readedFileNum t; groups := v; inited := inited t |}.

Definition set_inited (v : bool) (t : DLT) : DLT :=
  {| dlt_id := dlt_id t; fileNum := fileNum t; dataset := dataset t;
     readedFileNum := readedFileNum t; groups := groups t; inited := v |}.

Definition set_dataset (v : Dataset) (t : DLT) : DLT :=
  {| dlt_id := dlt_id t; fileNum := fileNum t; dataset := v;
     readedFileNum := readedFileNum t; groups := groups t; inited := inited t |}.

(** Run a method on [&t.groups[groupId]]. *)
Definition on_group {A} (groupId : N) (m : M DLTGroup A) : M DLT A :=
  fun t =>
    match groups t !! N.to_nat groupId with
    | None => Crash IndexOutOfRange t
    | Some g =>
        let put g' := set_groups (<[N.to_nat groupId := g']> (groups t)) t in
        match m g with
        | Done a g' => Done a (put g')
        | Crash p g' => Crash p (put g')
        | Parked g' => Parked (put g')
        end
    end.

(** One round of the loop of [init]. *)
Definition init_group (mem : N -> bool) (ds : Dataset) (i : N)
  : M DLT (option Error) :=
  on_group i (modify (set_cond (Some {| waiters := 0; notified := 0 |}))) ;;;
  match ds_groups ds !! N.to_nat i with
  | None => panic IndexOutOfRange
  | Some grp =>
      on_group i (modify (set_group (Some grp))) ;;;
      match NewBitMap mem (grp_fileNum grp) with
      | inr e => ret (Some e)
      | inl real =>
          on_group i (modify (set_readedFilesReal (Some real))) ;;;
          match NewBitMap mem (grp_fileNum grp) with
          | inr e => ret (Some e)
          | inl cache =>
              let zeros := replicate (N.to_nat (grp_fileNum grp)) 0 in
              on_group i
                (modify (set_readedFilesCache (Some cache)) ;;;
                 modify (set_unreadFileNum (grp_fileNum grp)) ;;;
                 modify (set_unreadFilesIndexs zeros) ;;;
                 modify (set_unreadFiles zeros) ;;;
                 modify (set_readedCachedFiles zeros) ;;;
                 modify (set_cacheedFilesCache zeros) ;;;
                 modify (set_cachedFiles zeros)) ;;;
              ret None
          end
      end
  end.

(** The loop [for i := uint32(0); i < dataset.groupNum; i++], [n] rounds being
    left. *)
Fixpoint init_loop (mem : N -> bool) (ds : Dataset) (n : nat) (i : N)
  : M DLT (option Error) :=
  match n with
  | O => ret None
  | S n' =>
      e <~ init_group mem ds i ;;
      match e with
      | Some err => ret (Some err)
      | None => init_loop mem ds n' (u32_inc i)
      end
  end.

(** [init]; the result is the returned [error], [None] being [nil]. *)
Definition init (mem : N -> bool) (ds : Dataset) : M DLT (option Error) :=
  modify (set_groups (replicate (N.to_nat (groupNum ds)) zeroGroup)) ;;;
  e <~ init_loop mem ds (N.to_nat (groupNum ds)) 0 ;;
  match e with
  | Some err => ret (Some err)
  | None => modify (set_inited true) ;;; ret None
  end.

(** What [Get] returns: the node, the code and the error. *)
Definition GetResult : Type := option FileNode * ErrorCode * option Error.

(** The arguments of [readFromBackend] after the dataset: the ids of the
    table, of the dataset and of the group, and the file to fetch. *)
Record Fetch : Type :=
  { f_dlt : N; f_dataset : N; f_group : N; f_file : N }.

(** Where a call of [Get] stands at the end of an atomic section. *)
Inductive GetState : Type :=
| Returned (res : GetResult)
| AwaitBackend (groupId : N) (req : Fetch)
| AwaitCond (groupId fileId : N).

(** The deferred function of [Get] when the body panics while
    [lockReleased] is [false]: the lock is released and the panic goes on. *)
Definition on_panic_Unlock {A} (m : M DLTGroup A) : M DLTGroup A :=
  fun g =>
    match m g with
    | Crash p g' => Crash p (final (Unlock g'))
    | r => r
    end.

(** Lines 170-180 of [Get]: take [tempId] out of the unread files. *)
Definition Get_removeUnread (tempId : N) : M DLTGroup unit :=
  index <~ slice_get unreadFilesIndexs tempId ;;
  if negb (index =? 0) then
    u <~ gets unreadFileNum ;;
    let lastId := u32_dec u in
    (if negb (index =? lastId) then
       v <~ slice_get unreadFiles lastId ;;
       slice_set unreadFiles set_unreadFiles index v ;;;
       w <~ slice_get unreadFiles lastId ;;
       slice_set unreadFilesIndexs set_unreadFilesIndexs w index
     else ret tt) ;;;
    slice_set unreadFilesIndexs set_unreadFilesIndexs tempId 0 ;;;
    u' <~ gets unreadFileNum ;;
    modify (set_unreadFileNum (u32_dec u'))
  else ret tt.

(** The outcome of the part of [Get] that runs under the lock taken on
    entry. *)
Inductive Locked : Type :=
| LReturn (res : GetResult)
| LFetch (tempId : N)
| LWait.

(** Lines 130-223 of [Get], up to the point where the lock is given up. *)
Definition Get_locked (cache : gmap N FileNode) (r fileId : N)
  : M DLTGroup Locked :=
  readed <~ real_Get fileId ;;
  if readed then ret (LReturn (None, CODE_EMPTY, Some (ErrReadAgain fileId)))
  else
    c <~ gets cachedFileNum ;;
    if 0 <? c then
      p <~ getFileFromCache cache r fileId ;;
      match p with
      | (_, Some e) => ret (LReturn (None, CODE_EMPTY, Some e))
      | (None, None) =>
          c' <~ gets cachedFileNum ;;
          ret (LReturn (None, CODE_EMPTY, Some (ErrNoCacheButNum c')))
      | (Some node, None) =>
          cache_Set (node_fileId node) ;;;
          real_Set fileId ;;;
          ret (LReturn (Some node, CODE_OK, None))
      end
    else
      u <~ gets unreadFileNum ;;
      if 0 <? u then
        consumed <~ cache_Get fileId ;;
        p <~ (if consumed then getRandomUnreadedFile r else ret (fileId, true)) ;;
        if negb (snd p) then
          u' <~ gets unreadFileNum ;;
          ret (LReturn (None, CODE_EMPTY, Some (ErrNoUnreadedButNum u')))
        else
          let tempId := fst p in
          cache_Set tempId ;;;
          real_Set fileId ;;;
          Get_removeUnread tempId ;;;
          ret (LFetch tempId)
      else
        pre <~ gets prereadFileNum ;;
        if 0 <? pre then ret LWait
        else ret (LReturn (None, CODE_EMPTY, Some (ErrNoUnreadFile fileId))).

(** The first atomic section of [Get] on its group.  After [Get_locked] the
    call returns, and the deferred function unlocks; or it sets [lockReleased]
    and unlocks before going to the backend (lines 184-185); or it counts
    itself in [hasWiated] and enters [cond.Wait] (lines 206-207). *)
Definition Get_enter_group (cache : gmap N FileNode) (r fileId : N)
  : M DLTGroup Locked :=
  Lock ;;;
  on_panic_Unlock
    (l <~ Get_locked cache r fileId ;;
     match l with
     | LReturn _ => Unlock ;;; ret l
     | LFetch _ => Unlock ;;; ret l
     | LWait =>
         w <~ gets hasWiated ;;
         modify (set_hasWiated (int32_add w 1)) ;;;
         Wait_park ;;;
         ret l
     end).

(** [group.group], dereferenced. *)
Definition deref_group : M DLTGroup Group :=
  fun g =>
    match group g with
    | None => Crash NilDereference g
    | Some grp => Done grp g
    end.

(** [Get], first atomic section: from the call to the first point where the
    caller returns, goes to the backend or waits. *)
Definition Get_enter (r : N) (fileName : string) : M DLT GetState :=
  fun t =>
    if negb (inited t) then Done (Returned (None, CODE_DLT_NOT_INIT, None)) t
    else
      match GetFileId (dataset t) fileName with
      | None => Done (Returned (None, CODE_NOT_FOUND, None)) t
      | Some fileId =>
          let groupId := fileIdToGroups (dataset t) fileId in
          (l <~ on_group groupId
                  (Get_enter_group (ds_cachedFiles (dataset t)) r fileId) ;;
           match l with
           | LReturn res => ret (Returned res)
           | LFetch tempId =>
               grp <~ on_group groupId deref_group ;;
               ret (AwaitBackend groupId
                      {| f_dlt := dlt_id t; f_dataset := ds_id (dataset t);
                         f_group := grp_id grp; f_file := tempId |})
           | LWait => ret (AwaitCond groupId fileId)
           end) t
      end.

(** [t.dataset.cachedFiles[tempId] = node] *)
Definition store_cachedFile (tempId : N) (node : option FileNode) : M DLT unit :=
  modify (fun t =>
    set_dataset
      (set_ds_cachedFiles
         (match node with
          | Some n => <[tempId := n]> (ds_cachedFiles (dataset t))
          | None => delete tempId (ds_cachedFiles (dataset t))
          end) (dataset t)) t).

(** The deferred function of [Get] at the level of the table, for the part
    of the second section that runs with [lockReleased = false]. *)
Definition deferred_Unlock_at {A} (groupId : N) (m : M DLT A) : M DLT A :=
  fun t =>
    match m t with
    | Done a t' => (on_group groupId Unlock ;;; ret a) t'
    | Crash p t' => Crash p (final (on_group groupId Unlock t'))
    | Parked t' => Parked t'
    end.

(** [Get], second atomic section (lines 186-201): [readFromBackend] has
    returned [(node, err)] for [tempId]. *)
Definition Get_fetched (groupId tempId : N)
    (fetched : option FileNode * option Error) : M DLT GetResult :=
  match fetched with
  | (_, Some e) => ret (None, CODE_EMPTY, Some e)
  | (node, None) =>
      grp <~ on_group groupId deref_group ;;
      if cachedSize grp <=? allowCacheSize grp then
        on_group groupId Lock ;;;
        deferred_Unlock_at groupId
          (store_cachedFile tempId node ;;;
           on_group groupId
             (n <~ gets readedCachedFileNum ;;
              slice_set readedCachedFiles set_readedCachedFiles n tempId ;;;
              modify (set_readedCachedFileNum (u32_inc n))) ;;;
           ret (node, CODE_EMPTY, None))
      else ret (node, CODE_EMPTY, None)
  end.

(** Lines 208-220 of [Get], under the lock that [cond.Wait] took again. *)
Definition Get_relocked (cache : gmap N FileNode) (r fileId : N)
  : M DLTGroup GetResult :=
  w <~ gets hasWiated ;;
  modify (set_hasWiated (int32_add w (-1))) ;;;
  p <~ getFileFromCache cache r fileId ;;
  match p with
  | (_, Some e) => ret (None, CODE_EMPTY, Some e)
  | (None, None) => ret (None, CODE_EMPTY, Some ErrNoCacheButCondition)
  | (Some node, None) =>
      cache_Set (node_fileId node) ;;;
      real_Set fileId ;;;
      ret (Some node, CODE_EMPTY, None)
  end.

(** [Get], third atomic section: the return from [cond.Wait] and what
    follows; the deferred function unlocks. *)
Definition Get_woken (r groupId fileId : N) : M DLT GetResult :=
  fun t =>
    on_group groupId
      (Wait_resume ;;;
       on_panic_Unlock
         (res <~ Get_relocked (ds_cachedFiles (dataset t)) r fileId ;;
          Unlock ;;;
          ret res)) t.

(** [Get] run by a single goroutine with nothing else running: [backend] is
    [readFromBackend] and [r] the value of [rand.Uint32()], which one call
    draws at most once. *)
Definition Get (backend : Fetch -> option FileNode * option Error)
    (r : N) (fileName : string) : M DLT GetResult :=
  st <~ Get_enter r fileName ;;
  match st with
  | Returned res => ret res
  | AwaitBackend groupId req => Get_fetched groupId (f_file req) (backend req)
  | AwaitCond groupId fileId => Get_woken r groupId fileId
  end.

(* ------------------------------------------------------------------------- *)
(** ** Observations on a group, used to state the properties *)

(** Membership in the unread pool, as every method tests it. *)
Definition unread_member (g : DLTGroup) (id : N) : bool :=
  match unreadFilesIndexs g !! N.to_nat id with
  | Some index => negb (index =? 0)
  | None => false
  end.

(** The delivered-as-requested bit of [id]: [readedFilesReal.Get(id)]. *)
Definition bit_real (g : DLTGroup) (id : N) : bool :=
  match readedFilesReal g with
  | Some b => BitMap_Get b id
  | None => false
  end.

(** The consumed-from-pool bit of [id]: [readedFilesCache.Get(id)]. *)
Definition bit_cache (g : DLTGroup) (id : N) : bool :=
  match readedFilesCache g with
  | Some b => BitMap_Get b id
  | None => false
  end.


(** The group that a successful round of [init] leaves for the partition
    [grp]. *)
Definition fresh_group (grp : Group) : DLTGroup :=
  let n := N.to_nat (grp_fileNum grp) in
  {| lock := false; cond := Some {| waiters := 0; notified := 0 |};
     hasWiated := 0; group := Some grp;
     readedFilesReal := Some {| bits := replicate n false |};
     readedFilesCache := Some {| bits := replicate n false |};
     unreadFileNum := grp_fileNum grp;
     unreadFilesIndexs := replicate n 0; unreadFiles := replicate n 0;
     readedCachedFileNum := 0; readedCachedFiles := replicate n 0;
     prereadFileNum := 0;
     cachedFileNum := 0; cacheedFilesCache := replicate n 0;
     cachedFiles := replicate n 0 |}.


(** Membership in the cache-available pool, as every method tests it. *)
Definition cache_member (g : DLTGroup) (id : N) : bool :=
  match cacheedFilesCache g !! N.to_nat id with
  | Some val => negb (val =? 0)
  | None => false
  end.

(** The effect of one [Signal] on a condition variable. *)
Definition signal_one (c : Cond) : Cond :=
  match waiters c with
  | O => c
  | S k => {| waiters := k; notified := S (notified c) |}
  end.

(* ------------------------------------------------------------------------- *)
(** ** A small dataset for the scenarios *)

(** One partition of [n] files, named "1", "2", ... with ids 0, 1, ...; at
    most three names are resolved. *)
Definition one_group (n allow used : N) : Group :=
  {| grp_id := 0; grp_fileNum := n; allowCacheSize := allow; cachedSize := used |}.

Definition one_group_dataset (grp : Group) (cache : gmap N FileNode) : Dataset :=
  {| ds_id := 7; groupNum := 1; ds_groups := [grp];
     fileIdToGroups := fun _ => 0;
     GetFileId := fun name =>
       if String.eqb name "1" then Some 0
       else if String.eqb name "2" then Some 1
       else if String.eqb name "3" then Some 2
       else None;
     ds_cachedFiles := cache |}.

(** A table on that dataset, before [init]. *)
Definition new_table (grp : Group) (cache : gmap N FileNode) : DLT :=
  {| dlt_id := 1; fileNum := grp_fileNum grp;
     dataset := one_group_dataset grp cache;
     readedFileNum := 0; groups := []; inited := false |}.

(** A backend that serves every file, the content naming the id. *)
Definition plain_backend (req : Fetch) : option FileNode * option Error :=
  (Some {| fileId := f_file req;
           content := String (Ascii.ascii_of_N (48 + f_file req)) "" |}, None).

(** A backend that fails. *)
Definition failing_backend (req : Fetch) : option FileNode * option Error :=
  (None, Some (ErrBackend "unreachable")).

(* ------------------------------------------------------------------------- *)
(** ** Interleavings *)

(** What the goroutines that share a table can do to it in one atomic step:
    the three sections of [Get], and the two calls of the prefetch producer
    on a group. *)
Inductive Action : Type :=
| AGet_enter (r : N) (fileName : string)
| AGet_fetched (groupId tempId : N) (fetched : option FileNode * option Error)
| AGet_woken (r groupId fileId : N)
| AaddUnreadedFile (groupId fileId : N)
| AaddFileToCache (groupId : N) (node : FileNode).

(** The table after one step, whatever its outcome. *)
Definition act (a : Action) (t : DLT) : DLT :=
  match a with
  | AGet_enter r fileName => final (Get_enter r fileName t)
  | AGet_fetched groupId tempId fetched =>
      final (Get_fetched groupId tempId fetched t)
  | AGet_woken r groupId fileId => final (Get_woken r groupId fileId t)
  | AaddUnreadedFile groupId fileId =>
      final (on_group groupId (addUnreadedFile fileId) t)
  | AaddFileToCache groupId node =>
      final (on_group groupId (addFileToCache node) t)
  end.

(** The table after a sequence of steps. *)
Definition run (acts : list Action) (t : DLT) : DLT :=
  fold_left (fun t a => act a t) acts t.

(** The group of [groupId] satisfies [P]. *)
Definition at_group (groupId : N) (P : DLTGroup -> Prop) (t : DLT) : Prop :=
  exists g, groups t !! N.to_nat groupId = Some g /\ P g.

(* ------------------------------------------------------------------------- *)
(** ** States reached by the direct path *)

(** The group has served the files of [done] through the direct path, and
    nothing else has happened to it since [init]. *)
Definition read_directly (grp : Group) (done : list N) (g : DLTGroup) : Prop :=
  lock g = false /\ group g = Some grp /\
  cachedFileNum g = 0 /\ unreadFileNum g = grp_fileNum grp /\
  unreadFilesIndexs g = replicate (N.to_nat (grp_fileNum grp)) 0 /\
  length (readedCachedFiles g) = N.to_nat (grp_fileNum grp) /\
  (N.to_nat (readedCachedFileNum g) <= length done)%nat /\
  exists rb cb,
    readedFilesReal g = Some rb /\ readedFilesCache g = Some cb /\
    length (bits rb) = N.to_nat (grp_fileNum grp) /\
    length (bits cb) = N.to_nat (grp_fileNum grp) /\
    (forall id, BitMap_Get rb id = true <-> id ∈ done) /\
    (forall id, BitMap_Get cb id = true <-> id ∈ done).

(** The table is initialised, resolves names and owners as [names] and
    [owner] do, and its group [groupId] is in that state. *)
Definition table_read_directly (grp : Group) (groupId : N)
    (names : string -> option N) (owner : N -> N) (done : list N) (t : DLT)
  : Prop :=
  inited t = true /\ GetFileId (dataset t) = names /\
  fileIdToGroups (dataset t) = owner /\
  at_group groupId (read_directly grp done) t.

(* ------------------------------------------------------------------------- *)
(** ** Properties kept by a method *)

(** [m] keeps [P]: from a state where [P] holds, [m] ends in a state where
    [P] holds, whether it returns, panics or parks. *)
Definition preserves {S A} (P : S -> Prop) (m : M S A) : Prop :=
  forall s, P s -> P (final (m s)).

(** The table is initialised, resolves names and owners as [names] and
    [owner] do, and the group [groupId] has the delivered-as-requested bit
    of [id] set. *)
Definition delivered (groupId id : N) (names : string -> option N)
  (owner : N -> N) (t : DLT) : Prop :=
  inited t = true /\
  GetFileId (dataset t) = names /\
  fileIdToGroups (dataset t) = owner /\
  at_group groupId (fun g => bit_real g id = true) t.

(** The two bitmaps and the length of [unreadFilesIndexs] are as given. *)
Definition bitmaps_are (rb cb : option BitMap) (n : nat) (g : DLTGroup) : Prop :=
  readedFilesReal g = rb /\ readedFilesCache g = cb /\
  length (unreadFilesIndexs g) = n.

(* ------------------------------------------------------------------------- *)
(** ** The two pools as dense index sets *)

(** A pool of ids: the first [p_num] slots of [p_files] hold its members, and
    [p_index] gives, for every id, one more than its slot, or 0 when the id
    is not in the pool.  The unread files and the cached files of a group are
    two such pools. *)
Record Pool : Type := { p_files : list N; p_index : list N; p_num : N }.

Definition unread_pool (g : DLTGroup) : Pool :=
  {| p_files := unreadFiles g; p_index := unreadFilesIndexs g;
     p_num := unreadFileNum g |}.

Definition cached_pool (g : DLTGroup) : Pool :=
  {| p_files := cachedFiles g; p_index := cacheedFilesCache g;
     p_num := cachedFileNum g |}.

(** Membership, by the index. *)
Definition pool_member (p : Pool) (id : N) : bool :=
  match p_index p !! N.to_nat id with
  | Some v => negb (v =? 0)
  | None => false
  end.

(** The slots and the index agree, and the pool fits in its slice, whose
    length is a [uint32]. *)
Definition pool_wf (p : Pool) : Prop :=
  p_num p <= N.of_nat (length (p_files p)) /\
  N.of_nat (length (p_files p)) < modulus /\
  (forall i id, i < p_num p -> p_files p !! N.to_nat i = Some id ->
                p_index p !! N.to_nat id = Some (i + 1)) /\
  (forall id v, p_index p !! N.to_nat id = Some v -> v ≠ 0 ->
                v <= p_num p /\ p_files p !! N.to_nat (v - 1) = Some id).

(** Removal of the member [id] that sits in slot [i]: the last member takes
    its slot. *)
Definition pool_remove (p : Pool) (i id : N) : Pool :=
  let last := p_num p - 1 in
  let moved := default 0 (p_files p !! N.to_nat last) in
  if i =? last then
    {| p_files := p_files p;
       p_index := <[N.to_nat id := 0]> (p_index p);
       p_num := last |}
  else
    {| p_files := <[N.to_nat i := moved]> (p_files p);
       p_index := <[N.to_nat id := 0]> (<[N.to_nat moved := i + 1]> (p_index p));
       p_num := last |}.

(** Insertion of [id] in the first free slot. *)
Definition pool_insert (p : Pool) (id : N) : Pool :=
  {| p_files := <[N.to_nat (p_num p) := id]> (p_files p);
     p_index := <[N.to_nat id := p_num p + 1]> (p_index p);
     p_num := p_num p + 1 |}.

(** [pool_wf], as a test that can be run. *)
Definition pool_wfb (p : Pool) : bool :=
  (p_num p <=? N.of_nat (length (p_files p))) &&
  (N.of_nat (length (p_files p)) <? modulus) &&
  forallb (fun i =>
             match p_files p !! i with
             | Some id =>
                 bool_decide (p_index p !! N.to_nat id = Some (N.of_nat i + 1))
             | None => true
             end) (seq 0 (N.to_nat (p_num p))) &&
  forallb (fun k =>
             match p_index p !! k with
             | Some v =>
                 (v =? 0) ||
                 ((v <=? p_num p) &&
                  bool_decide (p_files p !! N.to_nat (v - 1) = Some (N.of_nat k)))
             | None => true
             end) (seq 0 (length (p_index p))).

(* ------------------------------------------------------------------------- *)
(** ** Properties of every group of a table *)

(** Every group of the table satisfies [P], which may depend on the index of
    the group. *)
Definition all_groups (P : N -> DLTGroup -> Prop) (t : DLT) : Prop :=
  forall gid g, groups t !! N.to_nat gid = Some g -> P gid g.

(** What the second section of [Get] does to its group when the budget test
    of line 194 passes: lines 196-199, then the deferred unlock. *)
Definition Get_fetched_group (tempId : N) : M DLTGroup unit :=
  Lock ;;;
  on_panic_Unlock
    (n <~ gets readedCachedFileNum ;;
     slice_set readedCachedFiles set_readedCachedFiles n tempId ;;;
     modify (set_readedCachedFileNum (u32_inc n)) ;;;
     Unlock).

(** What the third section of [Get] does to its group. *)
Definition Get_woken_group (cache : gmap N FileNode) (r fileId : N)
  : M DLTGroup GetResult :=
  Wait_resume ;;;
  on_panic_Unlock
    (res <~ Get_relocked cache r fileId ;;
     Unlock ;;;
     ret res).

(** The partition, the two bitmaps and the five slices that [init] gives to
    the group of the partition [grp], whatever their content: each bitmap and
    each slice has the size of the partition. *)
Definition sized (grp : Group) (g : DLTGroup) : Prop :=
  let n := N.to_nat (grp_fileNum grp) in
  group g = Some grp /\
  (exists rb, readedFilesReal g = Some rb /\ length (bits rb) = n) /\
  (exists cb, readedFilesCache g = Some cb /\ length (bits cb) = n) /\
  length (unreadFilesIndexs g) = n /\ length (unreadFiles g) = n /\
  length (readedCachedFiles g) = n /\
  length (cacheedFilesCache g) = n /\ length (cachedFiles g) = n.

(** What [init] allocates for the partition [grp]: the above and the
    condition variable. *)
Definition allocated (grp : Group) (g : DLTGroup) : Prop :=
  sized grp g /\ is_Some (cond g).

(* ------------------------------------------------------------------------- *)
(** ** Outcomes of a method *)

(** From a state where [P] holds, [m] ends in a state where [Q] holds when it
    returns, where [E p] holds when it panics with [p], and where [K] holds
    when it parks. *)
Definition triple {S A} (P : S -> Prop) (m : M S A)
    (Q : S -> Prop) (E : Panic -> S -> Prop) (K : S -> Prop) : Prop :=
  forall s, P s ->
    match m s with
    | Done _ s' => Q s'
    | Crash p s' => E p s'
    | Parked s' => K s'
    end.

(** The group satisfies [J] and its mutex is held, or free. *)
Definition held (J : DLTGroup -> Prop) (b : bool) (g : DLTGroup) : Prop :=
  J g /\ lock g = b.

(** The panic that ends a run, if any. *)
Definition panic_of {S A} (r : Res S A) : option Panic :=
  match r with
  | Crash p _ => Some p
  | _ => None
  end.

(** The panic that ends a step, if any. *)
Definition act_panic (a : Action) (t : DLT) : option Panic :=
  match a with
  | AGet_enter r fileName => panic_of (Get_enter r fileName t)
  | AGet_fetched groupId tempId fetched =>
      panic_of (Get_fetched groupId tempId fetched t)
  | AGet_woken r groupId fileId => panic_of (Get_woken r groupId fileId t)
  | AaddUnreadedFile groupId fileId =>
      panic_of (on_group groupId (addUnreadedFile fileId) t)
  | AaddFileToCache groupId node =>
      panic_of (on_group groupId (addFileToCache node) t)
  end.

(** The pointers of a group that the methods dereference are set. *)
Definition no_nil (g : DLTGroup) : Prop :=
  is_Some (group g) /\ is_Some (cond g) /\
  is_Some (readedFilesReal g) /\ is_Some (readedFilesCache g).

(* ------------------------------------------------------------------------- *)
(** ** A sequence of calls by one goroutine *)

(** A call of [Get]: the random number it draws and the name it asks for,
    with the id of that name and the node expected in return. *)
Record Request : Type :=
  { rq_rand : N; rq_name : string; rq_id : N; rq_node : FileNode }.

(** The calls of [reqs] one after the other, with nothing else running: the
    results of the calls that returned, up to the first one that did not, and
    the table at the end. *)
Fixpoint Get_all (backend : Fetch -> option FileNode * option Error)
    (reqs : list Request) (t : DLT) : list GetResult * DLT :=
  match reqs with
  | [] => ([], t)
  | q :: rest =>
      match Get backend (rq_rand q) (rq_name q) t with
      | Done res t' =>
          let (out, t'') := Get_all backend rest t' in (res :: out, t'')
      | Crash _ t' => ([], t')
      | Parked t' => ([], t')
      end
  end.

(* ------------------------------------------------------------------------- *)
(** ** What a step leaves alone *)




(* ------------------------------------------------------------------------- *)
(** ** Basic facts *)

Lemma u32_inc_small (x : N) : x + 1 < modulus -> u32_inc x = x + 1.
Proof. intros H. unfold u32_inc. by rewrite N.mod_small. Qed.

Lemma u32_dec_zero : u32_dec 0 = modulus - 1.
Proof. reflexivity. Qed.

Lemma u32_dec_pos (x : N) : 0 < x -> x < modulus -> u32_dec x = x - 1.
Proof.
  intros H0 H1. unfold u32_dec.
  replace (x + (modulus - 1)) with (x - 1 + 1 * modulus) by (unfold modulus in *; lia).
  rewrite N.Div0.mod_add. apply N.mod_small. lia.
Qed.

Lemma BitMap_Get_Set_same (b : BitMap) (id : N) :
  (N.to_nat id < length (bits b))%nat -> BitMap_Get (BitMap_Set b id) id = true.
Proof.
  intros H. unfold BitMap_Get, BitMap_Set. simpl.
  by rewrite list_lookup_insert_eq.
Qed.

Lemma BitMap_Get_Set_mono (b : BitMap) (id j : N) :
  BitMap_Get b id = true -> BitMap_Get (BitMap_Set b j) id = true.
Proof.
  unfold BitMap_Get, BitMap_Set. simpl. intros H.
  destruct (decide (N.to_nat j = N.to_nat id)) as [e|ne].
  - rewrite e. destruct (bits b !! N.to_nat id) eqn:E; [|done].
    rewrite list_lookup_insert_eq; [done|]. by eapply lookup_lt_Some.
  - by rewrite list_lookup_insert_ne.
Qed.

Lemma BitMap_Get_Set_other (b : BitMap) (id j : N) :
  j ≠ id -> BitMap_Get (BitMap_Set b j) id = BitMap_Get b id.
Proof.
  intros H. unfold BitMap_Get, BitMap_Set. simpl.
  rewrite list_lookup_insert_ne; [done|lia].
Qed.

Lemma BitMap_Get_in_range (b : BitMap) (id : N) :
  BitMap_Get b id = true -> (N.to_nat id < length (bits b))%nat.
Proof.
  unfold BitMap_Get. intros H.
  destruct (bits b !! N.to_nat id) eqn:E; [|done]. by eapply lookup_lt_Some.
Qed.

Lemma BitMap_Get_fresh (n : nat) (id : N) :
  BitMap_Get {| bits := replicate n false |} id = false.
Proof.
  unfold BitMap_Get. simpl.
  destruct (replicate n false !! N.to_nat id) eqn:E; [|done].
  by apply lookup_replicate in E as [-> _].
Qed.

Lemma bind_Done {S A B} (m : M S A) (k : A -> M S B) (s s' : S) (a : A) :
  m s = Done a s' -> bind m k s = k a s'.
Proof. intros H. unfold bind. by rewrite H. Qed.

Lemma bind_Crash {S A B} (m : M S A) (k : A -> M S B) (s s' : S) (p : Panic) :
  m s = Crash p s' -> bind m k s = Crash p s'.
Proof. intros H. unfold bind. by rewrite H. Qed.

Lemma bind_Done_inv {S A B} (m : M S A) (k : A -> M S B) (s s' : S) (b : B) :
  bind m k s = Done b s' -> exists a s1, m s = Done a s1 /\ k a s1 = Done b s'.
Proof. unfold bind. destruct (m s) eqn:E; [eauto|done|done]. Qed.

Lemma set_groups_id (t : DLT) : set_groups (groups t) t = t.
Proof. by destruct t. Qed.

Lemma on_group_at {A} (groupId : N) (m : M DLTGroup A) (t : DLT) (g : DLTGroup) :
  groups t !! N.to_nat groupId = Some g ->
  on_group groupId m t =
    match m g with
    | Done a g' => Done a (set_groups (<[N.to_nat groupId := g']> (groups t)) t)
    | Crash p g' => Crash p (set_groups (<[N.to_nat groupId := g']> (groups t)) t)
    | Parked g' => Parked (set_groups (<[N.to_nat groupId := g']> (groups t)) t)
    end.
Proof. intros H. unfold on_group. by rewrite H. Qed.

Lemma set_groups_insert_id (t : DLT) (i : nat) (g : DLTGroup) :
  groups t !! i = Some g -> set_groups (<[i := g]> (groups t)) t = t.
Proof. intros H. rewrite list_insert_id by done. apply set_groups_id. Qed.


(* ------------------------------------------------------------------------- *)
(** ** Tactics for running a method on a symbolic state *)

(** Case analysis on an innermost scrutinee of a hypothesis or of the goal. *)
Ltac case_hyp H :=
  match type of H with
  | context [match ?x with _ => _ end] =>
      lazymatch x with
      | context [match _ with _ => _ end] => fail
      | _ => destruct x eqn:?
      end
  end.

Ltac case_inner :=
  match goal with
  | |- context [match ?x with _ => _ end] =>
      lazymatch x with
      | context [match _ with _ => _ end] => fail
      | _ => destruct x eqn:?
      end
  end.

(** Rewrite the goal with an equation of the context on one of its scrutinees. *)
Ltac rw_hyp :=
  match goal with
  | H : ?x = _ |- context [match ?x with _ => _ end] => rewrite H
  end.

(** Turn the boolean tests of the context into propositions. *)
Ltac bool_hyps :=
  repeat match goal with
  | H : negb _ = true |- _ => apply negb_true_iff in H
  | H : negb _ = false |- _ => apply negb_false_iff in H
  | H : (_ <? _)%nat = true |- _ => apply Nat.ltb_lt in H
  | H : (_ <? _)%nat = false |- _ => apply Nat.ltb_ge in H
  | H : (_ =? _) = true |- _ => apply N.eqb_eq in H
  | H : (_ =? _) = false |- _ => apply N.eqb_neq in H
  | H : (_ <? _) = true |- _ => apply N.ltb_lt in H
  | H : (_ <? _) = false |- _ => apply N.ltb_ge in H
  | H : (_ <=? _) = true |- _ => apply N.leb_le in H
  | H : (_ <=? _) = false |- _ => apply N.leb_gt in H
  end.

Ltac unfold_monad :=
  unfold bind, slice_get, slice_set, cache_Get, cache_Set, real_Get, real_Set,
    gets, modify, ret, panic in *.

(* ------------------------------------------------------------------------- *)
(** ** [init] *)

Lemma init_group_Done (mem : N -> bool) (ds : Dataset) (i : N) (t t' : DLT) :
  groups t !! N.to_nat i = Some zeroGroup ->
  init_group mem ds i t = Done None t' ->
  exists grp, ds_groups ds !! N.to_nat i = Some grp /\
    mem (grp_fileNum grp) = true /\
    t' = set_groups (<[N.to_nat i := fresh_group grp]> (groups t)) t.
Proof.
  intros Hz. unfold init_group.
  assert (Hlt : (N.to_nat i < length (groups t))%nat) by by eapply lookup_lt_Some.
  unfold bind at 1. rewrite (on_group_at _ _ _ _ Hz). simpl.
  destruct (ds_groups ds !! N.to_nat i) as [grp|]; [|done].
  unfold bind at 1. erewrite on_group_at; last by (simpl; apply list_lookup_insert_eq).
  simpl. unfold NewBitMap. destruct (mem (grp_fileNum grp)) eqn:Em; [|done].
  unfold bind at 1. erewrite on_group_at; last by (simpl; apply list_lookup_insert_eq; rewrite length_insert).
  simpl. unfold bind at 1. erewrite on_group_at; last by (simpl; apply list_lookup_insert_eq; rewrite !length_insert).
  simpl. intros [= <-]. exists grp. split; [done|]. split; [done|].
  unfold set_groups. simpl. by rewrite !list_insert_insert_eq.
Qed.

Lemma init_loop_Done (mem : N -> bool) (ds : Dataset) (n : nat) :
  forall (i : N) (t t' : DLT),
    i + N.of_nat n < modulus ->
    length (take (N.to_nat i) (ds_groups ds)) = N.to_nat i ->
    groups t =
      (fresh_group <$> take (N.to_nat i) (ds_groups ds)) ++ replicate n zeroGroup ->
    init_loop mem ds n i t = Done None t' ->
    groups t' = fresh_group <$> take (N.to_nat i + n) (ds_groups ds) /\
    length (take (N.to_nat i + n) (ds_groups ds)) = (N.to_nat i + n)%nat /\
    dataset t' = dataset t /\ inited t' = inited t.
Proof.
  induction n as [|n IH]; intros i t t' Hi Hlen Hg; simpl.
  - intros [= <-]. rewrite Nat.add_0_r, Hg, app_nil_r. done.
  - intros H. apply bind_Done_inv in H as (e & t1 & H1 & H2).
    destruct e as [err|]; [done|].
    assert (Hz : groups t !! N.to_nat i = Some zeroGroup).
    { rewrite Hg, lookup_app_r; rewrite length_fmap, Hlen; [|lia].
      by rewrite Nat.sub_diag. }
    destruct (init_group_Done _ _ _ _ _ Hz H1) as (grp & Hgrp & _ & ->).
    assert (Hi1 : N.to_nat (u32_inc i) = S (N.to_nat i)).
    { rewrite u32_inc_small; lia. }
    assert (Htk : take (S (N.to_nat i)) (ds_groups ds)
                  = take (N.to_nat i) (ds_groups ds) ++ [grp])
      by by apply take_S_r.
    apply IH in H2.
    + rewrite Hi1 in H2. replace (N.to_nat i + S n)%nat with (S (N.to_nat i) + n)%nat by lia.
      exact H2.
    + rewrite u32_inc_small; lia.
    + rewrite Hi1, Htk, length_app, Hlen. simpl. lia.
    + rewrite Hi1, Htk. simpl. rewrite Hg, fmap_app. simpl.
      rewrite <- (assoc_L (++)). simpl.
      rewrite insert_app_r_alt; rewrite length_fmap, Hlen; [|lia].
      by rewrite Nat.sub_diag.
Qed.

Lemma init_Done (mem : N -> bool) (ds : Dataset) (t t' : DLT) :
  groupNum ds < modulus ->
  init mem ds t = Done None t' ->
  inited t' = true /\ dataset t' = dataset t /\
  groups t' = fresh_group <$> take (N.to_nat (groupNum ds)) (ds_groups ds) /\
  length (groups t') = N.to_nat (groupNum ds).
Proof.
  intros Hn H. unfold init in H.
  apply bind_Done_inv in H as ([] & t1 & [= <-] & H).
  apply bind_Done_inv in H as (e & t2 & H1 & H2).
  destruct e as [err|]; [done|].
  apply init_loop_Done in H1 as (Hg & Hl & Hd & Hi); simpl in *; try done; try lia.
  injection H2 as <-. simpl. rewrite Hg, Hd, length_fmap, Hl. done.
Qed.

(** The state of one group after a successful [init]. *)
Lemma init_group_at
    (mem : N -> bool) (ds : Dataset) (t0 t : DLT) (groupId : N) (grp : Group) :
  groupNum ds < modulus ->
  init mem ds t0 = Done None t ->
  groupId < groupNum ds ->
  ds_groups ds !! N.to_nat groupId = Some grp ->
  inited t = true /\ dataset t = dataset t0 /\
  groups t !! N.to_nat groupId = Some (fresh_group grp).
Proof.
  intros Hn H Hi Hgrp.
  apply init_Done in H as (Hin & Hd & Hg & _); [|done].
  split; [done|]. split; [done|].
  rewrite Hg, list_lookup_fmap, lookup_take_lt by lia. by rewrite Hgrp.
Qed.

(** C3.  After a successful [init], every partition has both bitmaps empty and
    [unreadFileNum] equal to its file count, but no id passes the membership
    test of the unread pool and every slot of [unreadFiles] holds 0: the pool
    is not populated with the ids of the partition. *)
Theorem C3_init_unread_pool_not_populated
    (mem : N -> bool) (ds : Dataset) (t t' : DLT) (i : N) (grp : Group) :
  groupNum ds < modulus ->
  init mem ds t = Done None t' ->
  i < groupNum ds ->
  ds_groups ds !! N.to_nat i = Some grp ->
  exists g, groups t' !! N.to_nat i = Some g /\
    (forall id, bit_real g id = false /\ bit_cache g id = false) /\
    unreadFileNum g = grp_fileNum grp /\
    (forall id, unread_member g id = false) /\
    (forall id, id < grp_fileNum grp -> unreadFiles g !! N.to_nat id = Some 0).
Proof.
  intros Hn H Hi Hgrp.
  apply init_Done in H as (_ & _ & Hg & _); [|done].
  exists (fresh_group grp). split.
  - rewrite Hg, list_lookup_fmap, lookup_take_lt by lia. by rewrite Hgrp.
  - split; [|split; [done|split]].
    + intros id. split; apply BitMap_Get_fresh.
    + intros id. unfold unread_member. simpl.
      destruct (replicate _ 0 !! N.to_nat id) eqn:E; [|done].
      by apply lookup_replicate in E as [-> _].
    + intros id Hid. apply lookup_replicate_2. lia.
Qed.

Lemma C3_init_unread_pool_not_populated_witness :
  let grp := one_group 2 1 0 in
  let t := final (init (fun _ => true) (one_group_dataset grp ∅) (new_table grp ∅)) in
  exists g, groups t !! 0%nat = Some g /\
    unreadFileNum g = 2 /\
    unread_member g 0 = false /\ unread_member g 1 = false /\
    unreadFiles g = [0; 0].
Proof.
  intros grp t.
  destruct (C3_init_unread_pool_not_populated (fun _ => true)
              (one_group_dataset grp ∅) (new_table grp ∅) t 0 grp)
    as (g & Hg & _ & Hu & Hm & Hs);
    [ vm_compute; reflexivity | vm_compute; reflexivity | vm_compute; reflexivity
    | vm_compute; reflexivity | ].
  exists g. split; [exact Hg|]. split; [exact Hu|].
  split; [apply Hm|]. split; [apply Hm|].
  assert (E : Some g = Some (fresh_group grp)) by (rewrite <- Hg; vm_compute; reflexivity).
  injection E as ->. reflexivity.
Defined.

(* ------------------------------------------------------------------------- *)
(** ** Properties of the state that a method keeps *)

Lemma preserves_Done {S A} (P : S -> Prop) (m : M S A) (s s' : S) (a : A) :
  preserves P m -> P s -> m s = Done a s' -> P s'.
Proof. intros Hm Hs E. specialize (Hm s Hs). by rewrite E in Hm. Qed.

Lemma preserves_ret {S A} (P : S -> Prop) (a : A) : preserves P (ret a).
Proof. by intros s Hs. Qed.

Lemma preserves_gets {S A} (P : S -> Prop) (f : S -> A) : preserves P (gets f).
Proof. by intros s Hs. Qed.

Lemma preserves_panic {S A} (P : S -> Prop) (p : Panic) :
  preserves P (panic p : M S A).
Proof. by intros s Hs. Qed.

Lemma preserves_modify {S} (P : S -> Prop) (f : S -> S) :
  (forall s, P s -> P (f s)) -> preserves P (modify f).
Proof. intros Hf s Hs. by apply Hf. Qed.

Lemma preserves_bind {S A B} (P : S -> Prop) (m : M S A) (k : A -> M S B) :
  preserves P m -> (forall a, preserves P (k a)) -> preserves P (bind m k).
Proof.
  intros Hm Hk s Hs. specialize (Hm s Hs). unfold bind.
  destruct (m s) as [a s'| |]; simpl in *; [by apply Hk|done|done].
Qed.

Lemma preserves_slice_get {S} (P : S -> Prop) (a : S -> list N) (i : N) :
  preserves P (slice_get a i).
Proof. intros s Hs. unfold slice_get. by destruct (a s !! N.to_nat i). Qed.

Lemma preserves_slice_set {S} (P : S -> Prop) (a : S -> list N)
    (upd : list N -> S -> S) (i v : N) :
  (forall s, P s -> P (upd (<[N.to_nat i := v]> (a s)) s)) ->
  preserves P (slice_set a upd i v).
Proof.
  intros Hu s Hs. unfold slice_set.
  destruct (N.to_nat i <? length (a s))%nat; simpl; [by apply Hu|done].
Qed.

(** Decompose a goal [preserves P m] along the structure of [m]. *)
Ltac pres_step :=
  first
    [ assumption
    | match goal with
      | H : forall _, preserves _ _ |- _ => apply H
      | H : forall _ _, preserves _ _ |- _ => apply H
      | H : forall _ _ _, preserves _ _ |- _ => apply H
      end
    | apply preserves_ret
    | apply preserves_gets
    | apply preserves_panic
    | apply preserves_slice_get
    | apply preserves_slice_set; solve [auto]
    | apply preserves_modify; solve [auto]
    | apply preserves_bind; [|intros ?]
    | match goal with
      | |- preserves _ (if ?b then _ else _) => destruct b
      | |- preserves _ (match ?x with _ => _ end) => destruct x
      | |- preserves _ (let r := _ in _) => cbv zeta
      end ].

Ltac pres := repeat pres_step.

Section Group_preservation.

Variable P : DLTGroup -> Prop.

Hypothesis P_lock : forall v g, P g -> P (set_lock v g).
Hypothesis P_cond : forall v g, P g -> P (set_cond v g).
Hypothesis P_hasWiated : forall v g, P g -> P (set_hasWiated v g).
Hypothesis P_unreadFileNum : forall v g, P g -> P (set_unreadFileNum v g).
Hypothesis P_unreadFilesIndexs : forall i v g,
  P g -> P (set_unreadFilesIndexs (<[i := v]> (unreadFilesIndexs g)) g).
Hypothesis P_unreadFiles : forall i v g,
  P g -> P (set_unreadFiles (<[i := v]> (unreadFiles g)) g).
Hypothesis P_readedCachedFileNum : forall v g,
  P g -> P (set_readedCachedFileNum v g).
Hypothesis P_readedCachedFiles : forall i v g,
  P g -> P (set_readedCachedFiles (<[i := v]> (readedCachedFiles g)) g).
Hypothesis P_prereadFileNum : forall v g, P g -> P (set_prereadFileNum v g).
Hypothesis P_cachedFileNum : forall v g, P g -> P (set_cachedFileNum v g).
Hypothesis P_cacheedFilesCache : forall i v g,
  P g -> P (set_cacheedFilesCache (<[i := v]> (cacheedFilesCache g)) g).
Hypothesis P_cachedFiles : forall i v g,
  P g -> P (set_cachedFiles (<[i := v]> (cachedFiles g)) g).
Hypothesis P_real : forall id b g,
  P g -> readedFilesReal g = Some b ->
  P (set_readedFilesReal (Some (BitMap_Set b id)) g).
Hypothesis P_cache : forall id b g,
  P g -> readedFilesCache g = Some b ->
  P (set_readedFilesCache (Some (BitMap_Set b id)) g).

Lemma preserves_Lock : preserves P Lock.
Proof. intros g Hg. unfold Lock. destruct (lock g); simpl; auto. Qed.

Lemma preserves_Unlock : preserves P Unlock.
Proof. intros g Hg. unfold Unlock. destruct (lock g); simpl; auto. Qed.

Lemma preserves_Wait_park : preserves P Wait_park.
Proof.
  intros g Hg. unfold Wait_park. destruct (cond g); [|done].
  apply preserves_Unlock. auto.
Qed.

Lemma preserves_Wait_resume : preserves P Wait_resume.
Proof.
  intros g Hg. unfold Wait_resume. destruct (cond g) as [c|]; [|done].
  destruct (notified c); [done|]. apply preserves_Lock. auto.
Qed.

Lemma preserves_Signal : preserves P Signal.
Proof.
  intros g Hg. unfold Signal. destruct (cond g) as [c|]; [|done].
  destruct (waiters c); simpl; auto.
Qed.

Lemma preserves_real_Get (id : N) : preserves P (real_Get id).
Proof. intros g Hg. unfold real_Get. by destruct (readedFilesReal g). Qed.

Lemma preserves_cache_Get (id : N) : preserves P (cache_Get id).
Proof. intros g Hg. unfold cache_Get. by destruct (readedFilesCache g). Qed.

Lemma preserves_real_Set (id : N) : preserves P (real_Set id).
Proof.
  intros g Hg. unfold real_Set.
  destruct (readedFilesReal g) eqn:E; simpl; auto.
Qed.

Lemma preserves_cache_Set (id : N) : preserves P (cache_Set id).
Proof.
  intros g Hg. unfold cache_Set.
  destruct (readedFilesCache g) eqn:E; simpl; auto.
Qed.

Lemma preserves_on_panic_Unlock {A} (m : M DLTGroup A) :
  preserves P m -> preserves P (on_panic_Unlock m).
Proof.
  intros Hm g Hg. specialize (Hm g Hg). unfold on_panic_Unlock.
  destruct (m g); simpl in *; [done| |done]. by apply preserves_Unlock.
Qed.

Lemma preserves_markCachedFileReaded (fileId index : N) :
  preserves P (markCachedFileReaded fileId index).
Proof. unfold markCachedFileReaded. pres. Qed.

Lemma preserves_getRandomCachedFile (r : N) :
  preserves P (getRandomCachedFile r).
Proof.
  unfold getRandomCachedFile.
  pose proof preserves_markCachedFileReaded. pres; auto.
Qed.

Lemma preserves_getRandomUnreadedFile (r : N) :
  preserves P (getRandomUnreadedFile r).
Proof. unfold getRandomUnreadedFile. pres. Qed.

Lemma preserves_Get_removeUnread (tempId : N) :
  preserves P (Get_removeUnread tempId).
Proof. unfold Get_removeUnread. pres. Qed.

Lemma preserves_addUnreadedFile (fileId : N) :
  preserves P (addUnreadedFile fileId).
Proof.
  unfold addUnreadedFile. pose proof preserves_cache_Get. pres; auto.
Qed.

Lemma preserves_addFileToCache (node : FileNode) :
  preserves P (addFileToCache node).
Proof.
  unfold addFileToCache.
  pose proof preserves_cache_Get. pose proof preserves_Signal. pres; auto.
Qed.

Lemma preserves_pickCachedFile (r fileId : N) :
  preserves P (pickCachedFile r fileId).
Proof.
  unfold pickCachedFile.
  pose proof preserves_cache_Get. pose proof preserves_getRandomCachedFile.
  pose proof preserves_markCachedFileReaded. pres; auto.
Qed.

Lemma preserves_getFileFromCache (cache : gmap N FileNode) (r fileId : N) :
  preserves P (getFileFromCache cache r fileId).
Proof.
  unfold getFileFromCache. pose proof preserves_pickCachedFile. pres; auto.
Qed.

Lemma preserves_Get_locked (cache : gmap N FileNode) (r fileId : N) :
  preserves P (Get_locked cache r fileId).
Proof.
  unfold Get_locked.
  pose proof preserves_real_Get. pose proof preserves_real_Set.
  pose proof preserves_cache_Get. pose proof preserves_cache_Set.
  pose proof preserves_getFileFromCache.
  pose proof preserves_getRandomUnreadedFile.
  pose proof preserves_Get_removeUnread.
  pres; auto.
Qed.

Lemma preserves_Get_enter_group (cache : gmap N FileNode) (r fileId : N) :
  preserves P (Get_enter_group cache r fileId).
Proof.
  unfold Get_enter_group.
  apply preserves_bind; [apply preserves_Lock|intros _].
  apply preserves_on_panic_Unlock.
  pose proof preserves_Get_locked. pose proof preserves_Unlock.
  pose proof preserves_Wait_park. pres; auto.
Qed.

Lemma preserves_Get_relocked (cache : gmap N FileNode) (r fileId : N) :
  preserves P (Get_relocked cache r fileId).
Proof.
  unfold Get_relocked.
  pose proof preserves_real_Set. pose proof preserves_cache_Set.
  pose proof preserves_getFileFromCache. pres; auto.
Qed.

End Group_preservation.

(* ------------------------------------------------------------------------- *)
(** ** A delivered id stays delivered *)

Section Delivered.

Variables (groupId id : N).
Variable names : string -> option N.
Variable owner : N -> N.

Let P (g : DLTGroup) : Prop := bit_real g id = true.

Ltac stable :=
  unfold P, bit_real; intros; simpl in *;
  repeat match goal with
  | H : readedFilesReal _ = Some _ |- _ => rewrite H in *
  end;
  try done; try (by apply BitMap_Get_Set_mono).

Lemma delivered_on_group {A} (gid : N) (m : M DLTGroup A) :
  preserves P m -> preserves (delivered groupId id names owner) (on_group gid m).
Proof.
  intros Hm t (Hi & Hn & Ho & g & Hg & Hb). unfold on_group.
  destruct (groups t !! N.to_nat gid) as [g0|] eqn:E; [|simpl; repeat split; try done; by exists g].
  assert (Hlt : (N.to_nat gid < length (groups t))%nat) by by eapply lookup_lt_Some.
  assert (H : forall g', (N.to_nat gid = N.to_nat groupId -> P g') ->
            delivered groupId id names owner (set_groups (<[N.to_nat gid := g']> (groups t)) t)).
  { intros g' Hg'. repeat split; try done. unfold at_group. simpl.
    destruct (decide (N.to_nat gid = N.to_nat groupId)) as [e|ne].
    - exists g'. rewrite e in *. rewrite list_lookup_insert_eq by done.
      split; [done|by apply Hg'].
    - exists g. by rewrite list_lookup_insert_ne. }
  assert (H0 : N.to_nat gid = N.to_nat groupId -> P (final (m g0))).
  { intros e. apply Hm. rewrite e in E. by simplify_eq. }
  destruct (m g0); simpl in *; by apply H.
Qed.

Lemma delivered_Get_enter (r : N) (fileName : string) :
  preserves (delivered groupId id names owner) (Get_enter r fileName).
Proof.
  intros t Ht. unfold Get_enter.
  destruct (negb (inited t)); [done|].
  destruct (GetFileId (dataset t) fileName) as [fileId|]; [|done].
  generalize (fileIdToGroups (dataset t) fileId), (ds_cachedFiles (dataset t)),
    (dlt_id t), (ds_id (dataset t)).
  intros gid cache did dsid. revert t Ht. apply preserves_bind.
  - apply delivered_on_group. apply preserves_Get_enter_group; stable.
  - intros []; [apply preserves_ret| |apply preserves_ret].
    apply preserves_bind; [|intros ?; apply preserves_ret].
    apply delivered_on_group. intros g Hg. unfold deref_group.
    by destruct (group g).
Qed.

Lemma delivered_Get_fetched (gid tempId : N)
    (fetched : option FileNode * option Error) :
  preserves (delivered groupId id names owner) (Get_fetched gid tempId fetched).
Proof.
  assert (Hd : preserves (delivered groupId id names owner) (on_group gid deref_group)).
  { apply delivered_on_group. intros g Hg. unfold deref_group.
    by destruct (group g). }
  assert (Hu : preserves (delivered groupId id names owner) (on_group gid Unlock)).
  { apply delivered_on_group. apply preserves_Unlock; stable. }
  unfold Get_fetched. destruct fetched as [node [e|]]; [apply preserves_ret|].
  apply preserves_bind; [done|intros grp].
  destruct (cachedSize grp <=? allowCacheSize grp); [|apply preserves_ret].
  apply preserves_bind.
  { apply delivered_on_group. apply preserves_Lock; stable. }
  intros _ t Ht. unfold deferred_Unlock_at.
  match goal with |- context [match ?m t with _ => _ end] =>
    assert (Hm : preserves (delivered groupId id names owner) m) end.
  { apply preserves_bind; [|intros _; apply preserves_bind;
                              [|intros _; apply preserves_ret]].
    - apply preserves_modify. by intros s (? & ? & ? & ?).
    - apply delivered_on_group. pres; stable. }
  match goal with |- context [match ?m t with _ => _ end] =>
    specialize (Hm t Ht); destruct (m t) as [a t'|p t'|t'] end; simpl in *.
  - revert t' Hm. apply preserves_bind; [done|intros; apply preserves_ret].
  - by apply Hu.
  - done.
Qed.

Lemma delivered_Get_woken (r gid fileId : N) :
  preserves (delivered groupId id names owner) (Get_woken r gid fileId).
Proof.
  intros t Ht. unfold Get_woken. revert t Ht. intros t.
  generalize (ds_cachedFiles (dataset t)). intros cache. revert t.
  apply delivered_on_group.
  apply preserves_bind; [apply preserves_Wait_resume; stable|intros _].
  apply preserves_on_panic_Unlock; [stable|].
  apply preserves_bind; [apply preserves_Get_relocked; stable|intros res].
  apply preserves_bind; [apply preserves_Unlock; stable|intros; apply preserves_ret].
Qed.

Lemma delivered_act (a : Action) (t : DLT) : delivered groupId id names owner t ->
  delivered groupId id names owner (act a t).
Proof.
  destruct a; simpl.
  - apply delivered_Get_enter.
  - apply delivered_Get_fetched.
  - apply delivered_Get_woken.
  - apply delivered_on_group. apply preserves_addUnreadedFile; stable.
  - apply delivered_on_group. apply preserves_addFileToCache; stable.
Qed.

Lemma delivered_run (acts : list Action) (t : DLT) :
  delivered groupId id names owner t ->
  delivered groupId id names owner (run acts t).
Proof.
  revert t. induction acts as [|a acts IH]; intros t Ht; simpl; [done|].
  apply IH. by apply delivered_act.
Qed.

End Delivered.

Lemma Get_enter_group_refused
    (cache : gmap N FileNode) (r fileId : N) (g : DLTGroup) :
  lock g = false -> bit_real g fileId = true ->
  Get_enter_group cache r fileId g =
    Done (LReturn (None, CODE_EMPTY, Some (ErrReadAgain fileId))) g.
Proof.
  intros Hl Hb. destruct g. unfold bit_real in Hb. simpl in *. subst.
  destruct readedFilesReal0 as [b|]; [|done].
  unfold Get_enter_group, Get_locked, on_panic_Unlock, Lock, Unlock.
  unfold_monad. simpl. by rewrite Hb.
Qed.

(** C1.  Once the delivered-as-requested bit of a file is set, it stays set
    through every interleaving of the sections of [Get] and of the calls of
    the producer; and a [Get] for that file that gets the lock of its group
    returns [AlreadyRequested] with no node, leaving the table as it found
    it: the bit is tested first, under the lock, before anything is written. *)
Theorem C1_second_get_is_refused
    (t : DLT) (acts : list Action) (r : N) (fileName : string) (fileId : N) :
  inited t = true ->
  GetFileId (dataset t) fileName = Some fileId ->
  at_group (fileIdToGroups (dataset t) fileId)
    (fun g => bit_real g fileId = true) t ->
  at_group (fileIdToGroups (dataset t) fileId)
    (fun g => lock g = false) (run acts t) ->
  Get_enter r fileName (run acts t) =
    Done (Returned (None, CODE_EMPTY, Some (AlreadyRequested fileId)))
      (run acts t).
Proof.
  intros Hi Hn Hb (g & Hg & Hl).
  assert (Hd : delivered (fileIdToGroups (dataset t) fileId) fileId
                 (GetFileId (dataset t)) (fileIdToGroups (dataset t))
                 (run acts t)).
  { apply delivered_run. by repeat split. }
  destruct Hd as (Hi' & Hn' & Ho' & g' & Hg' & Hb').
  rewrite Hg in Hg'. injection Hg' as <-.
  unfold Get_enter. rewrite Hi', Hn', Hn, Ho'. simpl.
  unfold bind. rewrite (on_group_at _ _ _ _ Hg).
  rewrite Get_enter_group_refused by done.
  by rewrite set_groups_insert_id.
Qed.

Lemma C1_second_get_is_refused_witness :
  let grp := one_group 3 1 0 in
  let t0 := final (init (fun _ => true) (one_group_dataset grp ∅) (new_table grp ∅)) in
  let t := final (Get plain_backend 5 "2" t0) in
  let acts := [AGet_enter 7 "1"; AaddFileToCache 0 {| fileId := 2; content := "Z" |};
               AGet_fetched 0 0 (plain_backend
                 {| f_dlt := 1; f_dataset := 7; f_group := 0; f_file := 0 |});
               AGet_enter 9 "3"] in
  Get_enter 11 "2" (run acts t) =
    Done (Returned (None, CODE_EMPTY, Some (AlreadyRequested 1))) (run acts t).
Proof.
  intros grp t0 t acts.
  apply (C1_second_get_is_refused t acts 11 "2" 1).
  - vm_compute. reflexivity.
  - vm_compute. reflexivity.
  - eexists. split; vm_compute; reflexivity.
  - eexists. split; vm_compute; reflexivity.
Defined.

(* ------------------------------------------------------------------------- *)
(** ** The paths of [Get] *)

(** [Get_enter] when the section on the group returns. *)
Lemma Get_enter_returned
    (t : DLT) (r : N) (fileName : string) (fileId : N) (g g' : DLTGroup)
    (res : GetResult) :
  inited t = true ->
  GetFileId (dataset t) fileName = Some fileId ->
  groups t !! N.to_nat (fileIdToGroups (dataset t) fileId) = Some g ->
  Get_enter_group (ds_cachedFiles (dataset t)) r fileId g = Done (LReturn res) g' ->
  Get_enter r fileName t =
    Done (Returned res)
      (set_groups (<[N.to_nat (fileIdToGroups (dataset t) fileId) := g']> (groups t)) t).
Proof.
  intros Hi Hn Hg H. unfold Get_enter. rewrite Hi, Hn. simpl.
  unfold bind. by rewrite (on_group_at _ _ _ _ Hg), H.
Qed.

(** [Get_enter] when the section on the group leaves for the backend. *)
Lemma Get_enter_fetch
    (t : DLT) (r : N) (fileName : string) (fileId tempId : N) (g g' : DLTGroup)
    (grp : Group) :
  inited t = true ->
  GetFileId (dataset t) fileName = Some fileId ->
  groups t !! N.to_nat (fileIdToGroups (dataset t) fileId) = Some g ->
  Get_enter_group (ds_cachedFiles (dataset t)) r fileId g = Done (LFetch tempId) g' ->
  group g' = Some grp ->
  Get_enter r fileName t =
    Done (AwaitBackend (fileIdToGroups (dataset t) fileId)
            {| f_dlt := dlt_id t; f_dataset := ds_id (dataset t);
               f_group := grp_id grp; f_file := tempId |})
      (set_groups (<[N.to_nat (fileIdToGroups (dataset t) fileId) := g']> (groups t)) t).
Proof.
  intros Hi Hn Hg H Hgrp. unfold Get_enter. rewrite Hi, Hn. simpl.
  assert (Hlt : (N.to_nat (fileIdToGroups (dataset t) fileId) < length (groups t))%nat)
    by by eapply lookup_lt_Some.
  unfold bind at 1. rewrite (on_group_at _ _ _ _ Hg), H.
  unfold bind. erewrite on_group_at; last by (simpl; apply list_lookup_insert_eq).
  unfold deref_group. rewrite Hgrp. simpl.
  rewrite list_insert_insert_eq. by destruct t.
Qed.

(** The cached path of [Get_locked], once the file to hand out is chosen. *)
Lemma Get_locked_cached
    (cache : gmap N FileNode) (r fileId tempId : N) (g gp : DLTGroup)
    (node : FileNode) :
  bit_real g fileId = false -> readedFilesReal g ≠ None ->
  (0 <? cachedFileNum g) = true ->
  pickCachedFile r fileId g = Done (inl tempId) gp ->
  cache !! tempId = Some node ->
  Get_locked cache r fileId g =
    (cache_Set (node_fileId node) ;;; real_Set fileId ;;;
     ret (LReturn (Some node, CODE_OK, None))) gp.
Proof.
  intros Hb Hn Hc Hp Hl. unfold bit_real in Hb.
  unfold Get_locked, getFileFromCache.
  unfold bind at 1. unfold real_Get.
  destruct (readedFilesReal g); [|done]. rewrite Hb.
  unfold bind at 1. unfold gets. rewrite Hc.
  unfold bind at 1. unfold bind at 1. rewrite Hp, Hl. reflexivity.
Qed.

(** The direct path of [Get_enter_group] for a file that is neither delivered,
    nor consumed, nor in the unread pool: both bits are set and the call
    leaves for the backend with the file itself. *)
Lemma Get_enter_group_direct
    (cache : gmap N FileNode) (r fileId : N) (g : DLTGroup) (rb cb : BitMap) :
  lock g = false ->
  readedFilesReal g = Some rb -> readedFilesCache g = Some cb ->
  BitMap_Get rb fileId = false -> BitMap_Get cb fileId = false ->
  cachedFileNum g = 0 -> 0 < unreadFileNum g ->
  unreadFilesIndexs g !! N.to_nat fileId = Some 0 ->
  Get_enter_group cache r fileId g =
    Done (LFetch fileId)
      (set_readedFilesReal (Some (BitMap_Set rb fileId))
         (set_readedFilesCache (Some (BitMap_Set cb fileId)) g)).
Proof.
  intros Hl Hr Hc Hrb Hcb Hn Hu Hi.
  destruct g; simpl in *; subst.
  unfold Get_enter_group, Get_locked, Get_removeUnread, on_panic_Unlock,
    Lock, Unlock.
  unfold_monad. simpl. rewrite Hrb. simpl.
  destruct (N.ltb_spec 0 unreadFileNum0); [|lia].
  simpl. rewrite Hcb. simpl. rewrite Hi. simpl. reflexivity.
Qed.

(** [Get] run alone, when its first section returns. *)
Lemma Get_returned
    (backend : Fetch -> option FileNode * option Error)
    (t t' : DLT) (r : N) (fileName : string) (res : GetResult) :
  Get_enter r fileName t = Done (Returned res) t' ->
  Get backend r fileName t = Done res t'.
Proof. intros H. unfold Get. by rewrite (bind_Done _ _ _ _ _ H). Qed.

(** [Get] run alone, when its first section leaves for the backend. *)
Lemma Get_fetching
    (backend : Fetch -> option FileNode * option Error)
    (t t' : DLT) (r groupId : N) (fileName : string) (req : Fetch) :
  Get_enter r fileName t = Done (AwaitBackend groupId req) t' ->
  Get backend r fileName t = Get_fetched groupId (f_file req) (backend req) t'.
Proof. intros H. unfold Get. by rewrite (bind_Done _ _ _ _ _ H). Qed.

(* ------------------------------------------------------------------------- *)
(** ** [addUnreadedFile] twice *)

(** Once [addUnreadedFile] has returned, a second call for the same id returns
    at one of its three guards and changes nothing. *)
Lemma addUnreadedFile_again (g g' : DLTGroup) (fileId : N) (a : unit) :
  N.of_nat (length (unreadFiles g)) < modulus ->
  addUnreadedFile fileId g = Done a g' ->
  addUnreadedFile fileId g' = Done tt g'.
Proof.
  intros Hlen H. destruct a, g. simpl in Hlen.
  unfold addUnreadedFile in H. unfold_monad. simpl in H.
  repeat (case_hyp H; simpl in H; try done); simplify_eq;
    unfold addUnreadedFile; unfold_monad; simpl; repeat (rw_hyp; simpl); try done.
  bool_hyps. rewrite list_lookup_insert_eq by done.
  rewrite u32_inc_small by lia.
  destruct (unreadFileNum0 + 1 =? 0) eqn:E1; [apply N.eqb_eq in E1; lia|]. done.
Qed.

(** C9.  [register_unread] is idempotent: two calls in a row for one id end
    in the same result and the same state as a single call, so the id is in
    the unread pool once and the in-flight counter has been decremented once.
    The slice [unreadFiles] has a [uint32] length. *)
Theorem C9_register_unread_idempotent (g : DLTGroup) (fileId : N) :
  N.of_nat (length (unreadFiles g)) < modulus ->
  (addUnreadedFile fileId ;;; addUnreadedFile fileId) g = addUnreadedFile fileId g.
Proof.
  intros Hlen. unfold bind.
  destruct (addUnreadedFile fileId g) as [[] g'| |] eqn:E; [|done|done].
  by eapply addUnreadedFile_again.
Qed.

Lemma C9_register_unread_idempotent_witness :
  let g := set_unreadFileNum 0 (set_prereadFileNum 1
             (fresh_group {| grp_id := 0; grp_fileNum := 2;
                             allowCacheSize := 1; cachedSize := 0 |})) in
  N.of_nat (length (unreadFiles g)) < modulus /\
  (addUnreadedFile 1 ;;; addUnreadedFile 1) g = addUnreadedFile 1 g /\
  unreadFileNum (final (addUnreadedFile 1 g)) = 1 /\
  prereadFileNum (final (addUnreadedFile 1 g)) = 0.
Proof.
  split; [by vm_compute|].
  split; [apply C9_register_unread_idempotent; by vm_compute|].
  split; reflexivity.
Defined.


(* ------------------------------------------------------------------------- *)
(** ** The in-flight counter *)

(** C10.  [prereadFileNum] is decremented without a test for zero.  When it is
    0 and the id is neither unread, nor consumed, nor cached, [addUnreadedFile]
    and [addFileToCache] both leave it at [2^32 - 1], whether they return or
    panic on a later slice access; and with that value a [Get] that finds
    neither cached nor unread files takes the waiting branch. *)
Theorem C10_inflight_counter_wraps (g : DLTGroup) (node : FileNode) (cb : BitMap) :
  prereadFileNum g = 0 ->
  unreadFilesIndexs g !! N.to_nat (node_fileId node) = Some 0 ->
  readedFilesCache g = Some cb ->
  BitMap_Get cb (node_fileId node) = false ->
  cacheedFilesCache g !! N.to_nat (node_fileId node) = Some 0 ->
  prereadFileNum (final (addUnreadedFile (node_fileId node) g)) = 2 ^ 32 - 1 /\
  prereadFileNum (final (addFileToCache node g)) = 2 ^ 32 - 1 /\
  forall (g2 : DLTGroup) (cache : gmap N FileNode) (r fileId : N),
    prereadFileNum g2 = 2 ^ 32 - 1 ->
    bit_real g2 fileId = false -> readedFilesReal g2 ≠ None ->
    cachedFileNum g2 = 0 -> unreadFileNum g2 = 0 ->
    Get_locked cache r fileId g2 = Done LWait g2.
Proof.
  intros Hp Hi Hc Hb Hv. destruct g. simpl in *. subst.
  split; [|split].
  - unfold addUnreadedFile. unfold_monad. simpl.
    repeat (rw_hyp; simpl).
    repeat (case_inner; simpl; try done).
  - unfold addFileToCache. unfold_monad. simpl.
    repeat (rw_hyp; simpl).
    unfold Signal.
    repeat (case_inner; simpl; try done).
  - intros g2 cache r fileId Hp Hr Hn Hc Hu. destruct g2. simpl in *. subst.
    unfold bit_real in Hr. simpl in Hr.
    unfold Get_locked. unfold_monad. simpl.
    destruct readedFilesReal1; [|done]. by rewrite Hr.
Qed.

Lemma C10_inflight_counter_wraps_witness :
  let g := fresh_group {| grp_id := 0; grp_fileNum := 2;
                          allowCacheSize := 1; cachedSize := 0 |} in
  let node := {| fileId := 1; content := "X" |} in
  prereadFileNum (final (addUnreadedFile 1 g)) = 2 ^ 32 - 1 /\
  prereadFileNum (final (addFileToCache node g)) = 2 ^ 32 - 1.
Proof.
  intros g node.
  destruct (C10_inflight_counter_wraps g node {| bits := [false; false] |})
    as (H1 & H2 & _); try reflexivity.
  split; [exact H1 | exact H2].
Defined.

(* ------------------------------------------------------------------------- *)
(** ** [addFileToCache] *)

(** C4 fails as stated, twice.  An id taken out of the unread pool is not put
    in the cache-available pool and nobody is signalled, although a caller is
    waiting; and for an id that is already cached the in-flight counter is
    not decremented. *)
Lemma C4_counterexample :
  let grp := {| grp_id := 0; grp_fileNum := 2; allowCacheSize := 1; cachedSize := 0 |} in
  let node := {| fileId := 1; content := "X" |} in
  (* id 1 is the only unread file and a caller is waiting *)
  let g1 := set_hasWiated 1
              (set_cond (Some {| waiters := 1; notified := 0 |})
                 (set_unreadFileNum 1 (set_unreadFiles [1; 0]
                    (set_unreadFilesIndexs [0; 1] (fresh_group grp))))) in
  (* id 1 is already cached and two files are in flight *)
  let g2 := set_prereadFileNum 2
              (set_unreadFileNum 0
                 (set_cachedFileNum 1 (set_cachedFiles [1; 0]
                    (set_cacheedFilesCache [0; 1] (fresh_group grp))))) in
  (bit_cache g1 1 = false /\ unread_member g1 1 = true /\
   exists g', addFileToCache node g1 = Done tt g' /\
     cache_member g' 1 = false /\ cachedFileNum g' = 0 /\ cond g' = cond g1) /\
  (bit_cache g2 1 = false /\ unread_member g2 1 = false /\
   exists g', addFileToCache node g2 = Done tt g' /\ prereadFileNum g' = 2).
Proof.
  vm_compute. split.
  - split; [reflexivity|]. split; [reflexivity|].
    eexists. split; [reflexivity|]. done.
  - split; [reflexivity|]. split; [reflexivity|].
    eexists. split; [reflexivity|]. done.
Qed.

(** C4, amended.  For an id that is not consumed, [addFileToCache] does one of
    three things.  An id of the unread pool is taken out of that pool.  An id
    that is neither unread nor cached is counted off the in-flight counter and
    put in the cache-available pool, and one waiter is signalled when
    [hasWiated] is positive.  An id that is already cached leaves the group as
    it is.  The pools are within their slices, whose lengths are [uint32]. *)
Theorem C4_land_in_cache (g : DLTGroup) (node : FileNode) (cb : BitMap) :
  readedFilesCache g = Some cb ->
  BitMap_Get cb (node_fileId node) = false ->
  (forall index,
     unreadFilesIndexs g !! N.to_nat (node_fileId node) = Some index ->
     0 < index -> index <= unreadFileNum g ->
     unreadFileNum g <= N.of_nat (length (unreadFiles g)) ->
     N.of_nat (length (unreadFiles g)) < modulus ->
     exists g', addFileToCache node g = Done tt g' /\
       unread_member g' (node_fileId node) = false /\
       unreadFileNum g' = unreadFileNum g - 1) /\
  (forall c,
     unreadFilesIndexs g !! N.to_nat (node_fileId node) = Some 0 ->
     cacheedFilesCache g !! N.to_nat (node_fileId node) = Some 0 ->
     cachedFileNum g < N.of_nat (length (cachedFiles g)) ->
     N.of_nat (length (cachedFiles g)) < modulus ->
     cond g = Some c ->
     exists g', addFileToCache node g = Done tt g' /\
       prereadFileNum g' = u32_dec (prereadFileNum g) /\
       cachedFiles g' !! N.to_nat (cachedFileNum g) = Some (node_fileId node) /\
       cachedFileNum g' = cachedFileNum g + 1 /\
       cache_member g' (node_fileId node) = true /\
       cond g' = Some (if (0 <? hasWiated g)%Z then signal_one c else c)) /\
  (forall val,
     unreadFilesIndexs g !! N.to_nat (node_fileId node) = Some 0 ->
     cacheedFilesCache g !! N.to_nat (node_fileId node) = Some val ->
     val ≠ 0 ->
     addFileToCache node g = Done tt g).
Proof.
  intros Hc Hb. destruct g. simpl in *. subst.
  split; [|split].
  - intros index Hi H0 Hle Hlen Hmod.
    assert (Hin : (N.to_nat (node_fileId node) < length unreadFilesIndexs0)%nat)
      by by eapply lookup_lt_Some.
    unfold addFileToCache. unfold_monad. simpl.
    rewrite Hb. simpl. rewrite Hi. simpl.
    destruct (index =? 0) eqn:E0; [apply N.eqb_eq in E0; lia|]. simpl.
    rewrite !u32_dec_pos by lia.
    destruct (index =? unreadFileNum0) eqn:E1; simpl.
    + destruct (N.to_nat (node_fileId node) <? length unreadFilesIndexs0)%nat eqn:E2;
        [|apply Nat.ltb_ge in E2; lia].
      eexists. split; [reflexivity|]. simpl. split; [|apply u32_dec_pos; lia].
      unfold unread_member. simpl. by rewrite list_lookup_insert_eq.
    + apply N.eqb_neq in E1.
      destruct (unreadFiles0 !! N.to_nat (unreadFileNum0 - 1)) as [v|] eqn:E3; simpl.
      2:{ apply lookup_ge_None in E3. lia. }
      destruct (N.to_nat (index - 1) <? length unreadFiles0)%nat eqn:E4;
        [|apply Nat.ltb_ge in E4; lia].
      simpl.
      destruct (N.to_nat (node_fileId node) <? length unreadFilesIndexs0)%nat eqn:E2;
        [|apply Nat.ltb_ge in E2; lia].
      eexists. split; [reflexivity|]. simpl. split; [|try done; apply u32_dec_pos; lia].
      unfold unread_member. simpl. by rewrite list_lookup_insert_eq.
  - intros c Hi Hv Hlt Hmod ->.
    assert (Hin : (N.to_nat (node_fileId node) < length cacheedFilesCache0)%nat)
      by by eapply lookup_lt_Some.
    unfold addFileToCache. unfold_monad. simpl.
    rewrite Hb. simpl. rewrite Hi. simpl. rewrite Hv. simpl.
    destruct (N.to_nat cachedFileNum0 <? length cachedFiles0)%nat eqn:E1;
      [|apply Nat.ltb_ge in E1; lia].
    simpl.
    destruct (N.to_nat (node_fileId node) <? length cacheedFilesCache0)%nat eqn:E2;
      [|apply Nat.ltb_ge in E2; lia].
    simpl. apply Nat.ltb_lt in E1.
    rewrite u32_inc_small by lia.
    assert (Hm : cache_member
                   (set_cacheedFilesCache
                      (<[N.to_nat (node_fileId node) := cachedFileNum0 + 1]>
                         cacheedFilesCache0) zeroGroup) (node_fileId node) = true).
    { unfold cache_member. simpl. rewrite list_lookup_insert_eq by done.
      destruct (cachedFileNum0 + 1 =? 0) eqn:E; [apply N.eqb_eq in E; lia|done]. }
    unfold cache_member in *. simpl in Hm.
    destruct (0 <? hasWiated0)%Z; unfold Signal, signal_one; simpl.
    + destruct (waiters c); simpl; eexists; (split; [reflexivity|]); simpl;
        rewrite list_lookup_insert_eq by lia; repeat split; done.
    + eexists; (split; [reflexivity|]); simpl.
      rewrite list_lookup_insert_eq by lia; repeat split; done.
  - intros val Hi Hv Hne.
    unfold addFileToCache. unfold_monad. simpl.
    rewrite Hb. simpl. rewrite Hi. simpl. rewrite Hv. simpl.
    destruct (val =? 0) eqn:E; [apply N.eqb_eq in E; done|]. done.
Qed.

Lemma C4_land_in_cache_witness :
  let grp := {| grp_id := 0; grp_fileNum := 2; allowCacheSize := 1; cachedSize := 0 |} in
  let node := {| fileId := 1; content := "X" |} in
  let g := set_hasWiated 1
             (set_cond (Some {| waiters := 1; notified := 0 |})
                (set_unreadFileNum 0 (set_prereadFileNum 1 (fresh_group grp)))) in
  exists g', addFileToCache node g = Done tt g' /\
    prereadFileNum g' = 0 /\ cachedFileNum g' = 1 /\
    cache_member g' 1 = true /\
    cond g' = Some {| waiters := 0; notified := 1 |}.
Proof.
  intros grp node g.
  destruct (C4_land_in_cache g node {| bits := [false; false] |}) as (_ & H & _);
    [vm_compute; reflexivity | vm_compute; reflexivity |].
  destruct (H {| waiters := 1; notified := 0 |}) as (g' & H1 & H2 & _ & H4 & H5 & H6);
    [vm_compute; reflexivity | vm_compute; reflexivity | by vm_compute
    | by vm_compute | vm_compute; reflexivity |].
  exists g'. repeat split; assumption.
Defined.

(* ------------------------------------------------------------------------- *)
(** ** Waking up in [Get] *)

(** C6.  A caller that [cond.Wait] hands the lock back to runs
    [getFileFromCache] once.  If the cache-available pool is empty then, the
    call does not return an error: [getRandomCachedFile] takes a remainder by
    [cachedFileNum = 0] and the goroutine panics. *)
Theorem C6_woken_with_empty_pool_panics
    (t : DLT) (r groupId fileId : N) (g : DLTGroup) (c : Cond) (cb : BitMap) :
  groups t !! N.to_nat groupId = Some g ->
  lock g = false -> cond g = Some c -> (0 < notified c)%nat ->
  readedFilesCache g = Some cb ->
  cachedFileNum g = 0 ->
  cacheedFilesCache g !! N.to_nat fileId = Some 0 ->
  exists t', Get_woken r groupId fileId t = Crash DivideByZero t'.
Proof.
  intros Hg Hl Hc Hn Hb H0 Hv.
  unfold Get_woken. rewrite (on_group_at _ _ _ _ Hg).
  destruct g. simpl in *. subst.
  unfold Wait_resume, Lock, on_panic_Unlock, Get_relocked, getFileFromCache,
    pickCachedFile, getRandomCachedFile, markCachedFileReaded.
  unfold_monad. simpl.
  destruct (notified c) as [|k]; [lia|]. simpl.
  destruct (BitMap_Get cb fileId); simpl.
  - eexists. reflexivity.
  - rewrite Hv. simpl. eexists. reflexivity.
Qed.

(** The interleaving that reaches that state: a first caller waits for a
    file in flight; the file lands and the caller is signalled; before it
    runs, a second caller takes the file; then the first
    caller returns from [cond.Wait]. *)
Lemma C6_woken_with_empty_pool_panics_witness :
  let X := {| fileId := 1; content := "X" |} in
  let grp := one_group 2 1 0 in
  let g0 := set_unreadFileNum 0 (set_prereadFileNum 1 (fresh_group grp)) in
  let t0 := set_inited true (set_groups [g0] (new_table grp {[ 1 := X ]})) in
  exists t1 t2 t3 t4,
    Get_enter 5 "1" t0 = Done (AwaitCond 0 0) t1 /\
    on_group 0 (addFileToCache X) t1 = Done tt t2 /\
    Get plain_backend 5 "2" t2 = Done (Some X, CODE_OK, None) t3 /\
    Get_woken 5 0 0 t3 = Crash DivideByZero t4.
Proof.
  intros X grp g0 t0.
  set (t1 := final (Get_enter 5 "1" t0)).
  set (t2 := final (on_group 0 (addFileToCache X) t1)).
  set (t3 := final (Get plain_backend 5 "2" t2)).
  destruct (C6_woken_with_empty_pool_panics t3 5 0 0
              (default zeroGroup (groups t3 !! 0%nat))
              {| waiters := 0; notified := 1 |}
              {| bits := [false; true] |}) as [t4 H4];
    [vm_compute; reflexivity | vm_compute; reflexivity | vm_compute; reflexivity
    | simpl; lia
    | vm_compute; reflexivity | vm_compute; reflexivity | vm_compute; reflexivity |].
  exists t1, t2, t3, t4.
  split; [vm_compute; reflexivity|]. split; [vm_compute; reflexivity|].
  split; [vm_compute; reflexivity|]. exact H4.
Defined.

(* ------------------------------------------------------------------------- *)
(** ** Admission to the content cache *)

(** The three ways the second section of [Get] can go once the backend has
    returned a node. *)
Lemma Get_fetched_cases
    (t : DLT) (groupId tempId : N) (node : FileNode) (g : DLTGroup) (grp : Group) :
  groups t !! N.to_nat groupId = Some g ->
  group g = Some grp ->
  (N.to_nat (readedCachedFileNum g) < length (readedCachedFiles g))%nat ->
  (cachedSize grp <= allowCacheSize grp -> lock g = false ->
   Get_fetched groupId tempId (Some node, None) t =
     Done (Some node, CODE_EMPTY, None)
       (set_groups
          (<[N.to_nat groupId :=
               set_readedCachedFileNum (u32_inc (readedCachedFileNum g))
                 (set_readedCachedFiles
                    (<[N.to_nat (readedCachedFileNum g) := tempId]>
                       (readedCachedFiles g)) g)]> (groups t))
          (set_dataset
             (set_ds_cachedFiles (<[tempId := node]> (ds_cachedFiles (dataset t)))
                (dataset t)) t))) /\
  (cachedSize grp <= allowCacheSize grp -> lock g = true ->
   Get_fetched groupId tempId (Some node, None) t = Parked t) /\
  (allowCacheSize grp < cachedSize grp ->
   Get_fetched groupId tempId (Some node, None) t =
     Done (Some node, CODE_EMPTY, None) t).
Proof.
  intros Hg Hgrp Hlog.
  assert (Hi : (N.to_nat groupId < length (groups t))%nat) by by eapply lookup_lt_Some.
  assert (Hd : on_group groupId deref_group t = Done grp t).
  { rewrite (on_group_at _ _ _ _ Hg). unfold deref_group. rewrite Hgrp.
    by rewrite set_groups_insert_id. }
  unfold Get_fetched. rewrite (bind_Done _ _ _ _ _ Hd).
  split; [|split].
  - intros Hle Hl. apply N.leb_le in Hle. rewrite Hle.
    unfold bind at 1. rewrite (on_group_at _ _ _ _ Hg). unfold Lock. rewrite Hl.
    unfold deferred_Unlock_at, store_cachedFile. unfold_monad.
    erewrite on_group_at; last by (simpl; apply list_lookup_insert_eq).
    simpl. apply Nat.ltb_lt in Hlog. rewrite Hlog.
    erewrite on_group_at; last by (simpl; apply list_lookup_insert_eq; rewrite length_insert).
    unfold Unlock. simpl. rewrite !list_insert_insert_eq.
    destruct g, t. simpl in *. subst. reflexivity.
  - intros Hle Hl. apply N.leb_le in Hle. rewrite Hle.
    unfold bind at 1. rewrite (on_group_at _ _ _ _ Hg). unfold Lock. rewrite Hl.
    by rewrite set_groups_insert_id.
  - intros Hlt. apply N.leb_gt in Hlt. rewrite Hlt. reflexivity.
Qed.


(** C8 fails as stated: with [cachedSize = allowCacheSize] the budget is not
    below its limit, and the fetched node is stored in the content cache all
    the same. *)
Lemma C8_counterexample :
  let grp := one_group 1 3 3 in
  let t := final (init (fun _ => true) (one_group_dataset grp ∅) (new_table grp ∅)) in
  (cachedSize grp <? allowCacheSize grp) = false /\
  ds_cachedFiles (dataset t) !! 0 = None /\
  exists t' node,
    Get plain_backend 5 "1" t = Done (Some node, CODE_EMPTY, None) t' /\
    ds_cachedFiles (dataset t') !! 0 = Some node.
Proof.
  vm_compute. split; [reflexivity|]. split; [reflexivity|].
  eexists _, _. split; reflexivity.
Qed.

(** C8, amended.  After a successful fetch the node is stored in the content
    cache exactly when [allowCacheSize >= cachedSize].  The comparison is made
    before the lock is taken again: when it fails the call returns whoever
    holds the lock, and when it holds the call first has to get the lock.  The
    store and the log entry are made under the lock, and the budget of the
    group is not touched. *)
Theorem C8_cache_admission
    (t : DLT) (groupId tempId : N) (node : FileNode) (g : DLTGroup) (grp : Group) :
  groups t !! N.to_nat groupId = Some g ->
  group g = Some grp ->
  (N.to_nat (readedCachedFileNum g) < length (readedCachedFiles g))%nat ->
  (cachedSize grp <= allowCacheSize grp -> lock g = false ->
   Get_fetched groupId tempId (Some node, None) t =
     Done (Some node, CODE_EMPTY, None)
       (set_groups
          (<[N.to_nat groupId :=
               set_readedCachedFileNum (u32_inc (readedCachedFileNum g))
                 (set_readedCachedFiles
                    (<[N.to_nat (readedCachedFileNum g) := tempId]>
                       (readedCachedFiles g)) g)]> (groups t))
          (set_dataset
             (set_ds_cachedFiles (<[tempId := node]> (ds_cachedFiles (dataset t)))
                (dataset t)) t))) /\
  (cachedSize grp <= allowCacheSize grp -> lock g = true ->
   Get_fetched groupId tempId (Some node, None) t = Parked t) /\
  (allowCacheSize grp < cachedSize grp ->
   Get_fetched groupId tempId (Some node, None) t =
     Done (Some node, CODE_EMPTY, None) t).
Proof. apply Get_fetched_cases. Qed.

Lemma C8_cache_admission_witness :
  let grp := one_group 1 3 3 in
  let t := final (init (fun _ => true) (one_group_dataset grp ∅) (new_table grp ∅)) in
  let node := {| fileId := 0; content := "0" |} in
  exists t', Get_fetched 0 0 (Some node, None) t = Done (Some node, CODE_EMPTY, None) t' /\
    ds_cachedFiles (dataset t') !! 0 = Some node.
Proof.
  intros grp t node.
  destruct (C8_cache_admission t 0 0 node (fresh_group grp) grp) as (H & _ & _);
    [vm_compute; reflexivity | vm_compute; reflexivity | vm_compute; lia |].
  eexists. split.
  - apply H; [by vm_compute | vm_compute; reflexivity].
  - vm_compute. reflexivity.
Defined.

(* ------------------------------------------------------------------------- *)
(** ** A failed fetch *)

Lemma on_panic_Unlock_Done {A} (m : M DLTGroup A) (g g' : DLTGroup) (a : A) :
  on_panic_Unlock m g = Done a g' -> m g = Done a g'.
Proof. unfold on_panic_Unlock. by destruct (m g). Qed.

Ltac frame :=
  unfold bitmaps_are; intros; simpl in *; rewrite ?length_insert; tauto.

Lemma Get_locked_fetch
    (cache : gmap N FileNode) (r fileId tempId : N) (g g' : DLTGroup)
    (rb cb : BitMap) :
  readedFilesReal g = Some rb -> readedFilesCache g = Some cb ->
  length (bits rb) = length (unreadFilesIndexs g) ->
  length (bits cb) = length (unreadFilesIndexs g) ->
  Get_locked cache r fileId g = Done (LFetch tempId) g' ->
  bit_real g' fileId = true /\ bit_cache g' tempId = true /\ lock g' = lock g.
Proof.
  intros Hr Hc Hlr Hlc H. unfold Get_locked in H.
  apply bind_Done_inv in H as (readed & g1 & H1 & H).
  unfold real_Get in H1. rewrite Hr in H1. injection H1 as <- <-.
  destruct (BitMap_Get rb fileId); [done|].
  apply bind_Done_inv in H as (c & g1 & [= <- <-] & H).
  destruct (0 <? cachedFileNum g).
  { apply bind_Done_inv in H as ([[node|] [e|]] & g1 & _ & H); try done.
    all: apply bind_Done_inv in H as (? & ? & _ & H).
    all: by apply bind_Done_inv in H as (? & ? & _ & H). }
  apply bind_Done_inv in H as (u & g1 & [= <- <-] & H).
  destruct (0 <? unreadFileNum g).
  2:{ apply bind_Done_inv in H as (pre & g1 & [= <- <-] & H).
      by destruct (0 <? prereadFileNum g). }
  apply bind_Done_inv in H as (consumed & g1 & H1 & H).
  unfold cache_Get in H1. rewrite Hc in H1. injection H1 as <- <-.
  apply bind_Done_inv in H as (p & g2 & H2 & H).
  assert (Hf : bitmaps_are (Some rb) (Some cb) (length (unreadFilesIndexs g)) g2
               /\ lock g2 = lock g
               /\ (BitMap_Get cb fileId = false -> fst p = fileId)).
  { destruct (BitMap_Get cb fileId) eqn:Eb.
    - split; [|split; [|done]].
      + eapply (preserves_Done (bitmaps_are _ _ _)); [|split; [|split]; done|exact H2].
        apply preserves_getRandomUnreadedFile; frame.
      + eapply (preserves_Done (fun s => lock s = lock g)); [|done|exact H2].
        apply preserves_getRandomUnreadedFile; by intros.
    - injection H2 as <- <-. by repeat split. }
  destruct Hf as ((Hr2 & Hc2 & Hn2) & Hl2 & Hp).
  destruct (negb (snd p)).
  { by apply bind_Done_inv in H as (? & ? & _ & H). }
  apply bind_Done_inv in H as ([] & g3 & H3 & H).
  unfold cache_Set in H3. rewrite Hc2 in H3. injection H3 as <-.
  apply bind_Done_inv in H as ([] & g4 & H4 & H).
  unfold real_Set in H4. simpl in H4. rewrite Hr2 in H4. injection H4 as <-.
  apply bind_Done_inv in H as ([] & g5 & H5 & H).
  injection H as <- <-.
  assert (Hin : (N.to_nat (fst p) < length (unreadFilesIndexs g))%nat).
  { unfold Get_removeUnread in H5.
    apply bind_Done_inv in H5 as (index & g6 & H6 & _).
    unfold slice_get in H6. simpl in H6.
    destruct (unreadFilesIndexs g2 !! N.to_nat (fst p)) eqn:E; [|done].
    rewrite <- Hn2. by eapply lookup_lt_Some. }
  assert (Hf : bitmaps_are (Some (BitMap_Set rb fileId))
                 (Some (BitMap_Set cb (fst p))) (length (unreadFilesIndexs g)) g5).
  { eapply (preserves_Done (bitmaps_are _ _ _)); [| |exact H5].
    - apply preserves_Get_removeUnread; frame.
    - by repeat split. }
  assert (Hl5 : lock g5 = lock g).
  { rewrite <- Hl2.
    eapply (preserves_Done (fun s => lock s = lock g2)); [| |exact H5].
    - apply preserves_Get_removeUnread; by intros.
    - done. }
  destruct Hf as (Hr5 & Hc5 & _).
  unfold bit_real, bit_cache. rewrite Hr5, Hc5.
  split; [|split; [|done]].
  - apply BitMap_Get_Set_same. rewrite Hlr.
    destruct (BitMap_Get cb fileId) eqn:Eb.
    + apply BitMap_Get_in_range in Eb. by rewrite <- Hlc.
    + by rewrite <- (Hp eq_refl).
  - apply BitMap_Get_Set_same. by rewrite Hlc.
Qed.

Lemma on_group_Done_inv {A} (groupId : N) (m : M DLTGroup A) (t t' : DLT) (a : A) :
  on_group groupId m t = Done a t' ->
  exists g g', groups t !! N.to_nat groupId = Some g /\ m g = Done a g' /\
    t' = set_groups (<[N.to_nat groupId := g']> (groups t)) t.
Proof.
  unfold on_group. destruct (groups t !! N.to_nat groupId) as [g|]; [|done].
  destruct (m g) as [a' g'| |] eqn:E; [|done|done].
  intros [= <- <-]. by exists g, g'.
Qed.

Lemma Get_enter_group_fetch
    (cache : gmap N FileNode) (r fileId tempId : N) (g g' : DLTGroup)
    (rb cb : BitMap) :
  readedFilesReal g = Some rb -> readedFilesCache g = Some cb ->
  length (bits rb) = length (unreadFilesIndexs g) ->
  length (bits cb) = length (unreadFilesIndexs g) ->
  Get_enter_group cache r fileId g = Done (LFetch tempId) g' ->
  bit_real g' fileId = true /\ bit_cache g' tempId = true /\ lock g' = false.
Proof.
  intros Hr Hc Hlr Hlc H. unfold Get_enter_group in H.
  apply bind_Done_inv in H as ([] & g0 & H0 & H).
  unfold Lock in H0. destruct (lock g) eqn:El; [done|]. injection H0 as <-.
  apply on_panic_Unlock_Done in H.
  apply bind_Done_inv in H as (l & g1 & H1 & H).
  assert (l = LFetch tempId) as ->.
  { destruct l; try by apply bind_Done_inv in H as (? & ? & _ & [= <-]).
    apply bind_Done_inv in H as (? & ? & _ & H).
    apply bind_Done_inv in H as (? & ? & _ & H).
    by apply bind_Done_inv in H as (? & ? & _ & [= <-]). }
  apply Get_locked_fetch with (rb := rb) (cb := cb) in H1 as (Hb1 & Hb2 & Hl1);
    try done.
  apply bind_Done_inv in H as ([] & g2 & H2 & [= <-]).
  unfold Unlock in H2. destruct (lock g1); [|done]. injection H2 as <-.
  by destruct g1.
Qed.

(** C5 fails as stated: the fetch fails, the error comes back, and both bits
    of the file are set. *)
Lemma C5_counterexample :
  let grp := one_group 1 1 0 in
  let t := final (init (fun _ => true) (one_group_dataset grp ∅) (new_table grp ∅)) in
  exists t',
    Get failing_backend 5 "1" t =
      Done (None, CODE_EMPTY, Some (ErrBackend "unreachable")) t' /\
    at_group 0 (fun g => bit_real g 0 = true /\ bit_cache g 0 = true) t'.
Proof.
  vm_compute. eexists. split; [reflexivity|].
  eexists. split; [reflexivity|]. split; reflexivity.
Qed.

(** C5, amended.  When the fetch of the direct path fails, [Get] returns the
    error of the backend with no node and changes nothing more; the
    delivered-as-requested bit of the requested file and the consumed-from-pool
    bit of the candidate, both set under the lock before the fetch, stay set.
    The bitmaps of the group have the capacity of its slices. *)
Theorem C5_failed_fetch_keeps_both_bits
    (t t1 : DLT) (r : N) (fileName : string) (fileId groupId : N) (req : Fetch)
    (node : option FileNode) (e : Error) (g : DLTGroup) (rb cb : BitMap) :
  GetFileId (dataset t) fileName = Some fileId ->
  groups t !! N.to_nat (fileIdToGroups (dataset t) fileId) = Some g ->
  readedFilesReal g = Some rb -> readedFilesCache g = Some cb ->
  length (bits rb) = length (unreadFilesIndexs g) ->
  length (bits cb) = length (unreadFilesIndexs g) ->
  Get_enter r fileName t = Done (AwaitBackend groupId req) t1 ->
  Get_fetched groupId (f_file req) (node, Some e) t1 =
    Done (None, CODE_EMPTY, Some e) t1 /\
  at_group groupId
    (fun g1 => bit_real g1 fileId = true /\ bit_cache g1 (f_file req) = true /\
               lock g1 = false) t1.
Proof.
  intros Hn Hg Hr Hc Hlr Hlc H. split; [reflexivity|].
  unfold Get_enter in H. destruct (negb (inited t)); [done|].
  rewrite Hn in H.
  apply bind_Done_inv in H as (l & t' & H1 & H).
  apply on_group_Done_inv in H1 as (g0 & g' & Hg0 & H1 & ->).
  rewrite Hg in Hg0. injection Hg0 as <-.
  destruct l as [res|tempId|]; [done| |done].
  apply bind_Done_inv in H as (grp & t2 & H2 & [= <- <- <-]).
  apply on_group_Done_inv in H2 as (g1 & g2 & Hg1 & H2 & ->).
  simpl in Hg1.
  assert (Hlt : (N.to_nat (fileIdToGroups (dataset t) fileId) < length (groups t))%nat)
    by by eapply lookup_lt_Some.
  rewrite list_lookup_insert_eq in Hg1 by done. injection Hg1 as <-.
  unfold deref_group in H2. destruct (group g'); [|done]. injection H2 as <- <-.
  exists g'. simpl. split.
  - rewrite list_insert_insert_eq. by apply list_lookup_insert_eq.
  - by eapply Get_enter_group_fetch.
Qed.

Lemma C5_failed_fetch_keeps_both_bits_witness :
  let grp := one_group 2 1 0 in
  let t := final (init (fun _ => true) (one_group_dataset grp ∅) (new_table grp ∅)) in
  let req := {| f_dlt := 1; f_dataset := 7; f_group := 0; f_file := 1 |} in
  let t1 := final (Get_enter 5 "2" t) in
  Get_fetched 0 1 (failing_backend req) t1 =
    Done (None, CODE_EMPTY, Some (ErrBackend "unreachable")) t1 /\
  at_group 0 (fun g1 => bit_real g1 1 = true /\ bit_cache g1 1 = true /\
                        lock g1 = false) t1.
Proof.
  intros grp t req t1.
  apply (C5_failed_fetch_keeps_both_bits t t1 5 "2" 1 0 req None
           (ErrBackend "unreachable") (fresh_group grp)
           {| bits := [false; false] |} {| bits := [false; false] |});
    vm_compute; reflexivity.
Defined.

(* ------------------------------------------------------------------------- *)
(** ** Substitution from the cache-available pool *)

(** With a single cached file the random draw has one outcome. *)
Lemma getRandomCachedFile_single (r : N) (g : DLTGroup) :
  cachedFileNum g = 1 -> getRandomCachedFile r g = getRandomCachedFile 0 g.
Proof.
  intros H. unfold getRandomCachedFile, bind, gets. rewrite H. simpl.
  by rewrite N.mod_1_r.
Qed.

Lemma pickCachedFile_single (r fileId : N) (g : DLTGroup) :
  cachedFileNum g = 1 -> pickCachedFile r fileId g = pickCachedFile 0 fileId g.
Proof.
  intros H. unfold pickCachedFile, bind, cache_Get, slice_get.
  destruct (readedFilesCache g) as [b|]; [|done].
  destruct (BitMap_Get b fileId).
  - by rewrite getRandomCachedFile_single.
  - destruct (cacheedFilesCache g !! N.to_nat fileId) as [val|]; [|done].
    destruct (val =? 0); [|done].
    by rewrite getRandomCachedFile_single.
Qed.

(** C2 fails as stated: [addFileToCache] does not store the node it is given,
    so with nothing in the content cache the substitution finds no content,
    [Get] returns an error and sets no bit. *)
Lemma C2_counterexample :
  let grp := one_group 2 1 0 in
  let X := {| fileId := 0; content := "X" |} in
  let t := final (init (fun _ => true) (one_group_dataset grp ∅) (new_table grp ∅)) in
  let t1 := final (on_group 0 (addFileToCache X) t) in
  let t2 := final (Get plain_backend 5 "2" t1) in
  on_group 0 (addFileToCache X) t = Done tt t1 /\
  Get plain_backend 5 "2" t1 =
    Done (None, CODE_EMPTY, Some (ErrMarkedNotCached 0)) t2 /\
  at_group 0 (fun g => bit_real g 1 = false /\ bit_cache g 0 = false) t2.
Proof.
  split; [vm_compute; reflexivity|]. split; [vm_compute; reflexivity|].
  eexists. split; [vm_compute; reflexivity|].
  split; vm_compute; reflexivity.
Qed.

(** The scenario on the group alone: in a fresh group of 2 files, [a] lands
    and [b] is requested. *)
Lemma fresh_pair_substitution
    (cache : gmap N FileNode) (r a b : N) (grp : Group) (X : FileNode) :
  grp_fileNum grp = 2 -> a < 2 -> b < 2 -> a ≠ b ->
  node_fileId X = a -> cache !! a = Some X ->
  exists g1 g2,
    addFileToCache X (fresh_group grp) = Done tt g1 /\
    Get_enter_group cache r b g1 = Done (LReturn (Some X, CODE_OK, None)) g2 /\
    bit_real g2 b = true /\ bit_cache g2 a = true /\
    cache_member g2 a = false /\ cachedFileNum g2 = 0.
Proof.
  intros H2 Ha Hb Hab HX Hcache.
  destruct grp as [gi gn allow used]. simpl in H2. subst gn.
  destruct X as [xid xc]. unfold node_fileId in HX. simpl in HX. subst xid.
  assert (Hcases : a = 0 /\ b = 1 \/ a = 1 /\ b = 0) by lia.
  destruct Hcases as [[-> ->]|[-> ->]].
  all: eexists _, _; split; [vm_compute; reflexivity|].
  all: split;
    [ unfold Get_enter_group, Lock, on_panic_Unlock; unfold bind at 1;
      cbn [lock set_lock]; unfold bind at 1;
      match goal with
      | |- context [Get_locked ?c ?r ?b ?g] =>
          let v := eval vm_compute in (pickCachedFile 0 b g) in
          match v with
          | Done (inl ?tid) ?gp =>
              rewrite (Get_locked_cached c r b tid g gp
                         {| fileId := tid; content := xc |})
                by first [ exact Hcache
                         | rewrite pickCachedFile_single by reflexivity;
                           vm_compute; reflexivity
                         | reflexivity
                         | done ]
          end
      end;
      cbv; reflexivity
    | repeat split; vm_compute; reflexivity ].
Qed.

(** C2, amended.  In a partition of 2 files, after [init], let the producer
    call [addFileToCache] for one file, whose node [X] the content cache
    holds under that id.  A [Get] for the other file is then served from the
    cache-available pool by substitution: it returns [X], sets the
    delivered-as-requested bit of the requested id and the consumed-from-pool
    bit of the id of [X], and leaves the pool empty. *)
Theorem C2_substitution_after_landing
    (mem : N -> bool) (ds : Dataset) (t0 t : DLT)
    (backend : Fetch -> option FileNode * option Error)
    (r groupId a b : N) (fileName : string) (grp : Group) (X : FileNode) :
  groupNum ds < modulus ->
  init mem ds t0 = Done None t ->
  groupId < groupNum ds ->
  ds_groups ds !! N.to_nat groupId = Some grp ->
  grp_fileNum grp = 2 ->
  a < 2 -> b < 2 -> a ≠ b ->
  node_fileId X = a ->
  ds_cachedFiles (dataset t0) !! a = Some X ->
  GetFileId (dataset t0) fileName = Some b ->
  fileIdToGroups (dataset t0) b = groupId ->
  exists t1 t2,
    on_group groupId (addFileToCache X) t = Done tt t1 /\
    Get backend r fileName t1 = Done (Some X, CODE_OK, None) t2 /\
    at_group groupId
      (fun g => bit_real g b = true /\ bit_cache g a = true /\
                cache_member g a = false /\ cachedFileNum g = 0) t2.
Proof.
  intros Hn Hinit Hi Hgrp H2 Ha Hb Hab HX Hcache Hname Hown.
  destruct (init_group_at _ _ _ _ _ _ Hn Hinit Hi Hgrp) as (Hin & Hd & Hg).
  assert (Hlt : (N.to_nat groupId < length (groups t))%nat) by by eapply lookup_lt_Some.
  destruct (fresh_pair_substitution (ds_cachedFiles (dataset t0)) r a b grp X)
    as (g1 & g2 & H1 & H3 & Hbits); try done.
  set (t1 := set_groups (<[N.to_nat groupId := g1]> (groups t)) t).
  assert (Hg1 : groups t1 !! N.to_nat (fileIdToGroups (dataset t1) b) = Some g1).
  { simpl. rewrite Hd, Hown. by apply list_lookup_insert_eq. }
  exists t1, (set_groups (<[N.to_nat groupId := g2]> (groups t1)) t1).
  split; [by rewrite (on_group_at _ _ _ _ Hg), H1|]. split.
  - apply Get_returned.
    assert (Hown1 : fileIdToGroups (dataset t1) b = groupId)
      by (simpl; by rewrite Hd).
    pose proof (Get_enter_returned t1 r fileName b g1 g2
                  (Some X, CODE_OK, None)) as HE.
    rewrite Hown1 in HE. apply HE; simpl; rewrite ?Hd; try done.
    by apply list_lookup_insert_eq.
  - exists g2. split; [|done]. simpl. apply list_lookup_insert_eq.
    by rewrite length_insert.
Qed.

Lemma C2_substitution_after_landing_witness :
  let grp := one_group 2 1 0 in
  let X := {| fileId := 0; content := "X" |} in
  let ds := one_group_dataset grp {[ 0 := X ]} in
  let t := final (init (fun _ => true) ds (new_table grp {[ 0 := X ]})) in
  exists t1 t2,
    on_group 0 (addFileToCache X) t = Done tt t1 /\
    Get plain_backend 5 "2" t1 = Done (Some X, CODE_OK, None) t2 /\
    at_group 0
      (fun g => bit_real g 1 = true /\ bit_cache g 0 = true /\
                cache_member g 0 = false /\ cachedFileNum g = 0) t2.
Proof.
  intros grp X ds t.
  apply (C2_substitution_after_landing (fun _ => true) ds
           (new_table grp {[ 0 := X ]}) t plain_backend 5 0 0 1 "2" grp X);
    try (vm_compute; reflexivity); try lia.
Defined.

(* ------------------------------------------------------------------------- *)
(** ** Reading a fresh partition file by file *)

(** C7 fails as stated: after the three files of a partition have been
    read through the direct path, a fourth [Get] for any of them is refused
    with [AlreadyRequested], not with [Exhausted]. *)
Lemma C7_counterexample :
  let grp := one_group 3 1 0 in
  let t := final (init (fun _ => true) (one_group_dataset grp ∅) (new_table grp ∅)) in
  let t1 := final (Get plain_backend 5 "1" t) in
  let t2 := final (Get plain_backend 5 "2" t1) in
  let t3 := final (Get plain_backend 5 "3" t2) in
  Get plain_backend 5 "1" t =
    Done (Some {| fileId := 0; content := "0" |}, CODE_EMPTY, None) t1 /\
  Get plain_backend 5 "2" t1 =
    Done (Some {| fileId := 1; content := "1" |}, CODE_EMPTY, None) t2 /\
  Get plain_backend 5 "3" t2 =
    Done (Some {| fileId := 2; content := "2" |}, CODE_EMPTY, None) t3 /\
  Get plain_backend 5 "1" t3 = Done (None, CODE_EMPTY, Some (AlreadyRequested 0)) t3 /\
  Get plain_backend 5 "2" t3 = Done (None, CODE_EMPTY, Some (AlreadyRequested 1)) t3 /\
  Get plain_backend 5 "3" t3 = Done (None, CODE_EMPTY, Some (AlreadyRequested 2)) t3 /\
  AlreadyRequested 0 ≠ Exhausted 0.
Proof.
  split; [vm_compute; reflexivity|]. split; [vm_compute; reflexivity|].
  split; [vm_compute; reflexivity|]. split; [vm_compute; reflexivity|].
  split; [vm_compute; reflexivity|]. split; [vm_compute; reflexivity|].
  discriminate.
Qed.

Lemma BitMap_Get_Set (b : BitMap) (j id : N) :
  (N.to_nat j < length (bits b))%nat ->
  BitMap_Get (BitMap_Set b j) id = true <-> id = j \/ BitMap_Get b id = true.
Proof.
  intros Hj. destruct (decide (j = id)) as [->|ne].
  - rewrite BitMap_Get_Set_same by done. naive_solver.
  - rewrite BitMap_Get_Set_other by done. naive_solver.
Qed.

Section Direct_reads.

Variable backend : Fetch -> option FileNode * option Error.
Variable grp : Group.
Variable groupId : N.
Variable names : string -> option N.
Variable owner : N -> N.

Lemma fresh_group_read_directly : read_directly grp [] (fresh_group grp).
Proof.
  unfold read_directly, fresh_group. simpl.
  split; [done|]. split; [done|]. split; [done|]. split; [done|].
  split; [done|]. split; [by rewrite length_replicate|]. split; [lia|].
  eexists _, _. split; [done|]. split; [done|]. simpl.
  split; [by rewrite length_replicate|]. split; [by rewrite length_replicate|].
  split; intros id; rewrite BitMap_Get_fresh; split; try done; intros Hin; by apply elem_of_nil in Hin.
Qed.

Lemma read_directly_mark (done : list N) (g : DLTGroup) (rb cb : BitMap) (id : N) :
  read_directly grp done g ->
  readedFilesReal g = Some rb -> readedFilesCache g = Some cb ->
  id < grp_fileNum grp ->
  read_directly grp (id :: done)
    (set_readedFilesReal (Some (BitMap_Set rb id))
       (set_readedFilesCache (Some (BitMap_Set cb id)) g)).
Proof.
  intros (Hl & Hgrp & Hc & Hu & Hidx & Hlen & Hlog & rb' & cb' & Hr & Hcb
          & Hlr & Hlc & Hbr & Hbc) Hr' Hc' Hid.
  rewrite Hr in Hr'. rewrite Hcb in Hc'. simplify_eq.
  unfold read_directly. simpl.
  split; [done|]. split; [done|]. split; [done|]. split; [done|].
  split; [done|]. split; [done|]. split; [lia|].
  eexists _, _. split; [done|]. split; [done|]. simpl.
  rewrite !length_insert. split; [done|]. split; [done|].
  split; intros x; rewrite BitMap_Get_Set by lia; rewrite elem_of_cons;
    [rewrite Hbr|rewrite Hbc]; done.
Qed.

Lemma read_directly_log (done : list N) (g : DLTGroup) (id : N) :
  read_directly grp (id :: done) g ->
  (N.to_nat (readedCachedFileNum g) <= length done)%nat ->
  read_directly grp (id :: done)
    (set_readedCachedFileNum (u32_inc (readedCachedFileNum g))
       (set_readedCachedFiles
          (<[N.to_nat (readedCachedFileNum g) := id]> (readedCachedFiles g)) g)).
Proof.
  intros (Hl & Hgrp & Hc & Hu & Hidx & Hlen & Hlog & Hbits) Hk.
  unfold read_directly. simpl. rewrite length_insert.
  split; [done|]. split; [done|]. split; [done|]. split; [done|].
  split; [done|]. split; [done|]. split; [|done].
  assert (u32_inc (readedCachedFileNum g) <= readedCachedFileNum g + 1).
  { unfold u32_inc. apply N.Div0.mod_le. }
  lia.
Qed.

(** One more file read through the direct path. *)
Lemma direct_step
    (done : list N) (t : DLT) (r : N) (fileName : string) (id : N)
    (node : FileNode) :
  table_read_directly grp groupId names owner done t ->
  names fileName = Some id -> owner id = groupId ->
  id ∉ done -> id < grp_fileNum grp ->
  (length done < N.to_nat (grp_fileNum grp))%nat ->
  (forall req, f_file req = id -> backend req = (Some node, None)) ->
  exists t',
    (exists req tm,
       Get_enter r fileName t = Done (AwaitBackend groupId req) tm /\
       f_file req = id) /\
    Get backend r fileName t = Done (Some node, CODE_EMPTY, None) t' /\
    table_read_directly grp groupId names owner (id :: done) t'.
Proof.
  intros (Hi & Hn & Ho & g & Hg & Hinv) Hname Hown Hnew Hid Hdone Hback.
  pose proof Hinv as (Hl & Hgrp & Hc & Hu & Hidx & Hlen & Hlog & rb & cb & Hr
                      & Hcb & Hlr & Hlc & Hbr & Hbc).
  assert (Hlt : (N.to_nat groupId < length (groups t))%nat)
    by by eapply lookup_lt_Some.
  assert (Hg' : groups t !! N.to_nat (fileIdToGroups (dataset t) id) = Some g)
    by by rewrite Ho, Hown.
  assert (Hrf : BitMap_Get rb id = false).
  { destruct (BitMap_Get rb id) eqn:E; [|done]. by apply Hbr in E. }
  assert (Hcf : BitMap_Get cb id = false).
  { destruct (BitMap_Get cb id) eqn:E; [|done]. by apply Hbc in E. }
  set (g1 := set_readedFilesReal (Some (BitMap_Set rb id))
               (set_readedFilesCache (Some (BitMap_Set cb id)) g)).
  assert (HG : Get_enter_group (ds_cachedFiles (dataset t)) r id g
               = Done (LFetch id) g1).
  { apply Get_enter_group_direct; try done; [lia|].
    rewrite Hidx. apply lookup_replicate_2. lia. }
  assert (Hn' : GetFileId (dataset t) fileName = Some id) by by rewrite Hn.
  pose proof (Get_enter_fetch t r fileName id id g g1 grp Hi Hn' Hg' HG Hgrp)
    as HE.
  rewrite Ho, Hown in HE.
  set (t1 := set_groups (<[N.to_nat groupId := g1]> (groups t)) t) in *.
  assert (Hg1 : groups t1 !! N.to_nat groupId = Some g1)
    by (simpl; by apply list_lookup_insert_eq).
  assert (Hinv1 : read_directly grp (id :: done) g1) by by apply read_directly_mark.
  assert (Hslot : (N.to_nat (readedCachedFileNum g1) < length (readedCachedFiles g1))%nat)
    by (simpl; lia).
  destruct (Get_fetched_cases t1 groupId id node g1 grp Hg1 Hgrp Hslot)
    as (Hadmit & _ & Hskip).
  rewrite (Get_fetching _ _ _ _ _ _ _ HE). simpl f_file.
  rewrite (Hback {| f_dlt := dlt_id t; f_dataset := ds_id (dataset t);
                    f_group := grp_id grp; f_file := id |} eq_refl).
  destruct (N.leb_spec (cachedSize grp) (allowCacheSize grp)) as [Hle|Hgt].
  - eexists. split; [eexists _, _; split; [exact HE|done]|].
    split; [by apply Hadmit|].
    split; [done|]. split; [done|]. split; [done|].
    eexists. split.
    + cbn [groups set_groups set_dataset].
      apply list_lookup_insert_eq. unfold t1. simpl. by rewrite length_insert.
    + apply (read_directly_log done g1 id); [done|]. simpl. lia.
  - exists t1. split; [eexists _, _; split; [exact HE|done]|].
    split; [by apply Hskip|].
    split; [done|]. split; [done|]. split; [done|]. by exists g1.
Qed.

(** Once read, a file is refused. *)
Lemma read_directly_refused
    (done : list N) (t : DLT) (r : N) (fileName : string) (id : N) :
  table_read_directly grp groupId names owner done t ->
  names fileName = Some id -> owner id = groupId -> id ∈ done ->
  Get backend r fileName t =
    Done (None, CODE_EMPTY, Some (AlreadyRequested id)) t.
Proof.
  intros (Hi & Hn & Ho & g & Hg & Hinv) Hname Hown Hin.
  destruct Hinv as (Hl & _ & _ & _ & _ & _ & _ & rb & cb & Hr & _ & _ & _ & Hbr & _).
  apply Get_returned.
  assert (Hg' : groups t !! N.to_nat (fileIdToGroups (dataset t) id) = Some g)
    by by rewrite Ho, Hown.
  assert (Hn' : GetFileId (dataset t) fileName = Some id) by by rewrite Hn.
  rewrite (Get_enter_returned t r fileName id g g
             (None, CODE_EMPTY, Some (ErrReadAgain id)) Hi Hn' Hg').
  - by rewrite set_groups_insert_id.
  - apply Get_enter_group_refused; [done|].
    unfold bit_real. rewrite Hr. by apply Hbr.
Qed.

End Direct_reads.

(** C7, amended.  In a partition of 3 files, after [init] and with no
    producer, three [Get] calls in a row for the three files each take the
    direct path with the file itself as candidate, and each returns the node
    that the backend serves for its file; a fourth [Get] for any of the three
    files is refused with [AlreadyRequested]. *)
Theorem C7_three_direct_reads
    (mem : N -> bool) (ds : Dataset) (t0 t : DLT)
    (backend : Fetch -> option FileNode * option Error)
    (groupId : N) (grp : Group)
    (r1 r2 r3 a b c : N) (n1 n2 n3 : string) (x1 x2 x3 : FileNode) :
  groupNum ds < modulus ->
  init mem ds t0 = Done None t ->
  groupId < groupNum ds ->
  ds_groups ds !! N.to_nat groupId = Some grp ->
  grp_fileNum grp = 3 ->
  a < 3 -> b < 3 -> c < 3 -> a ≠ b -> a ≠ c -> b ≠ c ->
  GetFileId (dataset t0) n1 = Some a ->
  GetFileId (dataset t0) n2 = Some b ->
  GetFileId (dataset t0) n3 = Some c ->
  fileIdToGroups (dataset t0) a = groupId ->
  fileIdToGroups (dataset t0) b = groupId ->
  fileIdToGroups (dataset t0) c = groupId ->
  (forall req, f_file req = a -> backend req = (Some x1, None)) ->
  (forall req, f_file req = b -> backend req = (Some x2, None)) ->
  (forall req, f_file req = c -> backend req = (Some x3, None)) ->
  exists t1 t2 t3,
    (exists req tm, Get_enter r1 n1 t = Done (AwaitBackend groupId req) tm /\
                    f_file req = a) /\
    Get backend r1 n1 t = Done (Some x1, CODE_EMPTY, None) t1 /\
    (exists req tm, Get_enter r2 n2 t1 = Done (AwaitBackend groupId req) tm /\
                    f_file req = b) /\
    Get backend r2 n2 t1 = Done (Some x2, CODE_EMPTY, None) t2 /\
    (exists req tm, Get_enter r3 n3 t2 = Done (AwaitBackend groupId req) tm /\
                    f_file req = c) /\
    Get backend r3 n3 t2 = Done (Some x3, CODE_EMPTY, None) t3 /\
    forall r,
      Get backend r n1 t3 = Done (None, CODE_EMPTY, Some (AlreadyRequested a)) t3 /\
      Get backend r n2 t3 = Done (None, CODE_EMPTY, Some (AlreadyRequested b)) t3 /\
      Get backend r n3 t3 = Done (None, CODE_EMPTY, Some (AlreadyRequested c)) t3.
Proof.
  intros Hn Hinit Hi Hgrp H3 Ha Hb Hc Hab Hac Hbc Hn1 Hn2 Hn3 Ho1 Ho2 Ho3
    Hb1 Hb2 Hb3.
  destruct (init_group_at _ _ _ _ _ _ Hn Hinit Hi Hgrp) as (Hin & Hd & Hg).
  assert (H0 : table_read_directly grp groupId (GetFileId (dataset t0))
                 (fileIdToGroups (dataset t0)) [] t).
  { split; [done|]. rewrite Hd. split; [done|]. split; [done|].
    exists (fresh_group grp). split; [done|]. apply fresh_group_read_directly. }
  destruct (direct_step backend grp groupId _ _ [] t r1 n1 a x1 H0)
    as (t1 & Hp1 & HG1 & H1); try done; [set_solver|lia|simpl; lia|].
  destruct (direct_step backend grp groupId _ _ [a] t1 r2 n2 b x2 H1)
    as (t2 & Hp2 & HG2 & H2); try done; [set_solver|lia|simpl; lia|].
  destruct (direct_step backend grp groupId _ _ [b; a] t2 r3 n3 c x3 H2)
    as (t3 & Hp3 & HG3 & H3'); try done; [set_solver|lia|simpl; lia|].
  exists t1, t2, t3.
  split; [done|]. split; [done|]. split; [done|]. split; [done|].
  split; [done|]. split; [done|].
  intros r. split; [|split].
  - eapply read_directly_refused; [exact H3'|done|done|set_solver].
  - eapply read_directly_refused; [exact H3'|done|done|set_solver].
  - eapply read_directly_refused; [exact H3'|done|done|set_solver].
Qed.

Lemma C7_three_direct_reads_witness :
  let grp := one_group 3 1 0 in
  let ds := one_group_dataset grp ∅ in
  let t := final (init (fun _ => true) ds (new_table grp ∅)) in
  exists t1 t2 t3,
    Get plain_backend 5 "1" t =
      Done (Some {| fileId := 0; content := "0" |}, CODE_EMPTY, None) t1 /\
    Get plain_backend 6 "2" t1 =
      Done (Some {| fileId := 1; content := "1" |}, CODE_EMPTY, None) t2 /\
    Get plain_backend 7 "3" t2 =
      Done (Some {| fileId := 2; content := "2" |}, CODE_EMPTY, None) t3 /\
    Get plain_backend 8 "2" t3 =
      Done (None, CODE_EMPTY, Some (AlreadyRequested 1)) t3.
Proof.
  intros grp ds t.
  destruct (C7_three_direct_reads (fun _ => true) ds (new_table grp ∅) t
              plain_backend 0 grp 5 6 7 0 1 2 "1" "2" "3"
              {| fileId := 0; content := "0" |}
              {| fileId := 1; content := "1" |}
              {| fileId := 2; content := "2" |})
    as (t1 & t2 & t3 & _ & H1 & _ & H2 & _ & H3 & H4);
    [ vm_compute; reflexivity | vm_compute; reflexivity | vm_compute; reflexivity
    | vm_compute; reflexivity | reflexivity
    | lia | lia | lia | lia | lia | lia
    | vm_compute; reflexivity | vm_compute; reflexivity | vm_compute; reflexivity
    | reflexivity | reflexivity | reflexivity
    | intros [? ? ? ?] Hf; simpl in Hf; subst; reflexivity
    | intros [? ? ? ?] Hf; simpl in Hf; subst; reflexivity
    | intros [? ? ? ?] Hf; simpl in Hf; subst; reflexivity
    | ].
  exists t1, t2, t3. split; [done|]. split; [done|]. split; [done|].
  apply (H4 8).
Defined.

(* ------------------------------------------------------------------------- *)
(** ** Dense index sets *)

Lemma pool_remove_wf (p : Pool) (i id : N) :
  pool_wf p -> i < p_num p -> p_files p !! N.to_nat i = Some id ->
  pool_wf (pool_remove p i id) /\
  p_num (pool_remove p i id) = p_num p - 1 /\
  pool_member (pool_remove p i id) id = false /\
  (forall x, x ≠ id -> pool_member (pool_remove p i id) x = pool_member p x).
Proof.
  intros (Hle & Hmod & Hfi & Hif) Hi Hid.
  destruct p as [files idx n]. simpl in *.
  assert (Hidx_id : idx !! N.to_nat id = Some (i + 1)) by by apply Hfi.
  assert (Hin_id : (N.to_nat id < length idx)%nat) by by eapply lookup_lt_Some.
  assert (Hlast : exists L, files !! N.to_nat (n - 1) = Some L).
  { apply lookup_lt_is_Some. lia. }
  destruct Hlast as [L HL].
  assert (HidxL : idx !! N.to_nat L = Some n).
  { rewrite (Hfi (n - 1) L) by (lia || done). f_equal. lia. }
  assert (HinL : (N.to_nat L < length idx)%nat) by by eapply lookup_lt_Some.
  unfold pool_remove. simpl. rewrite HL. simpl.
  destruct (N.eqb_spec i (n - 1)) as [->|Hne].
  - (* the last slot *)
    assert (L = id) by congruence. subst L.
    split; [|split; [done|split]].
    + unfold pool_wf. simpl. split; [lia|]. split; [done|]. split.
      * intros j x Hj Hx.
        assert (Hjx : idx !! N.to_nat x = Some (j + 1)) by (apply Hfi; [lia|done]).
        rewrite list_lookup_insert_ne; [done|].
        intros e. apply N2Nat.inj in e. subst x. rewrite Hidx_id in Hjx.
        injection Hjx. lia.
      * intros x v Hx Hv.
        destruct (decide (x = id)) as [->|Hxid].
        { rewrite list_lookup_insert_eq in Hx by done. congruence. }
        rewrite list_lookup_insert_ne in Hx by lia.
        destruct (Hif x v Hx Hv) as [Hvn Hfx]. split; [|done].
        assert (v ≠ n); [|lia]. intros ->. congruence.
    + unfold pool_member. simpl. by rewrite list_lookup_insert_eq.
    + intros x Hx. unfold pool_member. simpl.
      by rewrite list_lookup_insert_ne by lia.
  - (* an inner slot: the last member moves *)
    assert (HLid : L ≠ id).
    { intros ->. rewrite Hidx_id in HidxL. injection HidxL. lia. }
    split; [|split; [done|split]].
    + unfold pool_wf. simpl. rewrite length_insert.
      split; [lia|]. split; [done|]. split.
      * intros j x Hj Hx.
        destruct (decide (j = i)) as [->|Hji].
        { rewrite list_lookup_insert_eq in Hx by lia. injection Hx as <-.
          rewrite list_lookup_insert_ne by lia.
          by rewrite list_lookup_insert_eq. }
        rewrite list_lookup_insert_ne in Hx by lia.
        assert (Hjx : idx !! N.to_nat x = Some (j + 1)) by (apply Hfi; [lia|done]).
        assert (x ≠ id).
        { intros ->. rewrite Hidx_id in Hjx. injection Hjx. lia. }
        assert (x ≠ L).
        { intros ->. rewrite HidxL in Hjx. injection Hjx. lia. }
        by rewrite !list_lookup_insert_ne by lia.
      * intros x v Hx Hv.
        destruct (decide (x = id)) as [->|Hxid].
        { rewrite list_lookup_insert_eq in Hx by (by rewrite length_insert).
          congruence. }
        rewrite list_lookup_insert_ne in Hx by lia.
        destruct (decide (x = L)) as [->|HxL].
        { rewrite list_lookup_insert_eq in Hx by done. injection Hx as <-.
          split; [lia|]. replace (i + 1 - 1) with i by lia.
          apply list_lookup_insert_eq. lia. }
        rewrite list_lookup_insert_ne in Hx by lia.
        destruct (Hif x v Hx Hv) as [Hvn Hfx].
        assert (v ≠ n) by (intros ->; congruence).
        assert (v - 1 ≠ i).
        { intros e. rewrite e in Hfx. congruence. }
        split; [lia|]. by rewrite list_lookup_insert_ne by lia.
    + unfold pool_member. simpl.
      by rewrite list_lookup_insert_eq by (by rewrite length_insert).
    + intros x Hx. unfold pool_member. simpl.
      rewrite list_lookup_insert_ne by lia.
      destruct (decide (x = L)) as [->|HxL].
      * rewrite list_lookup_insert_eq by done. rewrite HidxL.
        destruct (N.eqb_spec (i + 1) 0); [lia|].
        destruct (N.eqb_spec n 0); [lia|done].
      * by rewrite list_lookup_insert_ne by lia.
Qed.

Lemma pool_insert_wf (p : Pool) (id : N) :
  pool_wf p -> p_index p !! N.to_nat id = Some 0 ->
  p_num p < N.of_nat (length (p_files p)) ->
  pool_wf (pool_insert p id) /\
  pool_member (pool_insert p id) id = true /\
  (forall x, x ≠ id -> pool_member (pool_insert p id) x = pool_member p x).
Proof.
  intros (Hle & Hmod & Hfi & Hif) Hid Hlt.
  destruct p as [files idx n]. simpl in *.
  assert (Hin_id : (N.to_nat id < length idx)%nat) by by eapply lookup_lt_Some.
  split; [|split].
  - unfold pool_wf, pool_insert. simpl. rewrite length_insert.
    split; [lia|]. split; [done|]. split.
    + intros j x Hj Hx.
      destruct (decide (j = n)) as [->|Hjn].
      { rewrite list_lookup_insert_eq in Hx by lia. injection Hx as <-.
        by rewrite list_lookup_insert_eq. }
      rewrite list_lookup_insert_ne in Hx by lia.
      assert (Hjx : idx !! N.to_nat x = Some (j + 1)) by (apply Hfi; [lia|done]).
      assert (x ≠ id).
      { intros ->. rewrite Hid in Hjx. injection Hjx. lia. }
      by rewrite list_lookup_insert_ne by lia.
    + intros x v Hx Hv.
      destruct (decide (x = id)) as [->|Hxid].
      { rewrite list_lookup_insert_eq in Hx by done. injection Hx as <-.
        split; [lia|]. replace (n + 1 - 1) with n by lia.
        apply list_lookup_insert_eq. lia. }
      rewrite list_lookup_insert_ne in Hx by lia.
      destruct (Hif x v Hx Hv) as [Hvn Hfx].
      split; [lia|]. by rewrite list_lookup_insert_ne by lia.
  - unfold pool_member, pool_insert. simpl.
    rewrite list_lookup_insert_eq by done.
    destruct (N.eqb_spec (n + 1) 0); [lia|done].
  - intros x Hx. unfold pool_member, pool_insert. simpl.
    by rewrite list_lookup_insert_ne by lia.
Qed.

Lemma pool_wfb_correct (p : Pool) : pool_wfb p = true -> pool_wf p.
Proof.
  unfold pool_wfb. rewrite !andb_true_iff, !forallb_forall.
  intros [[[H1 H2] H3] H4].
  apply N.leb_le in H1. apply N.ltb_lt in H2.
  split; [done|]. split; [done|]. split.
  - intros i id Hi Hid. specialize (H3 (N.to_nat i)).
    rewrite Hid, N2Nat.id in H3. eapply bool_decide_eq_true_1, H3.
    apply in_seq. lia.
  - intros id v Hv Hv0. specialize (H4 (N.to_nat id)).
    rewrite Hv, N2Nat.id in H4.
    assert (Hin : In (N.to_nat id) (seq 0 (length (p_index p)))).
    { apply in_seq. apply lookup_lt_Some in Hv. lia. }
    apply H4 in Hin. apply orb_true_iff in Hin as [Hin|Hin].
    + apply N.eqb_eq in Hin. done.
    + apply andb_true_iff in Hin as [Ha Hb]. apply N.leb_le in Ha.
      by apply bool_decide_eq_true_1 in Hb.
Qed.

Lemma ltb_nat_true (a b : nat) : (a < b)%nat -> (a <? b)%nat = true.
Proof. apply Nat.ltb_lt. Qed.

Lemma markCachedFileReaded_remove (g : DLTGroup) (fileId index : N) :
  pool_wf (cached_pool g) -> index < cachedFileNum g ->
  cachedFiles g !! N.to_nat index = Some fileId ->
  (N.to_nat (readedCachedFileNum g) < length (readedCachedFiles g))%nat ->
  exists g',
    markCachedFileReaded fileId index g = Done tt g' /\
    cached_pool g' = pool_remove (cached_pool g) index fileId /\
    unread_pool g' = unread_pool g /\
    readedCachedFiles g' =
      <[N.to_nat (readedCachedFileNum g) := fileId]> (readedCachedFiles g) /\
    readedCachedFileNum g' = u32_inc (readedCachedFileNum g) /\
    readedFilesReal g' = readedFilesReal g /\
    readedFilesCache g' = readedFilesCache g /\
    prereadFileNum g' = prereadFileNum g /\
    lock g' = lock g /\ cond g' = cond g /\ hasWiated g' = hasWiated g /\
    group g' = group g.
Proof.
  intros Hwf Hi Hid Hlog.
  pose proof Hwf as (Hle & Hmod & Hfi & Hif).
  destruct g. unfold cached_pool in *. simpl in *.
  assert (Hidx_id : cacheedFilesCache0 !! N.to_nat fileId = Some (index + 1))
    by by apply Hfi.
  assert (Hlast : exists L, cachedFiles0 !! N.to_nat (cachedFileNum0 - 1) = Some L).
  { apply lookup_lt_is_Some. lia. }
  destruct Hlast as [L HL].
  assert (HidxL : cacheedFilesCache0 !! N.to_nat L = Some cachedFileNum0).
  { rewrite (Hfi (cachedFileNum0 - 1) L) by (lia || done). f_equal. lia. }
  apply lookup_lt_Some in Hidx_id as Hin_id.
  apply lookup_lt_Some in HidxL as HinL.
  unfold markCachedFileReaded, pool_remove. unfold_monad. simpl.
  rewrite (ltb_nat_true _ _ Hlog). simpl.
  rewrite u32_dec_pos by lia. rewrite HL. simpl.
  destruct (N.eqb_spec index (cachedFileNum0 - 1)) as [->|Hne]; simpl.
  - rewrite (ltb_nat_true _ _ Hin_id). simpl.
    rewrite u32_dec_pos by lia. eexists. repeat (split; [reflexivity|]). reflexivity.
  - assert (Hlt : (N.to_nat index < length cachedFiles0)%nat) by lia.
    rewrite HL. simpl. rewrite (ltb_nat_true _ _ Hlt). simpl.
    rewrite list_lookup_insert_ne by lia. rewrite HL. simpl.
    rewrite (ltb_nat_true _ _ HinL). simpl.
    rewrite length_insert. rewrite (ltb_nat_true _ _ Hin_id). simpl.
    rewrite !u32_dec_pos by lia. rewrite u32_inc_small by lia.
    eexists. repeat (split; [reflexivity|]). reflexivity.
Qed.

Lemma markCachedFileReaded_log_full (g : DLTGroup) (fileId index : N) :
  (length (readedCachedFiles g) <= N.to_nat (readedCachedFileNum g))%nat ->
  markCachedFileReaded fileId index g = Crash IndexOutOfRange g.
Proof.
  intros H. unfold markCachedFileReaded. unfold_monad.
  apply Nat.ltb_ge in H. by rewrite H.
Qed.

Lemma cache_member_pool (g : DLTGroup) (id : N) :
  cache_member g id = pool_member (cached_pool g) id.
Proof. reflexivity. Qed.

Lemma unread_member_pool (g : DLTGroup) (id : N) :
  unread_member g id = pool_member (unread_pool g) id.
Proof. reflexivity. Qed.

Lemma pool_wf_member (p : Pool) (i id : N) :
  pool_wf p -> i < p_num p -> p_files p !! N.to_nat i = Some id ->
  pool_member p id = true.
Proof.
  intros (_ & _ & Hfi & _) Hi Hid. unfold pool_member.
  rewrite (Hfi i id Hi Hid). destruct (N.eqb_spec (i + 1) 0); [lia|done].
Qed.

(** A draw from a consistent, non-empty cache pool returns: the id drawn is
    the member in slot [r mod cachedFileNum]; it leaves the pool, which stays
    consistent and keeps its other members; and the id is appended to the
    log of consumed files.  The log has a free slot. *)
Theorem getRandomCachedFile_draws_member (g : DLTGroup) (r : N) :
  pool_wf (cached_pool g) -> 0 < cachedFileNum g ->
  (N.to_nat (readedCachedFileNum g) < length (readedCachedFiles g))%nat ->
  exists id g',
    getRandomCachedFile r g = Done (id, true) g' /\
    cachedFiles g !! N.to_nat (r mod cachedFileNum g) = Some id /\
    cache_member g id = true /\
    pool_wf (cached_pool g') /\
    cachedFileNum g' = cachedFileNum g - 1 /\
    cache_member g' id = false /\
    (forall x, x ≠ id -> cache_member g' x = cache_member g x) /\
    readedCachedFiles g' !! N.to_nat (readedCachedFileNum g) = Some id /\
    readedCachedFileNum g' = u32_inc (readedCachedFileNum g) /\
    unread_pool g' = unread_pool g.
Proof.
  intros Hwf Hpos Hlog.
  assert (Hr : r mod cachedFileNum g < cachedFileNum g) by (apply N.mod_lt; lia).
  assert (Hid : exists id, cachedFiles g !! N.to_nat (r mod cachedFileNum g) = Some id).
  { apply lookup_lt_is_Some. destruct Hwf as (Hle & _). simpl in Hle. lia. }
  destruct Hid as [id Hid].
  destruct (markCachedFileReaded_remove g id _ Hwf Hr Hid Hlog)
    as (g' & Hrun & Hpool & Hun & Hlogs & Hnum & _).
  destruct (pool_remove_wf (cached_pool g) _ id Hwf Hr Hid)
    as (Hwf' & Hn' & Hout & Hothers).
  exists id, g'. rewrite !cache_member_pool, Hpool.
  split.
  { unfold getRandomCachedFile, bind, gets, slice_get, ret.
    destruct (N.eqb_spec (cachedFileNum g) 0); [lia|].
    by rewrite Hid, Hrun. }
  split; [done|]. split; [by apply (pool_wf_member (cached_pool g) _ id Hwf Hr)|].
  split; [done|]. split.
  { change (p_num (cached_pool g') = p_num (cached_pool g) - 1).
    by rewrite Hpool. }
  split; [done|]. split.
  { intros x Hx. rewrite !cache_member_pool, Hpool. by apply Hothers. }
  split; [|done]. rewrite Hlogs. by apply list_lookup_insert_eq.
Qed.

Lemma getRandomCachedFile_draws_member_witness :
  let g := final (addFileToCache {| fileId := 1; content := "b" |}
             (final (addFileToCache {| fileId := 2; content := "c" |}
                (fresh_group (one_group 3 1 0))))) in
  exists id g',
    getRandomCachedFile 4 g = Done (id, true) g' /\
    cachedFiles g !! N.to_nat (4 mod cachedFileNum g) = Some id /\
    cache_member g id = true /\
    pool_wf (cached_pool g') /\
    cachedFileNum g' = cachedFileNum g - 1 /\
    cache_member g' id = false /\
    (forall x, x ≠ id -> cache_member g' x = cache_member g x) /\
    readedCachedFiles g' !! N.to_nat (readedCachedFileNum g) = Some id /\
    readedCachedFileNum g' = u32_inc (readedCachedFileNum g) /\
    unread_pool g' = unread_pool g.
Proof.
  apply getRandomCachedFile_draws_member.
  - apply pool_wfb_correct. vm_compute. reflexivity.
  - vm_compute. reflexivity.
  - vm_compute. lia.
Defined.

Lemma getRandomUnreadedFile_remove (g : DLTGroup) (r fileId : N) :
  pool_wf (unread_pool g) -> 0 < unreadFileNum g ->
  unreadFiles g !! N.to_nat (r mod unreadFileNum g) = Some fileId ->
  exists g',
    getRandomUnreadedFile r g = Done (fileId, true) g' /\
    unread_pool g' = pool_remove (unread_pool g) (r mod unreadFileNum g) fileId /\
    cached_pool g' = cached_pool g /\
    readedCachedFiles g' = readedCachedFiles g /\
    readedCachedFileNum g' = readedCachedFileNum g /\
    readedFilesReal g' = readedFilesReal g /\
    readedFilesCache g' = readedFilesCache g /\
    prereadFileNum g' = prereadFileNum g /\
    lock g' = lock g /\ cond g' = cond g /\ hasWiated g' = hasWiated g /\
    group g' = group g.
Proof.
  intros Hwf Hpos Hid.
  pose proof Hwf as (Hle & Hmod & Hfi & Hif).
  assert (Hi : r mod unreadFileNum g < unreadFileNum g) by (apply N.mod_lt; lia).
  destruct g. unfold unread_pool in *. simpl in *.
  unfold getRandomUnreadedFile, pool_remove. unfold_monad. simpl.
  set (index := r mod unreadFileNum0) in *. clearbody index.
  assert (Hidx_id : unreadFilesIndexs0 !! N.to_nat fileId = Some (index + 1))
    by by apply Hfi.
  assert (Hlast : exists L, unreadFiles0 !! N.to_nat (unreadFileNum0 - 1) = Some L).
  { apply lookup_lt_is_Some. lia. }
  destruct Hlast as [L HL].
  assert (HidxL : unreadFilesIndexs0 !! N.to_nat L = Some unreadFileNum0).
  { rewrite (Hfi (unreadFileNum0 - 1) L) by (lia || done). f_equal. lia. }
  apply lookup_lt_Some in Hidx_id as Hin_id.
  apply lookup_lt_Some in HidxL as HinL.
  destruct (N.eqb_spec unreadFileNum0 0); [lia|].
  simpl. rewrite Hid. simpl. rewrite u32_dec_pos by lia. rewrite HL. simpl.
  destruct (N.eqb_spec index (unreadFileNum0 - 1)) as [->|Hne]; simpl.
  - rewrite (ltb_nat_true _ _ Hin_id). simpl.
    rewrite u32_dec_pos by lia. eexists. repeat (split; [reflexivity|]). reflexivity.
  - assert (Hlt : (N.to_nat index < length unreadFiles0)%nat) by lia.
    rewrite HL. simpl. rewrite (ltb_nat_true _ _ Hlt). simpl.
    rewrite list_lookup_insert_ne by lia. rewrite HL. simpl.
    rewrite (ltb_nat_true _ _ HinL). simpl.
    rewrite length_insert. rewrite (ltb_nat_true _ _ Hin_id). simpl.
    rewrite !u32_dec_pos by lia. rewrite u32_inc_small by lia.
    eexists. repeat (split; [reflexivity|]). reflexivity.
Qed.

(** A draw from a consistent unread pool returns.  From an empty pool it
    returns [(0, false)] and changes nothing; otherwise the id drawn is the
    member in slot [r mod unreadFileNum]; it leaves the pool, which stays
    consistent and keeps its other members; nothing else changes. *)
Theorem getRandomUnreadedFile_draws_member (g : DLTGroup) (r : N) :
  pool_wf (unread_pool g) ->
  exists id ok g',
    getRandomUnreadedFile r g = Done (id, ok) g' /\
    if unreadFileNum g =? 0 then id = 0 /\ ok = false /\ g' = g
    else
      ok = true /\
      unreadFiles g !! N.to_nat (r mod unreadFileNum g) = Some id /\
      unread_member g id = true /\
      pool_wf (unread_pool g') /\
      unreadFileNum g' = unreadFileNum g - 1 /\
      unread_member g' id = false /\
      (forall x, x ≠ id -> unread_member g' x = unread_member g x) /\
      cached_pool g' = cached_pool g /\
      readedFilesReal g' = readedFilesReal g /\
      readedFilesCache g' = readedFilesCache g /\
      prereadFileNum g' = prereadFileNum g.
Proof.
  intros Hwf. destruct (N.eqb_spec (unreadFileNum g) 0) as [Hz|Hnz].
  { exists 0, false, g. split; [|done].
    unfold getRandomUnreadedFile, bind, gets. by rewrite Hz. }
  assert (Hr : r mod unreadFileNum g < unreadFileNum g) by (apply N.mod_lt; lia).
  assert (Hid : exists id, unreadFiles g !! N.to_nat (r mod unreadFileNum g) = Some id).
  { apply lookup_lt_is_Some. destruct Hwf as (Hle & _). simpl in Hle. lia. }
  destruct Hid as [id Hid].
  destruct (getRandomUnreadedFile_remove g r id Hwf ltac:(lia) Hid)
    as (g' & Hrun & Hpool & Hc & _ & _ & Hrb & Hcb & Hpre & _).
  destruct (pool_remove_wf (unread_pool g) _ id Hwf Hr Hid)
    as (Hwf' & Hn' & Hout & Hothers).
  exists id, true, g'. split; [done|]. split; [done|]. split; [done|].
  split; [by apply (pool_wf_member (unread_pool g) _ id Hwf Hr)|].
  split; [by rewrite Hpool|]. split.
  { change (p_num (unread_pool g') = p_num (unread_pool g) - 1).
    by rewrite Hpool. }
  split; [by rewrite unread_member_pool, Hpool|]. split; [|done].
  intros x Hx. rewrite !unread_member_pool, Hpool. by apply Hothers.
Qed.

Lemma getRandomUnreadedFile_draws_member_witness :
  let g := final (addUnreadedFile 1 (final (addUnreadedFile 2
             (set_unreadFileNum 0 (fresh_group (one_group 3 1 0)))))) in
  pool_wf (unread_pool g) /\
  exists id ok g',
    getRandomUnreadedFile 5 g = Done (id, ok) g' /\
    if unreadFileNum g =? 0 then id = 0 /\ ok = false /\ g' = g
    else
      ok = true /\
      unreadFiles g !! N.to_nat (5 mod unreadFileNum g) = Some id /\
      unread_member g id = true /\
      pool_wf (unread_pool g') /\
      unreadFileNum g' = unreadFileNum g - 1 /\
      unread_member g' id = false /\
      (forall x, x ≠ id -> unread_member g' x = unread_member g x) /\
      cached_pool g' = cached_pool g /\
      readedFilesReal g' = readedFilesReal g /\
      readedFilesCache g' = readedFilesCache g /\
      prereadFileNum g' = prereadFileNum g.
Proof.
  assert (H : pool_wf (unread_pool (final (addUnreadedFile 1 (final
            (addUnreadedFile 2
               (set_unreadFileNum 0 (fresh_group (one_group 3 1 0)))))))))
    by (apply pool_wfb_correct; vm_compute; reflexivity).
  split; [exact H|].
  apply getRandomUnreadedFile_draws_member. exact H.
Defined.

(* ------------------------------------------------------------------------- *)
(** ** What an atomic step does to the groups *)

Lemma groups_on_group {A} (gid : N) (m : M DLTGroup A) (t : DLT) :
  groups (final (on_group gid m t)) =
    match groups t !! N.to_nat gid with
    | Some g => <[N.to_nat gid := final (m g)]> (groups t)
    | None => groups t
    end.
Proof.
  unfold on_group. destruct (groups t !! N.to_nat gid) as [g|]; [|done].
  by destruct (m g).
Qed.

(** The second section of [Get] leaves the groups as they are, or runs
    [Get_fetched_group] on its group. *)
Lemma Get_fetched_groups (gid tempId : N)
    (fetched : option FileNode * option Error) (t : DLT) :
  groups (final (Get_fetched gid tempId fetched t)) = groups t \/
  exists g, groups t !! N.to_nat gid = Some g /\
    groups (final (Get_fetched gid tempId fetched t)) =
      <[N.to_nat gid := final (Get_fetched_group tempId g)]> (groups t).
Proof.
  remember (groups (final (Get_fetched gid tempId fetched t))) as G eqn:HG.
  unfold Get_fetched in HG. destruct fetched as [node [e|]]; [by left|].
  unfold bind at 1 in HG. unfold on_group at 1 in HG.
  destruct (groups t !! N.to_nat gid) as [g|] eqn:E; [|by left].
  assert (Hlt : (N.to_nat gid < length (groups t))%nat) by by eapply lookup_lt_Some.
  unfold deref_group in HG.
  destruct (group g) as [grp|];
    [|left; subst G; simpl; by apply list_insert_id].
  rewrite (list_insert_id _ _ _ E), set_groups_id in HG.
  destruct (cachedSize grp <=? allowCacheSize grp); [|by left].
  right. exists g. split; [done|].
  unfold bind at 1 in HG. rewrite (on_group_at _ _ _ _ E) in HG.
  unfold Get_fetched_group, bind at 1. unfold Lock in *.
  destruct (lock g) eqn:El; simpl in *; [done|].
  subst G. unfold deferred_Unlock_at, store_cachedFile, on_panic_Unlock, Unlock.
  unfold_monad. unfold on_group. simpl.
  rewrite list_lookup_insert_eq by done. simpl.
  destruct (N.to_nat (readedCachedFileNum g) <? length (readedCachedFiles g))%nat;
    simpl; rewrite ?list_insert_insert_eq, ?list_lookup_insert_eq by done;
    simpl; by rewrite ?list_insert_insert_eq.
Qed.

Section Every_group.

Variable P : N -> DLTGroup -> Prop.

Lemma all_groups_insert (t : DLT) (gid : N) (g : DLTGroup) :
  all_groups P t -> P gid g ->
  forall gid' g', <[N.to_nat gid := g]> (groups t) !! N.to_nat gid' = Some g' ->
                  P gid' g'.
Proof.
  intros Ht Hg gid' g' Hl.
  destruct (decide (gid' = gid)) as [->|Hne].
  - apply list_lookup_insert_Some in Hl as [(_ & <- & _)|(? & _)]; done.
  - rewrite list_lookup_insert_ne in Hl by lia. by apply Ht.
Qed.

Lemma all_groups_on_group {A} (gid : N) (m : M DLTGroup A) :
  preserves (P gid) m -> preserves (all_groups P) (on_group gid m).
Proof.
  intros Hm t Ht gid' g'. rewrite groups_on_group.
  destruct (groups t !! N.to_nat gid) as [g|] eqn:E; [|apply Ht].
  apply all_groups_insert; [done|]. apply Hm. by apply Ht.
Qed.

Hypothesis H_enter : forall gid cache r fileId,
  preserves (P gid) (Get_enter_group cache r fileId).
Hypothesis H_fetched : forall gid tempId,
  preserves (P gid) (Get_fetched_group tempId).
Hypothesis H_woken : forall gid cache r fileId,
  preserves (P gid) (Get_woken_group cache r fileId).
Hypothesis H_addUnreadedFile : forall gid fileId,
  preserves (P gid) (addUnreadedFile fileId).
Hypothesis H_addFileToCache : forall gid node,
  preserves (P gid) (addFileToCache node).

Lemma all_groups_Get_enter (r : N) (fileName : string) :
  preserves (all_groups P) (Get_enter r fileName).
Proof.
  intros t Ht. unfold Get_enter.
  destruct (negb (inited t)); [done|].
  destruct (GetFileId (dataset t) fileName) as [fileId|]; [|done].
  generalize (fileIdToGroups (dataset t) fileId), (ds_cachedFiles (dataset t)),
    (dlt_id t), (ds_id (dataset t)).
  intros gid cache did dsid. revert t Ht. apply preserves_bind.
  - apply all_groups_on_group. apply H_enter.
  - intros []; [apply preserves_ret| |apply preserves_ret].
    apply preserves_bind; [|intros ?; apply preserves_ret].
    apply all_groups_on_group. intros g Hg. unfold deref_group.
    by destruct (group g).
Qed.

Lemma all_groups_Get_fetched (gid tempId : N)
    (fetched : option FileNode * option Error) :
  preserves (all_groups P) (Get_fetched gid tempId fetched).
Proof.
  intros t Ht gid' g'.
  destruct (Get_fetched_groups gid tempId fetched t) as [->|(g & Hg & ->)];
    [apply Ht|].
  apply all_groups_insert; [done|]. apply H_fetched. by apply Ht.
Qed.

Lemma all_groups_Get_woken (r gid fileId : N) :
  preserves (all_groups P) (Get_woken r gid fileId).
Proof.
  intros t. unfold Get_woken.
  generalize (ds_cachedFiles (dataset t)). intros cache. revert t.
  apply all_groups_on_group. apply H_woken.
Qed.

Lemma all_groups_act (a : Action) (t : DLT) :
  all_groups P t -> all_groups P (act a t).
Proof.
  destruct a; simpl.
  - apply all_groups_Get_enter.
  - apply all_groups_Get_fetched.
  - apply all_groups_Get_woken.
  - apply all_groups_on_group. apply H_addUnreadedFile.
  - apply all_groups_on_group. apply H_addFileToCache.
Qed.

Lemma all_groups_run (acts : list Action) (t : DLT) :
  all_groups P t -> all_groups P (run acts t).
Proof.
  revert t. induction acts as [|a acts IH]; intros t Ht; simpl; [done|].
  apply IH. by apply all_groups_act.
Qed.

End Every_group.

(* ------------------------------------------------------------------------- *)
(** ** Properties that depend on the cache pool *)

(** A property of a group that is kept by every write outside the cache pool
    and by the choice of a cached file is kept by the sections of [Get] and
    by [addUnreadedFile]. *)
Section Group_preservation_pick.

Variable P : DLTGroup -> Prop.

Hypothesis P_lock : forall v g, P g -> P (set_lock v g).
Hypothesis P_cond : forall v g, P g -> P (set_cond v g).
Hypothesis P_hasWiated : forall v g, P g -> P (set_hasWiated v g).
Hypothesis P_unreadFileNum : forall v g, P g -> P (set_unreadFileNum v g).
Hypothesis P_unreadFilesIndexs : forall i v g,
  P g -> P (set_unreadFilesIndexs (<[i := v]> (unreadFilesIndexs g)) g).
Hypothesis P_unreadFiles : forall i v g,
  P g -> P (set_unreadFiles (<[i := v]> (unreadFiles g)) g).
Hypothesis P_readedCachedFileNum : forall v g,
  P g -> P (set_readedCachedFileNum v g).
Hypothesis P_readedCachedFiles : forall i v g,
  P g -> P (set_readedCachedFiles (<[i := v]> (readedCachedFiles g)) g).
Hypothesis P_prereadFileNum : forall v g, P g -> P (set_prereadFileNum v g).
Hypothesis P_real : forall id b g,
  P g -> readedFilesReal g = Some b ->
  P (set_readedFilesReal (Some (BitMap_Set b id)) g).
Hypothesis P_cache : forall id b g,
  P g -> readedFilesCache g = Some b ->
  P (set_readedFilesCache (Some (BitMap_Set b id)) g).
Hypothesis P_pick : forall r fileId, preserves P (pickCachedFile r fileId).

Lemma pick_getFileFromCache (cache : gmap N FileNode) (r fileId : N) :
  preserves P (getFileFromCache cache r fileId).
Proof. unfold getFileFromCache. pres; auto. Qed.

Lemma pick_Get_locked (cache : gmap N FileNode) (r fileId : N) :
  preserves P (Get_locked cache r fileId).
Proof.
  unfold Get_locked.
  pose proof (preserves_real_Get P). pose proof (preserves_real_Set P P_real).
  pose proof (preserves_cache_Get P). pose proof (preserves_cache_Set P P_cache).
  pose proof pick_getFileFromCache.
  pose proof (preserves_getRandomUnreadedFile P P_unreadFileNum
                P_unreadFilesIndexs P_unreadFiles).
  pose proof (preserves_Get_removeUnread P P_unreadFileNum
                P_unreadFilesIndexs P_unreadFiles).
  pres; auto.
Qed.

Lemma pick_Get_enter_group (cache : gmap N FileNode) (r fileId : N) :
  preserves P (Get_enter_group cache r fileId).
Proof.
  unfold Get_enter_group.
  apply preserves_bind; [by apply preserves_Lock|intros _].
  apply preserves_on_panic_Unlock; [done|].
  pose proof pick_Get_locked. pose proof (preserves_Unlock P P_lock).
  pose proof (preserves_Wait_park P P_lock P_cond). pres; auto.
Qed.

Lemma pick_Get_fetched_group (tempId : N) :
  preserves P (Get_fetched_group tempId).
Proof.
  unfold Get_fetched_group.
  apply preserves_bind; [by apply preserves_Lock|intros _].
  apply preserves_on_panic_Unlock; [done|].
  pose proof (preserves_Unlock P P_lock). pres; auto.
Qed.

Lemma pick_Get_woken_group (cache : gmap N FileNode) (r fileId : N) :
  preserves P (Get_woken_group cache r fileId).
Proof.
  unfold Get_woken_group.
  apply preserves_bind; [by apply preserves_Wait_resume|intros _].
  apply preserves_on_panic_Unlock; [done|].
  unfold Get_relocked.
  pose proof (preserves_real_Set P P_real).
  pose proof (preserves_cache_Set P P_cache).
  pose proof pick_getFileFromCache. pose proof (preserves_Unlock P P_lock).
  pres; auto.
Qed.

Lemma pick_addUnreadedFile (fileId : N) :
  preserves P (addUnreadedFile fileId).
Proof. by apply preserves_addUnreadedFile. Qed.

End Group_preservation_pick.

(* ------------------------------------------------------------------------- *)
(** ** The cache pool stays consistent *)

Lemma markCachedFileReaded_final_wf (g : DLTGroup) (fileId index : N) :
  pool_wf (cached_pool g) -> index < cachedFileNum g ->
  cachedFiles g !! N.to_nat index = Some fileId ->
  pool_wf (cached_pool (final (markCachedFileReaded fileId index g))).
Proof.
  intros Hwf Hi Hid.
  destruct (decide (N.to_nat (readedCachedFileNum g)
                    < length (readedCachedFiles g))%nat) as [Hlog|Hlog].
  - destruct (markCachedFileReaded_remove g fileId index Hwf Hi Hid Hlog)
      as (g' & Hrun & Hpool & _).
    rewrite Hrun. simpl. rewrite Hpool. by apply pool_remove_wf.
  - rewrite markCachedFileReaded_log_full by lia. done.
Qed.

Lemma getRandomCachedFile_final_wf (g : DLTGroup) (r : N) :
  pool_wf (cached_pool g) ->
  pool_wf (cached_pool (final (getRandomCachedFile r g))).
Proof.
  intros Hwf. unfold getRandomCachedFile, bind, gets, slice_get.
  destruct (N.eqb_spec (cachedFileNum g) 0) as [|Hn]; [done|].
  assert (Hr : r mod cachedFileNum g < cachedFileNum g) by (apply N.mod_lt; lia).
  destruct (cachedFiles g !! N.to_nat (r mod cachedFileNum g)) as [id|] eqn:Hid;
    [|done].
  pose proof (markCachedFileReaded_final_wf g id _ Hwf Hr Hid) as H.
  by destruct (markCachedFileReaded id (r mod cachedFileNum g) g).
Qed.

Lemma pickCachedFile_final_wf (r fileId : N) :
  preserves (fun g => pool_wf (cached_pool g)) (pickCachedFile r fileId).
Proof.
  intros g Hwf.
  assert (Hrand : pool_wf (cached_pool (final
            ((p <~ getRandomCachedFile r ;;
              if snd p then ret (inl (fst p))
              else ret (inr ErrCantGetCachedFile) : M DLTGroup (N + Error)) g)))).
  { pose proof (getRandomCachedFile_final_wf g r Hwf) as H. unfold bind.
    destruct (getRandomCachedFile r g) as [[id []] g'| |]; done. }
  unfold pickCachedFile. unfold bind at 1. unfold cache_Get.
  destruct (readedFilesCache g) as [b|]; [|done].
  destruct (BitMap_Get b fileId); [done|].
  unfold bind at 1. unfold slice_get.
  destruct (cacheedFilesCache g !! N.to_nat fileId) as [val|] eqn:Hval; [|done].
  destruct (N.eqb_spec val 0) as [|Hv]; [done|].
  pose proof Hwf as (Hle & Hmod & _ & Hif).
  destruct (Hif fileId val Hval Hv) as [Hvn Hfile]. simpl in *.
  rewrite u32_dec_pos by lia.
  pose proof (markCachedFileReaded_final_wf g fileId (val - 1) Hwf ltac:(lia) Hfile)
    as H.
  unfold bind. by destruct (markCachedFileReaded fileId (val - 1) g).
Qed.

Lemma addFileToCache_final_wf (node : FileNode) :
  preserves (fun g => pool_wf (cached_pool g)) (addFileToCache node).
Proof.
  intros g Hwf. pose proof Hwf as (Hle & Hmod & _ & _).
  destruct g. unfold cached_pool in *. simpl in *.
  unfold addFileToCache. unfold_monad. unfold Signal. simpl.
  repeat (case_inner; simpl; try done).
  all: bool_hyps; subst.
  all: try (match goal with
            | H : _ !! ?i = Some _, H' : (length _ <= ?i)%nat |- _ =>
                apply lookup_lt_Some in H; lia
            end).
  all: rewrite u32_inc_small by lia.
  all: refine (proj1 (pool_insert_wf
                 {| p_files := cachedFiles0; p_index := cacheedFilesCache0;
                    p_num := cachedFileNum0 |} (node_fileId node) Hwf _ _));
    simpl; [done|lia].
Qed.

Lemma fresh_group_cached_pool_wf (grp : Group) :
  grp_fileNum grp < modulus -> pool_wf (cached_pool (fresh_group grp)).
Proof.
  intros Hn. unfold pool_wf, cached_pool. simpl. rewrite length_replicate.
  split; [lia|]. split; [lia|]. split.
  - intros i id Hi. lia.
  - intros id v Hv Hv0. by apply lookup_replicate in Hv as [-> _].
Qed.

Lemma cached_pool_wf_run (acts : list Action) (t : DLT) :
  all_groups (fun _ g => pool_wf (cached_pool g)) t ->
  all_groups (fun _ g => pool_wf (cached_pool g)) (run acts t).
Proof.
  apply all_groups_run; intros gid.
  - intros. apply pick_Get_enter_group; try done. apply pickCachedFile_final_wf.
  - intros. apply pick_Get_fetched_group; done.
  - intros. apply pick_Get_woken_group; try done. apply pickCachedFile_final_wf.
  - intros. apply pick_addUnreadedFile; done.
  - apply addFileToCache_final_wf.
Qed.

Lemma init_all_groups (P : N -> DLTGroup -> Prop)
    (mem : N -> bool) (ds : Dataset) (t0 t : DLT) :
  groupNum ds < modulus ->
  init mem ds t0 = Done None t ->
  (forall gid grp, ds_groups ds !! N.to_nat gid = Some grp ->
                   P gid (fresh_group grp)) ->
  all_groups P t.
Proof.
  intros Hn H HP gid g Hg.
  apply init_Done in H as (_ & _ & Hgs & _); [|done].
  rewrite Hgs, list_lookup_fmap in Hg.
  destruct (take (N.to_nat (groupNum ds)) (ds_groups ds) !! N.to_nat gid)
    as [grp|] eqn:E; [|done].
  simpl in Hg. injection Hg as <-. apply HP.
  by apply lookup_take_Some in E as [E _].
Qed.

(** After a successful [init], whatever the sections of [Get] and the calls
    of the producer that have run since, and however each of them ended, the
    cache pool of every group is consistent: its slots and its index agree.
    The file count of a partition is a [uint32]. *)
Theorem cache_pool_stays_consistent
    (mem : N -> bool) (ds : Dataset) (t0 t : DLT) (acts : list Action) :
  groupNum ds < modulus ->
  (forall grp, grp ∈ ds_groups ds -> grp_fileNum grp < modulus) ->
  init mem ds t0 = Done None t ->
  all_groups (fun _ g => pool_wf (cached_pool g)) (run acts t).
Proof.
  intros Hn Hf H. apply cached_pool_wf_run.
  apply (init_all_groups _ mem ds t0 t Hn H).
  intros gid grp Hgrp. apply fresh_group_cached_pool_wf, Hf.
  by eapply list_elem_of_lookup_2.
Qed.

Lemma cache_pool_stays_consistent_witness :
  let grp := one_group 3 1 0 in
  let t := final (init (fun _ => true) (one_group_dataset grp ∅) (new_table grp ∅)) in
  all_groups (fun _ g => pool_wf (cached_pool g))
    (run [AaddFileToCache 0 {| fileId := 2; content := "c" |};
          AaddFileToCache 0 {| fileId := 0; content := "a" |};
          AGet_enter 7 "1"; AGet_enter 7 "3"] t).
Proof.
  intros grp t.
  apply (cache_pool_stays_consistent (fun _ => true)
           (one_group_dataset grp ∅) (new_table grp ∅)).
  - vm_compute. reflexivity.
  - intros g Hg. apply list_elem_of_singleton in Hg. subst g.
    vm_compute. reflexivity.
  - vm_compute. reflexivity.
Defined.

(* ------------------------------------------------------------------------- *)
(** ** What [init] allocated stays allocated *)

Lemma fresh_group_sized (grp : Group) : sized grp (fresh_group grp).
Proof.
  unfold sized. simpl. rewrite !length_replicate.
  repeat split; try done;
    eexists; (split; [reflexivity|]); simpl; by rewrite length_replicate.
Qed.

Ltac sized_stable :=
  unfold sized; intros; simpl in *; rewrite ?length_insert;
  repeat match goal with
  | H : _ /\ _ |- _ => destruct H
  | H : exists _, _ |- _ => destruct H
  end;
  simplify_eq; simpl in *; rewrite ?length_insert;
  repeat split; try done;
  try (eexists; (split; [first [eassumption|reflexivity]|]); simpl;
       by rewrite ?length_insert).

Lemma sized_run (ds : Dataset) (acts : list Action) (t : DLT) :
  all_groups (fun gid g => exists grp, ds_groups ds !! N.to_nat gid = Some grp /\
                                       sized grp g) t ->
  all_groups (fun gid g => exists grp, ds_groups ds !! N.to_nat gid = Some grp /\
                                       sized grp g) (run acts t).
Proof.
  assert (Hpick : forall grp r fileId,
            preserves (sized grp) (pickCachedFile r fileId)).
  { intros. apply preserves_pickCachedFile; sized_stable. }
  assert (Hlift : forall {A} gid (m : M DLTGroup A),
            (forall grp, preserves (sized grp) m) ->
            preserves (fun g => exists grp,
                         ds_groups ds !! N.to_nat gid = Some grp /\
                         sized grp g) m).
  { intros A gid m Hm g (grp & Hgrp & Hg). exists grp. split; [done|].
    by apply Hm. }
  apply all_groups_run; intros gid; intros; apply Hlift; intros grp.
  - apply pick_Get_enter_group; try apply Hpick; sized_stable.
  - apply pick_Get_fetched_group; sized_stable.
  - apply pick_Get_woken_group; try apply Hpick; sized_stable.
  - apply preserves_addUnreadedFile; sized_stable.
  - apply preserves_addFileToCache; sized_stable.
Qed.

(* ------------------------------------------------------------------------- *)
(** ** How a method ends *)

Lemma triple_ret {S A} (P : S -> Prop) E K (a : A) : triple P (ret a) P E K.
Proof. by intros s Hs. Qed.

Lemma triple_gets {S A} (P : S -> Prop) E K (f : S -> A) :
  triple P (gets f) P E K.
Proof. by intros s Hs. Qed.

Lemma triple_panic {S A} (P Q : S -> Prop) (E : Panic -> S -> Prop) K
    (p : Panic) :
  (forall s, P s -> E p s) -> triple P (panic p : M S A) Q E K.
Proof. intros H s Hs. by apply H. Qed.

Lemma triple_modify {S} (P Q : S -> Prop) E K (f : S -> S) :
  (forall s, P s -> Q (f s)) -> triple P (modify f) Q E K.
Proof. intros Hf s Hs. by apply Hf. Qed.

Lemma triple_bind {S A B} (P Q R : S -> Prop) E K
    (m : M S A) (k : A -> M S B) :
  triple P m Q E K -> (forall a, triple Q (k a) R E K) ->
  triple P (bind m k) R E K.
Proof.
  intros Hm Hk s Hs. specialize (Hm s Hs). unfold bind.
  destruct (m s) as [a s'| |]; [by apply Hk|done|done].
Qed.

(** The rest of the method may use the value read. *)
Lemma triple_bind_gets {S A B} (P R : S -> Prop) E K
    (f : S -> A) (k : A -> M S B) :
  (forall a, triple (fun s => P s /\ f s = a) (k a) R E K) ->
  triple P (bind (gets f) k) R E K.
Proof. intros Hk s Hs. unfold bind, gets. by apply Hk. Qed.

Lemma triple_pre {S A} (P P' Q : S -> Prop) E K (m : M S A) :
  (forall s, P' s -> P s) -> triple P m Q E K -> triple P' m Q E K.
Proof. intros H Hm s Hs. by apply Hm, H. Qed.

Lemma triple_slice_get {S} (P : S -> Prop) (E : Panic -> S -> Prop) K
    (a : S -> list N) (i : N) :
  (forall s, P s -> E IndexOutOfRange s) -> triple P (slice_get a i) P E K.
Proof.
  intros H s Hs. unfold slice_get. destruct (a s !! N.to_nat i); [done|].
  by apply H.
Qed.

Lemma triple_slice_set {S} (P : S -> Prop) (E : Panic -> S -> Prop) K
    (a : S -> list N) (upd : list N -> S -> S) (i v : N) :
  (forall s, P s -> E IndexOutOfRange s) ->
  (forall s, P s -> P (upd (<[N.to_nat i := v]> (a s)) s)) ->
  triple P (slice_set a upd i v) P E K.
Proof.
  intros H Hu s Hs. unfold slice_set.
  destruct (N.to_nat i <? length (a s))%nat; [by apply Hu|by apply H].
Qed.

Lemma triple_park {S A} (P Q : S -> Prop) E (K : S -> Prop) (m : M S A) :
  triple P m Q E (fun _ => False) -> triple P m Q E K.
Proof. intros Hm s Hs. specialize (Hm s Hs). by destruct (m s). Qed.

Lemma triple_final {S A} (P Q R : S -> Prop) E K (m : M S A) :
  triple P m Q E K ->
  (forall s, Q s -> R s) -> (forall p s, E p s -> R s) ->
  (forall s, K s -> R s) ->
  forall s, P s -> R (final (m s)).
Proof.
  intros Hm HQ HE HK s Hs. specialize (Hm s Hs).
  destruct (m s); simpl; eauto.
Qed.

Lemma triple_real_Get (P : DLTGroup -> Prop) (E : Panic -> DLTGroup -> Prop) K
    (id : N) :
  (forall g, P g -> readedFilesReal g = None -> E NilDereference g) ->
  triple P (real_Get id) P E K.
Proof.
  intros H g Hg. unfold real_Get.
  destruct (readedFilesReal g) eqn:Eq; [done|]. by apply H.
Qed.

Lemma triple_cache_Get (P : DLTGroup -> Prop) (E : Panic -> DLTGroup -> Prop) K
    (id : N) :
  (forall g, P g -> readedFilesCache g = None -> E NilDereference g) ->
  triple P (cache_Get id) P E K.
Proof.
  intros H g Hg. unfold cache_Get.
  destruct (readedFilesCache g) eqn:Eq; [done|]. by apply H.
Qed.

(** Decompose a goal [triple P m P E K] along the structure of [m]; [side]
    proves that a write keeps [P] and that a panic is allowed. *)
Ltac tri_with side :=
  repeat first
    [ assumption
    | match goal with
      | H : forall _, triple _ _ _ _ _ |- _ => apply H
      | H : forall _ _, triple _ _ _ _ _ |- _ => apply H
      | H : forall _ _ _, triple _ _ _ _ _ |- _ => apply H
      end
    | apply triple_ret
    | apply triple_gets
    | apply triple_panic; solve [side]
    | apply triple_slice_get; solve [side]
    | apply triple_slice_set; solve [side]
    | match goal with
      | |- triple ?P (modify _) _ _ _ =>
          apply (triple_modify P P); solve [side]
      | |- triple ?P (bind _ _) _ _ _ => apply (triple_bind P P); [|intros ?]
      end
    | match goal with
      | |- triple _ (if ?b then _ else _) _ _ _ => destruct b
      | |- triple _ (match ?x with _ => _ end) _ _ _ => destruct x
      | |- triple _ (let r := _ in _) _ _ _ => cbv zeta
      end ].

(** The part of a method that runs with the mutex held, on a group that
    satisfies [J], panics only with a panic of [ok], keeps [J], and neither
    parks nor releases the mutex; the sections of [Get] end with the mutex
    released, however they end. *)
Section Under_the_lock.

Variable J : DLTGroup -> Prop.
Variable ok : Panic -> Prop.

Hypothesis J_cond : forall c g, J g -> J (set_cond (Some c) g).
Hypothesis J_hasWiated : forall v g, J g -> J (set_hasWiated v g).
Hypothesis J_unreadFileNum : forall v g, J g -> J (set_unreadFileNum v g).
Hypothesis J_unreadFilesIndexs : forall i v g,
  J g -> J (set_unreadFilesIndexs (<[i := v]> (unreadFilesIndexs g)) g).
Hypothesis J_unreadFiles : forall i v g,
  J g -> J (set_unreadFiles (<[i := v]> (unreadFiles g)) g).
Hypothesis J_readedCachedFileNum : forall v g,
  J g -> J (set_readedCachedFileNum v g).
Hypothesis J_readedCachedFiles : forall i v g,
  J g -> J (set_readedCachedFiles (<[i := v]> (readedCachedFiles g)) g).
Hypothesis J_prereadFileNum : forall v g, J g -> J (set_prereadFileNum v g).
Hypothesis J_cachedFileNum : forall v g, J g -> J (set_cachedFileNum v g).
Hypothesis J_cacheedFilesCache : forall i v g,
  J g -> J (set_cacheedFilesCache (<[i := v]> (cacheedFilesCache g)) g).
Hypothesis J_cachedFiles : forall i v g,
  J g -> J (set_cachedFiles (<[i := v]> (cachedFiles g)) g).
Hypothesis J_real : forall id b g,
  J g -> readedFilesReal g = Some b ->
  J (set_readedFilesReal (Some (BitMap_Set b id)) g).
Hypothesis J_cache : forall id b g,
  J g -> readedFilesCache g = Some b ->
  J (set_readedFilesCache (Some (BitMap_Set b id)) g).
Hypothesis J_lock : forall v g, J g -> J (set_lock v g).

Hypothesis ok_index : ok IndexOutOfRange.
Hypothesis nil_cond : forall g, J g -> cond g = None -> ok NilDereference.
Hypothesis nil_real : forall g, J g -> readedFilesReal g = None -> ok NilDereference.
Hypothesis nil_cache : forall g, J g -> readedFilesCache g = None -> ok NilDereference.

(** With the mutex held or free, as [b] tells. *)
Let body (b : bool) {A} (m : M DLTGroup A) : Prop :=
  triple (held J b) m (held J b) (fun p g => ok p /\ held J b g)
         (fun _ => False).

Ltac held_side := intros ? [? ?]; repeat split; auto; done.

Lemma body_real_Get b id : body b (real_Get id).
Proof.
  intros g [HJ Hl]. unfold real_Get.
  destruct (readedFilesReal g) eqn:E; [done|]. repeat split; eauto.
Qed.

Lemma body_cache_Get b id : body b (cache_Get id).
Proof.
  intros g [HJ Hl]. unfold cache_Get.
  destruct (readedFilesCache g) eqn:E; [done|]. repeat split; eauto.
Qed.

Lemma body_real_Set b id : body b (real_Set id).
Proof.
  intros g [HJ Hl]. unfold real_Set.
  destruct (readedFilesReal g) eqn:E; [|repeat split; eauto].
  split; [by eapply J_real|done].
Qed.

Lemma body_cache_Set b id : body b (cache_Set id).
Proof.
  intros g [HJ Hl]. unfold cache_Set.
  destruct (readedFilesCache g) eqn:E; [|repeat split; eauto].
  split; [by eapply J_cache|done].
Qed.

Lemma body_Signal b : body b Signal.
Proof.
  intros g [HJ Hl]. unfold Signal.
  destruct (cond g) as [c|] eqn:E; [|repeat split; eauto].
  destruct (waiters c); [done|]. split; [by apply J_cond|done].
Qed.

Lemma body_markCachedFileReaded b fileId index :
  body b (markCachedFileReaded fileId index).
Proof. unfold markCachedFileReaded, body. tri_with held_side. Qed.

Lemma body_getRandomUnreadedFile b r : body b (getRandomUnreadedFile r).
Proof. unfold getRandomUnreadedFile, body. tri_with held_side. Qed.

Lemma body_Get_removeUnread b tempId : body b (Get_removeUnread tempId).
Proof. unfold Get_removeUnread, body. tri_with held_side. Qed.

Lemma body_addUnreadedFile b fileId : body b (addUnreadedFile fileId).
Proof.
  pose proof (body_cache_Get b).
  unfold addUnreadedFile, body in *. tri_with held_side.
Qed.

Lemma body_addFileToCache b node : body b (addFileToCache node).
Proof.
  pose proof (body_cache_Get b). pose proof (body_Signal b).
  unfold addFileToCache, body in *. tri_with held_side.
Qed.

(** The remainder by [cachedFileNum] is guarded, or a division by zero is
    among the panics of [ok]. *)
Let guarded (b : bool) (g : DLTGroup) : Prop :=
  held J b g /\ (ok DivideByZero \/ cachedFileNum g ≠ 0).

Lemma guarded_getRandomCachedFile b r :
  triple (guarded b) (getRandomCachedFile r) (held J b)
         (fun p g => ok p /\ held J b g) (fun _ => False).
Proof.
  pose proof (body_markCachedFileReaded b) as Hmark.
  unfold getRandomCachedFile, body in *.
  apply triple_bind_gets. intros c.
  destruct (N.eqb_spec c 0) as [->|Hc].
  - apply triple_panic. intros g [[Hg [Hz|Hz]] Hc]; [done|congruence].
  - apply (triple_pre (held J b)); [by intros g [[Hg _] _]|].
    tri_with held_side.
Qed.

Lemma guarded_pickCachedFile b r fileId :
  triple (guarded b) (pickCachedFile r fileId) (held J b)
         (fun p g => ok p /\ held J b g) (fun _ => False).
Proof.
  pose proof (body_markCachedFileReaded b) as Hmark.
  pose proof (guarded_getRandomCachedFile b r) as Hrand.
  unfold body in *.
  assert (Hnil : forall g, guarded b g -> readedFilesCache g = None ->
                           ok NilDereference /\ held J b g).
  { intros g [[HJ Hl] _] Hn. repeat split; eauto. }
  assert (Hidx : forall g, guarded b g -> ok IndexOutOfRange /\ held J b g).
  { by intros g [Hg _]. }
  unfold pickCachedFile.
  apply (triple_bind (guarded b) (guarded b));
    [by apply triple_cache_Get|intros consumed].
  assert (Hr : triple (guarded b)
            (p <~ getRandomCachedFile r ;;
             if snd p then ret (inl (fst p))
             else ret (inr ErrCantGetCachedFile) : M DLTGroup (N + Error))
            (held J b) (fun p g => ok p /\ held J b g) (fun _ => False)).
  { apply (triple_bind (guarded b) (held J b)); [done|intros p].
    destruct (snd p); apply triple_ret. }
  destruct consumed; [done|].
  apply (triple_bind (guarded b) (guarded b));
    [by apply triple_slice_get|intros val].
  destruct (val =? 0); [done|].
  apply (triple_bind (guarded b) (held J b)); [|intros; apply triple_ret].
  apply (triple_pre (held J b)); [by intros g [Hg _]|done].
Qed.

Lemma guarded_getFileFromCache b cache r fileId :
  triple (guarded b) (getFileFromCache cache r fileId) (held J b)
         (fun p g => ok p /\ held J b g) (fun _ => False).
Proof.
  unfold getFileFromCache.
  apply (triple_bind (guarded b) (held J b));
    [apply guarded_pickCachedFile|intros pick].
  destruct pick as [tempId|e]; [|apply triple_ret].
  destruct (cache !! tempId); apply triple_ret.
Qed.

Lemma body_Get_locked cache r fileId : body true (Get_locked cache r fileId).
Proof.
  pose proof (body_real_Get true). pose proof (body_real_Set true).
  pose proof (body_cache_Get true). pose proof (body_cache_Set true).
  pose proof (body_getRandomUnreadedFile true).
  pose proof (body_Get_removeUnread true).
  pose proof (guarded_getFileFromCache true cache r fileId) as Hget.
  unfold Get_locked, body in *.
  apply (triple_bind (held J true) (held J true)); [done|intros readed].
  destruct readed; [apply triple_ret|].
  apply triple_bind_gets. intros c. destruct (N.ltb_spec 0 c) as [Hc|Hc].
  - apply (triple_bind _ (held J true)).
    + eapply triple_pre; [|exact Hget].
      intros g [Hg <-]. split; [done|]. right. lia.
    + intros [[node|] [e|]]; tri_with held_side.
  - apply (triple_pre (held J true)); [by intros g [Hg _]|].
    tri_with held_side.
Qed.

Lemma held_Lock :
  triple (held J false) Lock (held J true)
         (fun p g => ok p /\ held J false g) (fun _ => False).
Proof.
  intros g [HJ Hl]. unfold Lock. rewrite Hl. split; [by apply J_lock|done].
Qed.

Lemma held_Unlock :
  triple (held J true) Unlock (held J false)
         (fun p g => ok p /\ held J true g) (fun _ => False).
Proof.
  intros g [HJ Hl]. unfold Unlock. rewrite Hl. split; [by apply J_lock|done].
Qed.

Lemma held_Wait_park :
  triple (held J true) Wait_park (held J false)
         (fun p g => ok p /\ held J true g) (fun _ => False).
Proof.
  intros g [HJ Hl]. unfold Wait_park.
  destruct (cond g) as [c|] eqn:Ec; [|repeat split; eauto].
  apply held_Unlock. split; [by apply J_cond|done].
Qed.

Lemma held_Wait_resume :
  triple (held J false) Wait_resume (held J true)
         (fun p g => ok p /\ held J false g) (held J false).
Proof.
  intros g [HJ Hl]. unfold Wait_resume.
  destruct (cond g) as [c|] eqn:Ec; [|repeat split; eauto].
  destruct (notified c); [done|].
  unfold Lock. simpl. rewrite Hl. split; [|done].
  by apply J_lock, J_cond.
Qed.

Lemma held_on_panic_Unlock {A} (P Q K : DLTGroup -> Prop) (m : M DLTGroup A) :
  triple P m Q (fun p g => ok p /\ held J true g) K ->
  triple P (on_panic_Unlock m) Q (fun p g => ok p /\ held J false g) K.
Proof.
  intros Hm g Hg. specialize (Hm g Hg). unfold on_panic_Unlock.
  destruct (m g) as [a g'|p g'|g']; [done| |done].
  destruct Hm as [Hp [HJ Hl]]. split; [done|].
  unfold Unlock. rewrite Hl. simpl. split; [by apply J_lock|done].
Qed.

(** The first section of [Get], from a free mutex. *)
Lemma free_Get_enter_group cache r fileId :
  body false (Get_enter_group cache r fileId).
Proof.
  pose proof (body_Get_locked cache r fileId) as Hlocked.
  unfold Get_enter_group, body in *.
  apply (triple_bind _ (held J true)); [apply held_Lock|intros _].
  apply held_on_panic_Unlock.
  apply (triple_bind _ (held J true)); [done|intros l].
  destruct l.
  - apply (triple_bind _ (held J false));
      [apply held_Unlock|intros; apply triple_ret].
  - apply (triple_bind _ (held J false));
      [apply held_Unlock|intros; apply triple_ret].
  - apply (triple_bind _ (held J true)); [apply triple_gets|intros w].
    apply (triple_bind _ (held J true));
      [apply triple_modify; held_side|intros _].
    apply (triple_bind _ (held J false));
      [apply held_Wait_park|intros; apply triple_ret].
Qed.

(** The second section of [Get] on its group, from a free mutex. *)
Lemma free_Get_fetched_group tempId : body false (Get_fetched_group tempId).
Proof.
  unfold Get_fetched_group, body.
  apply (triple_bind _ (held J true)); [apply held_Lock|intros _].
  apply held_on_panic_Unlock.
  apply (triple_bind _ (held J true)); [apply triple_gets|intros n].
  apply (triple_bind _ (held J true));
    [apply triple_slice_set; held_side|intros _].
  apply (triple_bind _ (held J true));
    [apply triple_modify; held_side|intros _].
  apply held_Unlock.
Qed.

(** The third section of [Get] on its group, from a free mutex: it may stay
    parked, and the remainder by [cachedFileNum] is not guarded. *)
Lemma free_Get_woken_group cache r fileId :
  ok DivideByZero ->
  triple (held J false) (Get_woken_group cache r fileId) (held J false)
         (fun p g => ok p /\ held J false g) (held J false).
Proof.
  intros Hdbz.
  pose proof (body_real_Set true). pose proof (body_cache_Set true).
  pose proof (guarded_getFileFromCache true cache r fileId) as Hget.
  unfold Get_woken_group, body in *.
  apply (triple_bind _ (held J true)); [apply held_Wait_resume|intros _].
  apply held_on_panic_Unlock, triple_park.
  apply (triple_bind _ (held J true));
    [|intros res; apply (triple_bind _ (held J false));
        [apply held_Unlock|intros; apply triple_ret]].
  unfold Get_relocked.
  apply (triple_bind _ (held J true)); [apply triple_gets|intros w].
  apply (triple_bind _ (held J true));
    [apply triple_modify; held_side|intros _].
  apply (triple_bind _ (held J true)).
  - eapply triple_pre; [|exact Hget]. intros g Hg. split; [done|by left].
  - intros [[node|] [e|]]; tri_with held_side.
Qed.

End Under_the_lock.

(* ------------------------------------------------------------------------- *)
(** ** No step leaves a mutex held *)

(** How a step ends on its group, from a free mutex: the mutex is free again,
    the group still satisfies [J], and a panic is one of [ok]. *)
Section Steps_from_a_free_mutex.

Variable J : DLTGroup -> Prop.
Variable ok : Panic -> Prop.

Hypothesis J_cond : forall c g, J g -> J (set_cond (Some c) g).
Hypothesis J_hasWiated : forall v g, J g -> J (set_hasWiated v g).
Hypothesis J_unreadFileNum : forall v g, J g -> J (set_unreadFileNum v g).
Hypothesis J_unreadFilesIndexs : forall i v g,
  J g -> J (set_unreadFilesIndexs (<[i := v]> (unreadFilesIndexs g)) g).
Hypothesis J_unreadFiles : forall i v g,
  J g -> J (set_unreadFiles (<[i := v]> (unreadFiles g)) g).
Hypothesis J_readedCachedFileNum : forall v g,
  J g -> J (set_readedCachedFileNum v g).
Hypothesis J_readedCachedFiles : forall i v g,
  J g -> J (set_readedCachedFiles (<[i := v]> (readedCachedFiles g)) g).
Hypothesis J_prereadFileNum : forall v g, J g -> J (set_prereadFileNum v g).
Hypothesis J_cachedFileNum : forall v g, J g -> J (set_cachedFileNum v g).
Hypothesis J_cacheedFilesCache : forall i v g,
  J g -> J (set_cacheedFilesCache (<[i := v]> (cacheedFilesCache g)) g).
Hypothesis J_cachedFiles : forall i v g,
  J g -> J (set_cachedFiles (<[i := v]> (cachedFiles g)) g).
Hypothesis J_real : forall id b g,
  J g -> readedFilesReal g = Some b ->
  J (set_readedFilesReal (Some (BitMap_Set b id)) g).
Hypothesis J_cache : forall id b g,
  J g -> readedFilesCache g = Some b ->
  J (set_readedFilesCache (Some (BitMap_Set b id)) g).
Hypothesis J_lock : forall v g, J g -> J (set_lock v g).

Hypothesis ok_index : ok IndexOutOfRange.
Hypothesis ok_zero : ok DivideByZero.
Hypothesis nil_cond : forall g, J g -> cond g = None -> ok NilDereference.
Hypothesis nil_real : forall g, J g -> readedFilesReal g = None -> ok NilDereference.
Hypothesis nil_cache : forall g, J g -> readedFilesCache g = None -> ok NilDereference.

Lemma free_step_final {A} (m : M DLTGroup A) :
  triple (held J false) m (held J false)
         (fun p g => ok p /\ held J false g) (held J false) ->
  preserves (held J false) m.
Proof.
  intros Hm g Hg. revert g Hg.
  apply (triple_final _ _ _ _ _ _ Hm); [done| |done]. by intros p g [_ H].
Qed.

Lemma free_steps_run (acts : list Action) (t : DLT) :
  all_groups (fun _ => held J false) t ->
  all_groups (fun _ => held J false) (run acts t).
Proof.
  apply all_groups_run; intros gid; intros; apply free_step_final.
  - apply triple_park. by apply free_Get_enter_group.
  - apply triple_park. by apply free_Get_fetched_group.
  - by apply free_Get_woken_group.
  - apply triple_park. by apply body_addUnreadedFile.
  - apply triple_park. by apply body_addFileToCache.
Qed.

End Steps_from_a_free_mutex.

(** No step leaves a mutex held: when the mutex of every group is free, it is
    free again after any section of [Get] and any call of the producer,
    whether the step returns, panics or parks, and so after any sequence of
    them. *)
Theorem mutexes_free_after_every_step (acts : list Action) (t : DLT) :
  all_groups (fun _ g => lock g = false) t ->
  all_groups (fun _ g => lock g = false) (run acts t).
Proof.
  intros Ht.
  assert (H : all_groups (fun _ => held (fun _ => True) false) (run acts t)).
  { apply (free_steps_run _ (fun _ => True)); try done.
    intros gid g Hg. split; [done|]. by eapply Ht. }
  intros gid g Hg. by destruct (H gid g Hg).
Qed.

Lemma mutexes_free_after_every_step_witness :
  let grp := one_group 3 1 0 in
  let t := final (init (fun _ => true) (one_group_dataset grp ∅) (new_table grp ∅)) in
  all_groups (fun _ g => lock g = false)
    (run [AaddFileToCache 0 {| fileId := 2; content := "c" |};
          AGet_enter 7 "1"; AaddUnreadedFile 0 1; AGet_woken 3 0 1;
          AGet_enter 7 "2"] t).
Proof.
  intros grp t. apply mutexes_free_after_every_step.
  intros gid g Hg.
  destruct (N.to_nat gid) as [|k]; [|by destruct k].
  vm_compute in Hg. injection Hg as <-. reflexivity.
Defined.

(* ------------------------------------------------------------------------- *)
(** ** The panics of a step *)

Lemma triple_crash {S A} (P Q : S -> Prop) E K (m : M S A) (s : S) (p : Panic) :
  triple P m Q E K -> P s -> panic_of (m s) = Some p -> E p (final (m s)).
Proof.
  intros Hm Hs Hp. specialize (Hm s Hs).
  destruct (m s); simpl in *; [done| |done]. by injection Hp as <-.
Qed.

Lemma on_group_panic {A} (gid : N) (m : M DLTGroup A) (t : DLT) (p : Panic) :
  panic_of (on_group gid m t) = Some p ->
  p = IndexOutOfRange \/
  exists g, groups t !! N.to_nat gid = Some g /\ panic_of (m g) = Some p.
Proof.
  unfold on_group. destruct (groups t !! N.to_nat gid) as [g|].
  - intros H. right. exists g. split; [done|]. by destruct (m g).
  - simpl. intros [= <-]. by left.
Qed.

(** A panic of the second section of [Get] is an index out of range on the
    groups, a [nil] partition, or a panic of [Get_fetched_group]. *)
Lemma Get_fetched_panic (gid tempId : N)
    (fetched : option FileNode * option Error) (t : DLT) (p : Panic) :
  panic_of (Get_fetched gid tempId fetched t) = Some p ->
  p = IndexOutOfRange \/
  exists g, groups t !! N.to_nat gid = Some g /\
    ((group g = None /\ p = NilDereference) \/
     panic_of (Get_fetched_group tempId g) = Some p).
Proof.
  unfold Get_fetched. destruct fetched as [node [e|]]; [done|].
  unfold bind at 1. unfold on_group at 1.
  destruct (groups t !! N.to_nat gid) as [g|] eqn:E;
    [|simpl; intros [= <-]; by left].
  assert (Hlt : (N.to_nat gid < length (groups t))%nat) by by eapply lookup_lt_Some.
  intros H. right. exists g. split; [done|].
  unfold deref_group in H.
  destruct (group g) as [grp|]; [|simpl in H; injection H as <-; by left].
  right. rewrite (list_insert_id _ _ _ E), set_groups_id in H.
  destruct (cachedSize grp <=? allowCacheSize grp); [|done].
  unfold bind at 1 in H. rewrite (on_group_at _ _ _ _ E) in H.
  unfold Get_fetched_group, bind at 1. unfold Lock in *.
  destruct (lock g) eqn:El; simpl in *; [done|].
  revert H.
  unfold deferred_Unlock_at, store_cachedFile, on_panic_Unlock, Unlock.
  unfold_monad. unfold on_group. simpl.
  rewrite list_lookup_insert_eq by done. simpl.
  destruct (N.to_nat (readedCachedFileNum g) <? length (readedCachedFiles g))%nat;
    simpl; rewrite ?list_insert_insert_eq, ?list_lookup_insert_eq by done;
    simpl; done.
Qed.

Lemma no_nil_fresh_group (grp : Group) : held no_nil false (fresh_group grp).
Proof. repeat split; simpl; eauto. Qed.

Ltac no_nil_stable :=
  unfold no_nil; intros; simpl in *;
  repeat match goal with
  | H : _ /\ _ |- _ => destruct H
  | H : is_Some None |- _ => by destruct H
  | H : ?x = None, H' : is_Some ?x |- _ => rewrite H in H'
  end;
  try done; repeat split; eauto.

Lemma no_nil_run (acts : list Action) (t : DLT) :
  all_groups (fun _ => held no_nil false) t ->
  all_groups (fun _ => held no_nil false) (run acts t).
Proof. apply (free_steps_run no_nil (fun _ => True)); no_nil_stable. Qed.

(** From a table where every group has its pointers set and its mutex free,
    a step panics only with an index out of range, or with a division by
    zero in the third section of [Get]. *)
Lemma act_panic_no_nil (a : Action) (t : DLT) (p : Panic) :
  all_groups (fun _ => held no_nil false) t ->
  act_panic a t = Some p ->
  p = IndexOutOfRange \/
  (p = DivideByZero /\ exists r gid fileId, a = AGet_woken r gid fileId).
Proof.
  intros Ht. destruct a as [r name|gid tempId fetched|r gid fileId|gid fileId|gid node];
    simpl.
  - (* the first section *)
    unfold Get_enter. destruct (negb (inited t)); [done|].
    destruct (GetFileId (dataset t) name) as [fileId|]; [|done].
    set (gid := fileIdToGroups (dataset t) fileId).
    set (cache := ds_cachedFiles (dataset t)).
    unfold bind at 1.
    assert (Hinv : all_groups (fun _ => held no_nil false)
              (final (on_group gid (Get_enter_group cache r fileId) t))).
    { apply (all_groups_on_group (fun _ => held no_nil false)); [|done].
      apply (free_step_final _ (fun _ => True)), triple_park.
      apply free_Get_enter_group; no_nil_stable. }
    destruct (on_group gid (Get_enter_group cache r fileId) t)
      as [l t1|p' t1|t1] eqn:E; simpl in *.
    + destruct l as [res|tempId|]; [done| |done].
      unfold bind. destruct (on_group gid deref_group t1) as [grp t2|p' t2|t2] eqn:E2;
        [done| |done].
      simpl. intros [= ->]. left.
      assert (Hp : panic_of (on_group gid deref_group t1) = Some p) by by rewrite E2.
      apply on_group_panic in Hp as [->|(g & Hg & Hp)]; [done|].
      destruct (Hinv gid g Hg) as [[[grp Hgrp] _] _].
      unfold deref_group in Hp. by rewrite Hgrp in Hp.
    + intros [= ->]. left.
      assert (Hp : panic_of (on_group gid (Get_enter_group cache r fileId) t) = Some p)
        by by rewrite E.
      apply on_group_panic in Hp as [->|(g & Hg & Hp)]; [done|].
      eapply (triple_crash _ _ _ _ _ g p) in Hp;
        [|apply (free_Get_enter_group no_nil (fun p => p = IndexOutOfRange));
          no_nil_stable|by apply (Ht gid)].
      by destruct Hp.
    + done.
  - (* the second section *)
    intros Hp. left.
    apply Get_fetched_panic in Hp as [->|(g & Hg & [[Hgrp _]|Hp])]; [done| |].
    + destruct (Ht gid g Hg) as [[[grp Hgrp'] _] _]. congruence.
    + eapply (triple_crash _ _ _ _ _ g p) in Hp;
        [|apply (free_Get_fetched_group no_nil (fun p => p = IndexOutOfRange));
          no_nil_stable|by apply (Ht gid)].
      by destruct Hp.
  - (* the third section *)
    unfold Get_woken. intros Hp.
    apply on_group_panic in Hp as [->|(g & Hg & Hp)]; [by left|].
    eapply (triple_crash _ _ _ _ _ g p) in Hp;
      [|apply (free_Get_woken_group no_nil
                 (fun p => p = IndexOutOfRange \/ p = DivideByZero));
        no_nil_stable; auto|by apply (Ht gid)].
    destruct Hp as [[->| ->] _]; [by left|right]. split; [done|]. eauto.
  - intros Hp. left.
    apply on_group_panic in Hp as [->|(g & Hg & Hp)]; [done|].
    eapply (triple_crash _ _ _ _ _ g p) in Hp;
      [|apply (body_addUnreadedFile no_nil (fun p => p = IndexOutOfRange));
        no_nil_stable|by apply (Ht gid)].
    by destruct Hp.
  - intros Hp. left.
    apply on_group_panic in Hp as [->|(g & Hg & Hp)]; [done|].
    eapply (triple_crash _ _ _ _ _ g p) in Hp;
      [|apply (body_addFileToCache no_nil (fun p => p = IndexOutOfRange));
        no_nil_stable|by apply (Ht gid)].
    by destruct Hp.
Qed.

(** After a successful [init], whatever the sections of [Get] and the calls
    of the producer that have run since, a step that panics panics with an
    index out of range, or, in the third section of [Get] only, with a
    division by zero: no step dereferences a [nil] pointer or unlocks a
    mutex that is not held. *)
Theorem panics_after_init
    (mem : N -> bool) (ds : Dataset) (t0 t : DLT) (acts : list Action)
    (a : Action) (p : Panic) :
  groupNum ds < modulus ->
  init mem ds t0 = Done None t ->
  act_panic a (run acts t) = Some p ->
  p = IndexOutOfRange \/
  (p = DivideByZero /\ exists r gid fileId, a = AGet_woken r gid fileId).
Proof.
  intros Hn H. apply act_panic_no_nil, no_nil_run.
  apply (init_all_groups _ mem ds t0 t Hn H).
  intros gid grp _. apply no_nil_fresh_group.
Qed.

Lemma panics_after_init_witness :
  let grp := one_group 3 1 0 in
  let t := final (init (fun _ => true) (one_group_dataset grp ∅) (new_table grp ∅)) in
  let acts := [AGet_enter 7 "1"; AaddFileToCache 0 {| fileId := 2; content := "c" |}] in
  act_panic (AaddUnreadedFile 0 1) (run acts t) = Some IndexOutOfRange /\
  (IndexOutOfRange = IndexOutOfRange \/
   (IndexOutOfRange = DivideByZero /\
    exists r gid fileId, AaddUnreadedFile 0 1 = AGet_woken r gid fileId)).
Proof.
  intros grp t acts.
  assert (H : act_panic (AaddUnreadedFile 0 1) (run acts t) = Some IndexOutOfRange)
    by (vm_compute; reflexivity).
  split; [exact H|].
  apply (panics_after_init (fun _ => true) (one_group_dataset grp ∅)
           (new_table grp ∅) t acts (AaddUnreadedFile 0 1) IndexOutOfRange).
  - vm_compute. reflexivity.
  - vm_compute. reflexivity.
  - exact H.
Defined.

(* ------------------------------------------------------------------------- *)
(** ** What [init] allocated stays allocated, the theorem *)

(** After a successful [init], whatever the sections of [Get] and the calls
    of the producer that have run since, and however each of them ended,
    every group of the table still points to the partition of its index,
    still has its condition variable and its two bitmaps, and its bitmaps and
    its five slices still have the size of the partition: nothing is
    reallocated, resized or reset to [nil]. *)
Theorem allocation_is_stable
    (mem : N -> bool) (ds : Dataset) (t0 t : DLT) (acts : list Action) :
  groupNum ds < modulus ->
  init mem ds t0 = Done None t ->
  all_groups (fun gid g => exists grp, ds_groups ds !! N.to_nat gid = Some grp /\
                                       allocated grp g) (run acts t).
Proof.
  intros Hn H gid g Hg.
  assert (Hs : all_groups (fun gid g => exists grp,
                 ds_groups ds !! N.to_nat gid = Some grp /\ sized grp g)
                 (run acts t)).
  { apply sized_run. apply (init_all_groups _ mem ds t0 t Hn H).
    intros i grp Hgrp. exists grp. split; [done|]. apply fresh_group_sized. }
  assert (Hc : all_groups (fun _ => held no_nil false) (run acts t)).
  { apply no_nil_run. apply (init_all_groups _ mem ds t0 t Hn H).
    intros i grp _. apply no_nil_fresh_group. }
  destruct (Hs gid g Hg) as (grp & Hgrp & Hsized).
  destruct (Hc gid g Hg) as [(_ & Hcond & _) _].
  exists grp. split; [done|]. by split.
Qed.

Lemma allocation_is_stable_witness :
  let grp := one_group 3 1 0 in
  let t := final (init (fun _ => true) (one_group_dataset grp ∅) (new_table grp ∅)) in
  all_groups (fun gid g => exists grp', [grp] !! N.to_nat gid = Some grp' /\
                                        allocated grp' g)
    (run [AaddFileToCache 0 {| fileId := 2; content := "c" |};
          AGet_enter 7 "1"; AaddUnreadedFile 0 1;
          AGet_fetched 0 0 (plain_backend
                              {| f_dlt := 1; f_dataset := 7; f_group := 0;
                                 f_file := 0 |})] t).
Proof.
  intros grp t.
  apply (allocation_is_stable (fun _ => true)
           (one_group_dataset grp ∅) (new_table grp ∅)).
  - vm_compute. reflexivity.
  - vm_compute. reflexivity.
Defined.

(* ------------------------------------------------------------------------- *)
(** ** Registering an unread file *)

(** [addUnreadedFile] for an id that is in no pool and not consumed, on a
    consistent unread pool that has room: the call returns, the id is in the
    pool, in the first free slot; the pool stays consistent and keeps its
    other members; the in-flight counter is decremented, with wrap-around;
    nothing else changes. *)
Theorem addUnreadedFile_inserts (g : DLTGroup) (fileId : N) (cb : BitMap) :
  pool_wf (unread_pool g) ->
  unreadFilesIndexs g !! N.to_nat fileId = Some 0 ->
  readedFilesCache g = Some cb -> BitMap_Get cb fileId = false ->
  cacheedFilesCache g !! N.to_nat fileId = Some 0 ->
  unreadFileNum g < N.of_nat (length (unreadFiles g)) ->
  exists g',
    addUnreadedFile fileId g = Done tt g' /\
    pool_wf (unread_pool g') /\
    unread_member g' fileId = true /\
    (forall x, x ≠ fileId -> unread_member g' x = unread_member g x) /\
    unreadFiles g' !! N.to_nat (unreadFileNum g) = Some fileId /\
    unreadFileNum g' = unreadFileNum g + 1 /\
    prereadFileNum g' = u32_dec (prereadFileNum g) /\
    cached_pool g' = cached_pool g /\
    readedFilesReal g' = readedFilesReal g /\
    readedFilesCache g' = readedFilesCache g /\
    readedCachedFileNum g' = readedCachedFileNum g /\
    readedCachedFiles g' = readedCachedFiles g /\
    lock g' = lock g /\ cond g' = cond g /\ hasWiated g' = hasWiated g.
Proof.
  intros Hwf Hidx Hcb Hbit Hval Hroom.
  pose proof Hwf as (Hle & Hmod & _ & _).
  destruct (pool_insert_wf (unread_pool g) fileId Hwf Hidx Hroom)
    as (Hwf' & Hin & Hothers).
  apply lookup_lt_Some in Hidx as Hlt.
  destruct g. unfold unread_pool, pool_insert in *. simpl in *. subst.
  unfold addUnreadedFile. unfold_monad. simpl.
  rewrite Hidx. simpl. rewrite Hbit. simpl. rewrite Hval. simpl.
  assert (Hroom' : (N.to_nat unreadFileNum0 < length unreadFiles0)%nat) by lia.
  rewrite (ltb_nat_true _ _ Hroom'). simpl.
  rewrite (ltb_nat_true _ _ Hlt). simpl.
  rewrite u32_inc_small by lia.
  eexists. split; [reflexivity|]. simpl.
  split; [exact Hwf'|]. split; [exact Hin|]. split; [exact Hothers|].
  split; [apply list_lookup_insert_eq; lia|]. done.
Qed.

Lemma addUnreadedFile_inserts_witness :
  let g := set_unreadFileNum 0 (set_prereadFileNum 2
             (fresh_group (one_group 3 1 0))) in
  exists g',
    addUnreadedFile 1 g = Done tt g' /\
    pool_wf (unread_pool g') /\
    unread_member g' 1 = true /\
    (forall x, x ≠ 1 -> unread_member g' x = unread_member g x) /\
    unreadFiles g' !! N.to_nat (unreadFileNum g) = Some 1 /\
    unreadFileNum g' = unreadFileNum g + 1 /\
    prereadFileNum g' = u32_dec (prereadFileNum g) /\
    cached_pool g' = cached_pool g /\
    readedFilesReal g' = readedFilesReal g /\
    readedFilesCache g' = readedFilesCache g /\
    readedCachedFileNum g' = readedCachedFileNum g /\
    readedCachedFiles g' = readedCachedFiles g /\
    lock g' = lock g /\ cond g' = cond g /\ hasWiated g' = hasWiated g.
Proof.
  apply (addUnreadedFile_inserts _ 1 {| bits := [false; false; false] |}).
  - apply pool_wfb_correct. vm_compute. reflexivity.
  - vm_compute. reflexivity.
  - vm_compute. reflexivity.
  - vm_compute. reflexivity.
  - vm_compute. reflexivity.
  - vm_compute. reflexivity.
Defined.

(** Right after [init] no file can be registered as unread: [init] leaves
    [unreadFileNum] at the length of [unreadFiles], so for every group and
    every id the call panics with an index out of range; for an id of the
    partition the in-flight counter has been decremented first, from 0 to
    [2^32 - 1]. *)
Theorem addUnreadedFile_after_init_panics
    (mem : N -> bool) (ds : Dataset) (t0 t : DLT) (gid fileId : N) :
  groupNum ds < modulus ->
  init mem ds t0 = Done None t ->
  exists t',
    on_group gid (addUnreadedFile fileId) t = Crash IndexOutOfRange t' /\
    forall g grp, groups t !! N.to_nat gid = Some g -> group g = Some grp ->
      fileId < grp_fileNum grp ->
      at_group gid (fun g' => prereadFileNum g' = modulus - 1) t'.
Proof.
  intros Hn H.
  apply init_Done in H as (_ & _ & Hg & _); [|done].
  unfold on_group.
  destruct (groups t !! N.to_nat gid) as [g|] eqn:E;
    [|eexists; split; [reflexivity|done]].
  assert (Hlt : (N.to_nat gid < length (groups t))%nat) by by eapply lookup_lt_Some.
  rewrite Hg, list_lookup_fmap in E.
  destruct (take _ _ !! _) as [grp|]; [|done]. simpl in E. injection E as <-.
  unfold addUnreadedFile. unfold_monad. simpl.
  destruct (replicate (N.to_nat (grp_fileNum grp)) 0 !! N.to_nat fileId)
    as [v|] eqn:Ev.
  - apply lookup_replicate in Ev as [-> Hf]. simpl.
    rewrite BitMap_Get_fresh. simpl.
    rewrite (lookup_replicate_2 _ _ _ Hf). simpl.
    rewrite length_replicate, Nat.ltb_irrefl. simpl.
    eexists. split; [reflexivity|].
    intros g grp' _ _ _. eexists. simpl.
    split; [by apply list_lookup_insert_eq|]. reflexivity.
  - eexists. split; [reflexivity|].
    intros g grp' [= <-] [= <-] Hf.
    apply lookup_replicate_None in Ev. lia.
Qed.

Lemma addUnreadedFile_after_init_panics_witness :
  let grp := one_group 3 1 0 in
  let t := final (init (fun _ => true) (one_group_dataset grp ∅) (new_table grp ∅)) in
  exists t',
    on_group 0 (addUnreadedFile 2) t = Crash IndexOutOfRange t' /\
    at_group 0 (fun g' => prereadFileNum g' = modulus - 1) t'.
Proof.
  intros grp t.
  destruct (addUnreadedFile_after_init_panics (fun _ => true)
              (one_group_dataset grp ∅) (new_table grp ∅) t 0 2)
    as (t' & H1 & H2); [vm_compute; reflexivity|vm_compute; reflexivity|].
  exists t'. split; [exact H1|].
  apply (H2 (fresh_group grp) grp);
    [vm_compute; reflexivity|reflexivity|vm_compute; reflexivity].
Defined.

(* ------------------------------------------------------------------------- *)
(** ** A cached file is served as itself *)

Lemma pickCachedFile_own_slot (r fileId val : N) (g : DLTGroup) (cb : BitMap) :
  pool_wf (cached_pool g) ->
  readedFilesCache g = Some cb -> BitMap_Get cb fileId = false ->
  cacheedFilesCache g !! N.to_nat fileId = Some val -> val ≠ 0 ->
  (N.to_nat (readedCachedFileNum g) < length (readedCachedFiles g))%nat ->
  exists gp,
    pickCachedFile r fileId g = Done (inl fileId) gp /\
    markCachedFileReaded fileId (val - 1) g = Done tt gp /\
    cached_pool gp = pool_remove (cached_pool g) (val - 1) fileId /\
    val <= cachedFileNum g /\
    cachedFiles g !! N.to_nat (val - 1) = Some fileId.
Proof.
  intros Hwf Hcb Hbit Hval Hv Hlog.
  pose proof Hwf as (Hle & Hmod & _ & Hif).
  destruct (Hif fileId val Hval Hv) as [Hvn Hfile]. simpl in *.
  destruct (markCachedFileReaded_remove g fileId (val - 1) Hwf ltac:(lia)
              Hfile Hlog) as (gp & Hrun & Hpool & _).
  exists gp. split; [|done].
  unfold pickCachedFile. unfold bind at 1. unfold cache_Get.
  rewrite Hcb, Hbit. unfold bind at 1. unfold slice_get. rewrite Hval.
  destruct (N.eqb_spec val 0); [done|].
  rewrite u32_dec_pos by lia. unfold bind. by rewrite Hrun.
Qed.

(** [Get] for a file that is in the cache pool, with its content in the
    content cache, and that has been neither delivered nor consumed: the call
    returns that content with [CODE_OK], whatever the random number and
    without going to the backend; it sets the delivered bit of the file and
    the consumed bit of the node's id, takes the file out of the cache pool,
    which stays consistent, and leaves the mutex free.  The mutex is free
    and the log [readedCachedFiles] has a free slot. *)
Theorem Get_serves_cached_file_itself
    (backend : Fetch -> option FileNode * option Error)
    (t : DLT) (r : N) (fileName : string) (fileId : N) (g : DLTGroup)
    (rb cb : BitMap) (node : FileNode) :
  inited t = true ->
  GetFileId (dataset t) fileName = Some fileId ->
  groups t !! N.to_nat (fileIdToGroups (dataset t) fileId) = Some g ->
  lock g = false ->
  readedFilesReal g = Some rb -> BitMap_Get rb fileId = false ->
  readedFilesCache g = Some cb -> BitMap_Get cb fileId = false ->
  pool_wf (cached_pool g) -> cache_member g fileId = true ->
  ds_cachedFiles (dataset t) !! fileId = Some node ->
  (N.to_nat (readedCachedFileNum g) < length (readedCachedFiles g))%nat ->
  exists t' g',
    Get backend r fileName t = Done (Some node, CODE_OK, None) t' /\
    dataset t' = dataset t /\
    groups t' = <[N.to_nat (fileIdToGroups (dataset t) fileId) := g']> (groups t) /\
    lock g' = false /\
    readedFilesReal g' = Some (BitMap_Set rb fileId) /\
    readedFilesCache g' = Some (BitMap_Set cb (node_fileId node)) /\
    cache_member g' fileId = false /\
    (forall x, x ≠ fileId -> cache_member g' x = cache_member g x) /\
    pool_wf (cached_pool g') /\
    cachedFileNum g' = cachedFileNum g - 1 /\
    unread_pool g' = unread_pool g.
Proof.
  intros Hi Hn Hg Hl Hrb Hbr Hcb Hbc Hwf Hmem Hnode Hlog.
  unfold cache_member in Hmem.
  destruct (cacheedFilesCache g !! N.to_nat fileId) as [val|] eqn:Hval; [|done].
  apply negb_true_iff, N.eqb_neq in Hmem.
  set (g1 := set_lock true g).
  destruct (pickCachedFile_own_slot r fileId val g1 cb)
    as (gp & Hpick & Hmark & Hpool & Hvn & Hfile); try done.
  change (cachedFileNum g1) with (cachedFileNum g) in Hvn.
  destruct (markCachedFileReaded_remove g1 fileId (val - 1))
    as (gp' & Hmark' & _ & Hun & _ & _ & Hrb' & Hcb' & _ & Hl' & _);
    try done; [simpl; lia|].
  rewrite Hmark in Hmark'. injection Hmark' as <-.
  assert (Hcbp : readedFilesCache gp = Some cb) by (by rewrite Hcb').
  assert (Hrbp : readedFilesReal gp = Some rb) by (by rewrite Hrb').
  assert (Hlp : lock gp = true) by (by rewrite Hl').
  destruct (pool_remove_wf (cached_pool g) (val - 1) fileId)
    as (Hwf' & Hn' & Hout & Hothers); try done; [simpl; lia|].
  set (g' := set_lock false
               (set_readedFilesReal (Some (BitMap_Set rb fileId))
                  (set_readedFilesCache (Some (BitMap_Set cb (node_fileId node)))
                     gp))).
  assert (Hgroup : Get_enter_group (ds_cachedFiles (dataset t)) r fileId g
                   = Done (LReturn (Some node, CODE_OK, None)) g').
  { unfold Get_enter_group. unfold bind at 1. unfold Lock. rewrite Hl.
    fold g1. unfold on_panic_Unlock. unfold bind at 1.
    rewrite (Get_locked_cached _ r fileId fileId g1 gp node); try done.
    - unfold bind, cache_Set, real_Set, ret, Unlock. simpl.
      rewrite Hcbp. simpl. rewrite Hrbp. simpl. by rewrite Hlp.
    - unfold bit_real. simpl. by rewrite Hrb.
    - simpl. by rewrite Hrb.
    - simpl. apply N.ltb_lt. lia. }
  exists (set_groups (<[N.to_nat (fileIdToGroups (dataset t) fileId) := g']>
                        (groups t)) t), g'.
  split.
  { apply Get_returned. by apply Get_enter_returned with (g := g). }
  split; [done|]. split; [done|]. split; [done|].
  split; [done|]. split; [done|].
  change (cached_pool g1) with (cached_pool g) in Hpool.
  change (unread_pool g1) with (unread_pool g) in Hun.
  split; [by rewrite cache_member_pool; change (cached_pool g') with (cached_pool gp);
          rewrite Hpool|].
  split.
  { intros x Hx. rewrite !cache_member_pool.
    change (cached_pool g') with (cached_pool gp). rewrite Hpool.
    by apply Hothers. }
  split; [change (cached_pool g') with (cached_pool gp); by rewrite Hpool|].
  split; [|exact Hun].
  change (p_num (cached_pool gp) = p_num (cached_pool g) - 1). by rewrite Hpool.
Qed.

Lemma Get_serves_cached_file_itself_witness :
  let Z := {| fileId := 2; content := "Z" |} in
  let grp := one_group 3 1 0 in
  let t0 := final (init (fun _ => true) (one_group_dataset grp {[ 2 := Z ]})
                     (new_table grp {[ 2 := Z ]})) in
  let t := final (on_group 0 (addFileToCache Z) t0) in
  exists t' g',
    Get failing_backend 9 "3" t = Done (Some Z, CODE_OK, None) t' /\
    groups t' = [g'] /\ lock g' = false /\
    cache_member g' 2 = false /\ cachedFileNum g' = 0 /\
    bit_real g' 2 = true /\ bit_cache g' 2 = true.
Proof.
  intros Z grp t0 t.
  destruct (Get_serves_cached_file_itself failing_backend t 9 "3" 2
              (default zeroGroup (groups t !! 0%nat))
              {| bits := [false; false; false] |}
              {| bits := [false; false; false] |} Z)
    as (t' & g' & HG & _ & Hgs & Hl & Hrb & Hcb & Hm & _ & _ & Hn & _);
    [ vm_compute; reflexivity | vm_compute; reflexivity | vm_compute; reflexivity
    | vm_compute; reflexivity | vm_compute; reflexivity | vm_compute; reflexivity
    | vm_compute; reflexivity | vm_compute; reflexivity
    | apply pool_wfb_correct; vm_compute; reflexivity
    | vm_compute; reflexivity | vm_compute; reflexivity | vm_compute; lia | ].
  exists t', g'. split; [exact HG|]. split; [exact Hgs|]. split; [exact Hl|].
  split; [exact Hm|]. split; [exact Hn|].
  unfold bit_real, bit_cache. rewrite Hrb, Hcb. split; reflexivity.
Defined.

(* ------------------------------------------------------------------------- *)
(** ** The removal on the direct path *)

(** Lines 170-180 of [Get] on a consistent unread pool, for an id that is in
    the pool but not in its last slot: the index of the id is cleared and
    [unreadFileNum] drops by one, but the id stays in its slot, which is
    still among the occupied ones, since the index is one more than the slot
    and is used as the slot; the pool is no longer consistent. *)
Theorem Get_removeUnread_leaves_slot (g : DLTGroup) (tempId slot : N) :
  pool_wf (unread_pool g) ->
  unreadFiles g !! N.to_nat slot = Some tempId ->
  slot + 1 < unreadFileNum g ->
  exists g',
    Get_removeUnread tempId g = Done tt g' /\
    unread_member g' tempId = false /\
    unreadFileNum g' = unreadFileNum g - 1 /\
    slot < unreadFileNum g' /\
    unreadFiles g' !! N.to_nat slot = Some tempId /\
    ~ pool_wf (unread_pool g').
Proof.
  intros Hwf Hid Hslot.
  pose proof Hwf as (Hle & Hmod & Hfi & Hif).
  destruct g. unfold unread_pool in *. simpl in *.
  assert (Hidx_id : unreadFilesIndexs0 !! N.to_nat tempId = Some (slot + 1))
    by (apply Hfi; [lia|done]).
  assert (Hlast : exists L, unreadFiles0 !! N.to_nat (unreadFileNum0 - 1) = Some L).
  { apply lookup_lt_is_Some. lia. }
  destruct Hlast as [L HL].
  assert (HidxL : unreadFilesIndexs0 !! N.to_nat L = Some unreadFileNum0).
  { rewrite (Hfi (unreadFileNum0 - 1) L) by (lia || done). f_equal. lia. }
  apply lookup_lt_Some in Hidx_id as Hin_id.
  apply lookup_lt_Some in HidxL as HinL.
  assert (Hbroken : forall files idx,
            idx !! N.to_nat tempId = Some 0 ->
            files !! N.to_nat slot = Some tempId ->
            ~ pool_wf {| p_files := files; p_index := idx;
                         p_num := unreadFileNum0 - 1 |}).
  { intros files idx Hi0 Hf (_ & _ & Hfi' & _). simpl in *.
    specialize (Hfi' slot tempId ltac:(lia) Hf). rewrite Hi0 in Hfi'.
    injection Hfi'. lia. }
  unfold Get_removeUnread, unread_member. unfold_monad. simpl.
  rewrite Hidx_id. simpl.
  destruct (N.eqb_spec (slot + 1) 0); [lia|]. simpl.
  rewrite u32_dec_pos by lia.
  destruct (N.eqb_spec (slot + 1) (unreadFileNum0 - 1)) as [He|Hne]; simpl.
  - rewrite (ltb_nat_true _ _ Hin_id). simpl.
    rewrite u32_dec_pos by lia. eexists. split; [reflexivity|]. simpl.
    rewrite list_lookup_insert_eq by done. simpl.
    split; [done|]. split; [done|]. split; [lia|]. split; [done|].
    apply Hbroken; [by apply list_lookup_insert_eq|done].
  - rewrite HL. simpl.
    assert (Hlt : (N.to_nat (slot + 1) < length unreadFiles0)%nat) by lia.
    rewrite (ltb_nat_true _ _ Hlt). simpl.
    rewrite list_lookup_insert_ne by lia. rewrite HL. simpl.
    rewrite (ltb_nat_true _ _ HinL). simpl.
    rewrite length_insert. rewrite (ltb_nat_true _ _ Hin_id). simpl.
    rewrite u32_dec_pos by lia. eexists. split; [reflexivity|]. simpl.
    rewrite list_lookup_insert_eq by (by rewrite length_insert). simpl.
    split; [done|]. split; [done|]. split; [lia|].
    assert (Hs : <[N.to_nat (slot + 1) := L]> unreadFiles0 !! N.to_nat slot
                 = Some tempId) by (by rewrite list_lookup_insert_ne by lia).
    split; [done|].
    apply Hbroken; [|done].
    apply list_lookup_insert_eq. by rewrite length_insert.
Qed.

Lemma Get_removeUnread_leaves_slot_witness :
  let g := final (addUnreadedFile 1 (final (addUnreadedFile 2
             (set_unreadFileNum 0 (fresh_group (one_group 3 1 0)))))) in
  unreadFiles g !! 0%nat = Some 2 /\ unreadFileNum g = 2 /\
  exists g',
    Get_removeUnread 2 g = Done tt g' /\
    unread_member g' 2 = false /\
    unreadFileNum g' = unreadFileNum g - 1 /\
    0 < unreadFileNum g' /\
    unreadFiles g' !! N.to_nat 0 = Some 2 /\
    ~ pool_wf (unread_pool g').
Proof.
  intros g. split; [vm_compute; reflexivity|]. split; [vm_compute; reflexivity|].
  apply (Get_removeUnread_leaves_slot g 2 0).
  - apply pool_wfb_correct. vm_compute. reflexivity.
  - vm_compute. reflexivity.
  - vm_compute. reflexivity.
Defined.

(* ------------------------------------------------------------------------- *)
(** ** What [Get] can return *)

Lemma getRandomCachedFile_ok (r : N) (g g' : DLTGroup) (id : N) (ok : bool) :
  getRandomCachedFile r g = Done (id, ok) g' -> ok = true.
Proof.
  unfold getRandomCachedFile. intros H.
  apply bind_Done_inv in H as (c & g1 & _ & H).
  destruct (c =? 0); [done|].
  apply bind_Done_inv in H as (f & g2 & _ & H).
  apply bind_Done_inv in H as (u & g3 & _ & H).
  unfold ret in H. by simplify_eq.
Qed.

Lemma getRandomUnreadedFile_ok (r : N) (g g' : DLTGroup) (id : N) (ok : bool) :
  getRandomUnreadedFile r g = Done (id, ok) g' ->
  unreadFileNum g ≠ 0 -> ok = true.
Proof.
  unfold getRandomUnreadedFile. intros H Hu.
  unfold bind at 1 in H. unfold gets at 1 in H.
  destruct (N.eqb_spec (unreadFileNum g) 0); [done|].
  apply bind_Done_inv in H as (f & g2 & _ & H).
  apply bind_Done_inv in H as (u1 & g3 & _ & H).
  apply bind_Done_inv in H as (u2 & g4 & _ & H).
  apply bind_Done_inv in H as (u3 & g5 & _ & H).
  apply bind_Done_inv in H as (u4 & g6 & _ & H).
  unfold ret in H. by simplify_eq.
Qed.

Lemma pickCachedFile_inl (r fileId : N) (g g' : DLTGroup) (x : N + Error) :
  pickCachedFile r fileId g = Done x g' -> exists k, x = inl k.
Proof.
  assert (Hr : forall g,
            (p <~ getRandomCachedFile r ;;
             if snd p then ret (inl (fst p))
             else ret (inr ErrCantGetCachedFile) : M DLTGroup (N + Error)) g
            = Done x g' -> exists k, x = inl k).
  { intros g0 H. apply bind_Done_inv in H as ([id ok] & g1 & H1 & H).
    apply getRandomCachedFile_ok in H1 as ->. simpl in H.
    unfold ret in H. simplify_eq. eauto. }
  unfold pickCachedFile. intros H.
  apply bind_Done_inv in H as (consumed & g1 & _ & H).
  destruct consumed; [by eapply Hr|].
  apply bind_Done_inv in H as (val & g2 & _ & H).
  destruct (val =? 0); [by eapply Hr|].
  apply bind_Done_inv in H as (u & g3 & _ & H).
  unfold ret in H. simplify_eq. eauto.
Qed.

(** [getFileFromCache] returns a node and no error, or no node and the error
    of line 251. *)
Lemma getFileFromCache_result (cache : gmap N FileNode) (r fileId : N)
    (g g' : DLTGroup) (n : option FileNode) (e : option Error) :
  getFileFromCache cache r fileId g = Done (n, e) g' ->
  (is_Some n /\ e = None) \/
  (n = None /\ exists k, e = Some (ErrMarkedNotCached k)).
Proof.
  unfold getFileFromCache. intros H.
  apply bind_Done_inv in H as (pick & g1 & Hp & H).
  apply pickCachedFile_inl in Hp as [k ->].
  destruct (cache !! k); unfold ret in H; simplify_eq; eauto.
Qed.

(** The errors that the first section of [Get] can return for [fileId]. *)
Lemma Get_locked_result (cache : gmap N FileNode) (r fileId : N)
    (g g' : DLTGroup) (n : option FileNode) (c : ErrorCode) (e : option Error) :
  Get_locked cache r fileId g = Done (LReturn (n, c, e)) g' ->
  (is_Some n /\ c = CODE_OK /\ e = None) \/
  (n = None /\ c = CODE_EMPTY /\
   (e = Some (ErrReadAgain fileId) \/ e = Some (ErrNoUnreadFile fileId) \/
    exists k, e = Some (ErrMarkedNotCached k))).
Proof.
  unfold Get_locked. intros H.
  apply bind_Done_inv in H as (readed & g1 & _ & H).
  destruct readed; [unfold ret in H; simplify_eq; right; eauto|].
  apply bind_Done_inv in H as (cn & g2 & _ & H).
  destruct (0 <? cn).
  - apply bind_Done_inv in H as ([n' e'] & g3 & Hget & H).
    apply getFileFromCache_result in Hget as [[[node ->] ->]|[-> [k ->]]].
    + apply bind_Done_inv in H as (u1 & g4 & _ & H).
      apply bind_Done_inv in H as (u2 & g5 & _ & H).
      unfold ret in H. simplify_eq. left. eauto.
    + unfold ret in H. simplify_eq. right. eauto 6.
  - unfold bind at 1 in H. unfold gets at 1 in H.
    destruct (N.ltb_spec 0 (unreadFileNum g2)) as [Hu|Hu].
    + apply bind_Done_inv in H as (consumed & g3 & Hc & H).
      assert (g3 = g2) as ->.
      { unfold cache_Get in Hc. destruct (readedFilesCache g2); by simplify_eq. }
      apply bind_Done_inv in H as ([id ok] & g4 & Hp & H).
      assert (ok = true) as ->.
      { destruct consumed.
        - eapply getRandomUnreadedFile_ok; [done|lia].
        - unfold ret in Hp. by simplify_eq. }
      simpl in H.
      apply bind_Done_inv in H as (u1 & g5 & _ & H).
      apply bind_Done_inv in H as (u2 & g6 & _ & H).
      apply bind_Done_inv in H as (u3 & g7 & _ & H).
      unfold ret in H. simplify_eq.
    + apply bind_Done_inv in H as (pre & g3 & _ & H).
      destruct (0 <? pre); unfold ret in H; simplify_eq. right. eauto.
Qed.

Lemma Get_enter_group_result (cache : gmap N FileNode) (r fileId : N)
    (g g' : DLTGroup) (l : Locked) :
  Get_enter_group cache r fileId g = Done l g' ->
  exists g1 g2, Get_locked cache r fileId g1 = Done l g2.
Proof.
  unfold Get_enter_group. intros H.
  apply bind_Done_inv in H as (u & g1 & _ & H).
  apply on_panic_Unlock_Done in H.
  apply bind_Done_inv in H as (l' & g2 & Hl & H).
  exists g1, g2.
  assert (l' = l); [|by subst].
  destruct l'.
  - apply bind_Done_inv in H as (u1 & g3 & _ & H). unfold ret in H. by simplify_eq.
  - apply bind_Done_inv in H as (u1 & g3 & _ & H). unfold ret in H. by simplify_eq.
  - apply bind_Done_inv in H as (u1 & g3 & _ & H).
    apply bind_Done_inv in H as (u2 & g4 & _ & H).
    apply bind_Done_inv in H as (u3 & g5 & _ & H). unfold ret in H. by simplify_eq.
Qed.

(** How the first section of [Get] can end when it returns. *)
Lemma Get_enter_result (r : N) (fileName : string) (t t' : DLT) (st : GetState) :
  Get_enter r fileName t = Done st t' ->
  (inited t = false /\ st = Returned (None, CODE_DLT_NOT_INIT, None) /\ t' = t) \/
  (inited t = true /\ GetFileId (dataset t) fileName = None /\
   st = Returned (None, CODE_NOT_FOUND, None) /\ t' = t) \/
  (inited t = true /\ exists fileId,
     GetFileId (dataset t) fileName = Some fileId /\
     match st with
     | Returned (n, c, e) =>
         (is_Some n /\ c = CODE_OK /\ e = None) \/
         (n = None /\ c = CODE_EMPTY /\
          (e = Some (ErrReadAgain fileId) \/ e = Some (ErrNoUnreadFile fileId) \/
           exists k, e = Some (ErrMarkedNotCached k)))
     | AwaitBackend groupId req =>
         groupId = fileIdToGroups (dataset t) fileId
     | AwaitCond groupId fileId' =>
         groupId = fileIdToGroups (dataset t) fileId /\ fileId' = fileId
     end).
Proof.
  unfold Get_enter. destruct (inited t); simpl;
    [|intros [= <- <-]; by left].
  destruct (GetFileId (dataset t) fileName) as [fileId|];
    [|intros [= <- <-]; right; by left].
  intros H. right. right. split; [done|]. exists fileId. split; [done|].
  apply bind_Done_inv in H as (l & t1 & Hl & H).
  apply on_group_Done_inv in Hl as (g & g' & _ & Hl & _).
  apply Get_enter_group_result in Hl as (g1 & g2 & Hl).
  destruct l as [[[n c] e]|tempId|].
  - unfold ret in H. simplify_eq. by eapply Get_locked_result.
  - apply bind_Done_inv in H as (grp & t2 & _ & H). unfold ret in H.
    by simplify_eq.
  - unfold ret in H. by simplify_eq.
Qed.

(** How the second section of [Get] can end when it returns. *)
Lemma Get_fetched_result (gid tempId : N)
    (fetched : option FileNode * option Error) (t t' : DLT) (res : GetResult) :
  Get_fetched gid tempId fetched t = Done res t' ->
  match snd fetched with
  | Some e => res = (None, CODE_EMPTY, Some e)
  | None => res = (fst fetched, CODE_EMPTY, None)
  end.
Proof.
  unfold Get_fetched. destruct fetched as [node [e|]]; simpl.
  - unfold ret. by intros [= <- _].
  - intros H. apply bind_Done_inv in H as (grp & t1 & _ & H).
    destruct (cachedSize grp <=? allowCacheSize grp);
      [|unfold ret in H; by simplify_eq].
    apply bind_Done_inv in H as (u & t2 & _ & H).
    unfold deferred_Unlock_at in H.
    match type of H with context [match ?m t2 with _ => _ end] =>
      destruct (m t2) as [a t3| |] eqn:E end; [|done|done].
    apply bind_Done_inv in H as (u1 & t4 & _ & H). unfold ret in H.
    simplify_eq.
    apply bind_Done_inv in E as (u2 & t5 & _ & E).
    apply bind_Done_inv in E as (u3 & t6 & _ & E). unfold ret in E.
    by simplify_eq.
Qed.

(** How the third section of [Get] can end when it returns. *)
Lemma Get_woken_result (r gid fileId : N) (t t' : DLT)
    (n : option FileNode) (c : ErrorCode) (e : option Error) :
  Get_woken r gid fileId t = Done (n, c, e) t' ->
  c = CODE_EMPTY /\
  ((is_Some n /\ e = None) \/
   (n = None /\ exists k, e = Some (ErrMarkedNotCached k))).
Proof.
  unfold Get_woken. intros H.
  apply on_group_Done_inv in H as (g & g' & _ & H & _).
  apply bind_Done_inv in H as (u & g1 & _ & H).
  apply on_panic_Unlock_Done in H.
  apply bind_Done_inv in H as (res & g2 & Hr & H).
  apply bind_Done_inv in H as (u1 & g3 & _ & H). unfold ret in H. simplify_eq.
  unfold Get_relocked in Hr.
  apply bind_Done_inv in Hr as (w & g4 & _ & H).
  apply bind_Done_inv in H as (u2 & g5 & _ & H).
  apply bind_Done_inv in H as ([n' e'] & g6 & Hget & H).
  apply getFileFromCache_result in Hget as [[[node ->] ->]|[-> [k ->]]].
  - apply bind_Done_inv in H as (u3 & g7 & _ & H).
    apply bind_Done_inv in H as (u4 & g8 & _ & H).
    unfold ret in H. simplify_eq. split; [done|]. left. eauto.
  - unfold ret in H. simplify_eq. split; [done|]. right. eauto.
Qed.

(** What a call of [Get] that returns can return.  [CODE_DLT_NOT_INIT] and
    [CODE_NOT_FOUND] come with no node and no error, from a table that is
    not initialised and for a name that the dataset does not know, and leave
    the table as it is.  [CODE_OK] comes with a node and no error.  An error
    comes with no node and [CODE_EMPTY], and is the one of line 132, of line
    223 or of line 251, or the error of the backend: the errors of lines
    142, 160, 214, 237 and 242 are never returned. *)
Theorem Get_results
    (backend : Fetch -> option FileNode * option Error)
    (r : N) (fileName : string) (t t' : DLT)
    (node : option FileNode) (code : ErrorCode) (err : option Error) :
  Get backend r fileName t = Done (node, code, err) t' ->
  match code with
  | CODE_DLT_NOT_INIT => inited t = false /\ node = None /\ err = None /\ t' = t
  | CODE_NOT_FOUND =>
      inited t = true /\ GetFileId (dataset t) fileName = None /\
      node = None /\ err = None /\ t' = t
  | CODE_OK =>
      inited t = true /\ is_Some (GetFileId (dataset t) fileName) /\
      is_Some node /\ err = None
  | CODE_EMPTY =>
      inited t = true /\
      exists fileId, GetFileId (dataset t) fileName = Some fileId /\
        match err with
        | None => True
        | Some e =>
            node = None /\
            (e = ErrReadAgain fileId \/ e = ErrNoUnreadFile fileId \/
             (exists k, e = ErrMarkedNotCached k) \/
             (exists req, snd (backend req) = Some e))
        end
  end.
Proof.
  unfold Get. intros H.
  apply bind_Done_inv in H as (st & t1 & Hst & H).
  apply Get_enter_result in Hst
    as [(Hi & -> & ->)|[(Hi & Hn & -> & ->)|(Hi & fileId & Hn & Hst)]].
  - unfold ret in H. by simplify_eq.
  - unfold ret in H. by simplify_eq.
  - destruct st as [[[n c] e]|gid req|gid fileId'].
    + unfold ret in H. simplify_eq.
      destruct Hst as [(Hnode & -> & ->)|(-> & -> & He)].
      * split; [done|]. split; [by rewrite Hn|]. done.
      * split; [done|]. exists fileId. split; [done|].
        destruct He as [->|[->|[k ->]]]; split; eauto.
    + apply Get_fetched_result in H.
      destruct (backend req) as [n [e|]] eqn:Eb; simpl in H; simplify_eq.
      * split; [done|]. exists fileId. split; [done|]. split; [done|].
        right. right. right. exists req. by rewrite Eb.
      * split; [done|]. by exists fileId.
    + apply Get_woken_result in H as [-> [[Hnode ->]|[-> [k ->]]]].
      * split; [done|]. by exists fileId.
      * split; [done|]. exists fileId. split; [done|]. split; eauto.
Qed.

Lemma Get_results_witness :
  let grp := one_group 3 1 0 in
  let t := final (init (fun _ => true) (one_group_dataset grp ∅) (new_table grp ∅)) in
  let t1 := final (Get plain_backend 7 "1" t) in
  let t2 := final (Get plain_backend 7 "1" t1) in
  Get plain_backend 7 "1" t1 = Done (None, CODE_EMPTY, Some (ErrReadAgain 0)) t2 /\
  inited t1 = true /\
  exists fileId, GetFileId (dataset t1) "1" = Some fileId /\
    (None : option FileNode) = None /\
    (ErrReadAgain 0 = ErrReadAgain fileId \/ ErrReadAgain 0 = ErrNoUnreadFile fileId \/
     (exists k, ErrReadAgain 0 = ErrMarkedNotCached k) \/
     (exists req, snd (plain_backend req) = Some (ErrReadAgain 0))).
Proof.
  intros grp t t1 t2.
  assert (H : Get plain_backend 7 "1" t1
              = Done (None, CODE_EMPTY, Some (ErrReadAgain 0)) t2)
    by (vm_compute; reflexivity).
  split; [exact H|].
  exact (Get_results plain_backend 7 "1" t1 t2 None CODE_EMPTY
           (Some (ErrReadAgain 0)) H).
Defined.

(* ------------------------------------------------------------------------- *)
(** ** The outcomes of [init] *)

Lemma init_group_ok (mem : N -> bool) (ds : Dataset) (i : N) (t : DLT)
    (grp : Group) :
  groups t !! N.to_nat i = Some zeroGroup ->
  ds_groups ds !! N.to_nat i = Some grp ->
  mem (grp_fileNum grp) = true ->
  init_group mem ds i t =
    Done None (set_groups (<[N.to_nat i := fresh_group grp]> (groups t)) t).
Proof.
  intros Hz Hgrp Hm. unfold init_group.
  assert (Hlt : (N.to_nat i < length (groups t))%nat) by by eapply lookup_lt_Some.
  unfold bind at 1. rewrite (on_group_at _ _ _ _ Hz). simpl. rewrite Hgrp.
  unfold bind at 1. erewrite on_group_at; last by (simpl; apply list_lookup_insert_eq).
  simpl. unfold NewBitMap. rewrite Hm.
  unfold bind at 1. erewrite on_group_at;
    last by (simpl; apply list_lookup_insert_eq; rewrite length_insert).
  simpl. unfold bind at 1. erewrite on_group_at;
    last by (simpl; apply list_lookup_insert_eq; rewrite !length_insert).
  simpl. unfold ret, set_groups. simpl. by rewrite !list_insert_insert_eq.
Qed.

Lemma init_group_error (mem : N -> bool) (ds : Dataset) (i : N) (t t' : DLT)
    (e : Error) :
  init_group mem ds i t = Done (Some e) t' ->
  e = ErrAlloc /\ inited t' = inited t /\ dataset t' = dataset t /\
  exists grp, ds_groups ds !! N.to_nat i = Some grp /\
              mem (grp_fileNum grp) = false.
Proof.
  unfold init_group. intros H.
  apply bind_Done_inv in H as (u & t1 & H1 & H).
  apply on_group_Done_inv in H1 as (g1 & g1' & _ & _ & ->).
  destruct (ds_groups ds !! N.to_nat i) as [grp|]; [|done].
  apply bind_Done_inv in H as (u2 & t2 & H2 & H).
  apply on_group_Done_inv in H2 as (g2 & g2' & _ & _ & ->).
  unfold NewBitMap in H. destruct (mem (grp_fileNum grp)) eqn:Em.
  - apply bind_Done_inv in H as (u3 & t3 & H3 & H).
    apply bind_Done_inv in H as (u4 & t4 & H4 & H). unfold ret in H. done.
  - unfold ret in H. simplify_eq. simpl. eauto 6.
Qed.

Lemma init_loop_ok (mem : N -> bool) (ds : Dataset) (n : nat) :
  forall (i : N) (t : DLT),
    i + N.of_nat n < modulus ->
    (N.to_nat i + n <= length (ds_groups ds))%nat ->
    (forall grp, grp ∈ take (N.to_nat i + n) (ds_groups ds) ->
                 mem (grp_fileNum grp) = true) ->
    groups t =
      (fresh_group <$> take (N.to_nat i) (ds_groups ds)) ++ replicate n zeroGroup ->
    init_loop mem ds n i t =
      Done None
        (set_groups (fresh_group <$> take (N.to_nat i + n) (ds_groups ds)) t).
Proof.
  induction n as [|n IH]; intros i t Hi Hlen Hmem Hg; simpl.
  - rewrite Nat.add_0_r. rewrite <- (app_nil_r (_ <$> _)).
    change (@nil DLTGroup) with (replicate 0 zeroGroup).
    rewrite <- Hg. by rewrite set_groups_id.
  - assert (Hlk : length (take (N.to_nat i) (ds_groups ds)) = N.to_nat i)
      by (rewrite length_take; lia).
    assert (Hz : groups t !! N.to_nat i = Some zeroGroup).
    { rewrite Hg, lookup_app_r; rewrite length_fmap, Hlk; [|lia].
      by rewrite Nat.sub_diag. }
    assert (Hgrp : exists grp, ds_groups ds !! N.to_nat i = Some grp).
    { apply lookup_lt_is_Some. lia. }
    destruct Hgrp as [grp Hgrp].
    assert (Hm : mem (grp_fileNum grp) = true).
    { apply Hmem. apply list_elem_of_lookup. exists (N.to_nat i).
      rewrite lookup_take_lt by lia. done. }
    unfold bind. rewrite (init_group_ok _ _ _ _ grp Hz Hgrp Hm).
    assert (Hi1 : N.to_nat (u32_inc i) = S (N.to_nat i)).
    { rewrite u32_inc_small; lia. }
    assert (Htk : take (S (N.to_nat i)) (ds_groups ds)
                  = take (N.to_nat i) (ds_groups ds) ++ [grp])
      by by apply take_S_r.
    rewrite IH.
    + rewrite Hi1. replace (S (N.to_nat i) + n)%nat with (N.to_nat i + S n)%nat by lia.
      by destruct t.
    + rewrite u32_inc_small; lia.
    + rewrite Hi1. lia.
    + rewrite Hi1. replace (S (N.to_nat i) + n)%nat with (N.to_nat i + S n)%nat by lia.
      done.
    + rewrite Hi1, Htk. simpl. rewrite Hg, fmap_app. simpl.
      rewrite <- (assoc_L (++)). simpl.
      rewrite insert_app_r_alt; rewrite length_fmap, Hlk; [|lia].
      by rewrite Nat.sub_diag.
Qed.

(** [init] succeeds when the dataset has the partitions it announces and the
    two bitmaps of each of them can be allocated: it returns [nil], the table
    is initialised, and its groups are the fresh groups of the partitions, in
    order.  [groupNum] is a [uint32]. *)
Theorem init_succeeds (mem : N -> bool) (ds : Dataset) (t : DLT) :
  groupNum ds < modulus ->
  (N.to_nat (groupNum ds) <= length (ds_groups ds))%nat ->
  (forall grp, grp ∈ take (N.to_nat (groupNum ds)) (ds_groups ds) ->
               mem (grp_fileNum grp) = true) ->
  init mem ds t =
    Done None
      (set_inited true
         (set_groups (fresh_group <$> take (N.to_nat (groupNum ds)) (ds_groups ds))
            t)).
Proof.
  intros Hn Hlen Hmem. unfold init.
  unfold bind at 1. unfold modify at 1.
  unfold bind at 1. rewrite init_loop_ok; simpl; try done; lia.
Qed.

Lemma init_succeeds_witness :
  let grp := one_group 3 1 0 in
  let t := new_table grp ∅ in
  init (fun n => n <? 10) (one_group_dataset grp ∅) t =
    Done None (set_inited true (set_groups [fresh_group grp] t)).
Proof.
  intros grp t.
  apply (init_succeeds (fun n => n <? 10) (one_group_dataset grp ∅) t).
  - vm_compute. reflexivity.
  - simpl. lia.
  - intros g Hg. apply list_elem_of_singleton in Hg. subst g.
    vm_compute. reflexivity.
Defined.

Lemma init_loop_error (mem : N -> bool) (ds : Dataset) (n : nat) :
  forall (i : N) (t t' : DLT) (e : Error),
    i + N.of_nat n < modulus ->
    length (take (N.to_nat i) (ds_groups ds)) = N.to_nat i ->
    groups t =
      (fresh_group <$> take (N.to_nat i) (ds_groups ds)) ++ replicate n zeroGroup ->
    init_loop mem ds n i t = Done (Some e) t' ->
    e = ErrAlloc /\ inited t' = inited t /\ dataset t' = dataset t /\
    exists j grp, (N.to_nat i <= j < N.to_nat i + n)%nat /\
      ds_groups ds !! j = Some grp /\ mem (grp_fileNum grp) = false.
Proof.
  induction n as [|n IH]; intros i t t' e Hi Hlen Hg; simpl; [done|].
  intros H. apply bind_Done_inv in H as (e1 & t1 & H1 & H2).
  destruct e1 as [err|].
  - unfold ret in H2. simplify_eq.
    apply init_group_error in H1 as (-> & Hin & Hd & grp & Hgrp & Hm).
    repeat split; try done. exists (N.to_nat i), grp. split; [lia|done].
  - assert (Hz : groups t !! N.to_nat i = Some zeroGroup).
    { rewrite Hg, lookup_app_r; rewrite length_fmap, Hlen; [|lia].
      by rewrite Nat.sub_diag. }
    destruct (init_group_Done _ _ _ _ _ Hz H1) as (grp & Hgrp & _ & ->).
    assert (Hi1 : N.to_nat (u32_inc i) = S (N.to_nat i)).
    { rewrite u32_inc_small; lia. }
    assert (Htk : take (S (N.to_nat i)) (ds_groups ds)
                  = take (N.to_nat i) (ds_groups ds) ++ [grp])
      by by apply take_S_r.
    apply IH in H2 as (-> & Hin & Hd & j & grp' & Hj & Hgrp' & Hm).
    + repeat split; try done. exists j, grp'. split; [lia|done].
    + rewrite u32_inc_small; lia.
    + rewrite Hi1, Htk, length_app, Hlen. simpl. lia.
    + rewrite Hi1, Htk. simpl. rewrite Hg, fmap_app. simpl.
      rewrite <- (assoc_L (++)). simpl.
      rewrite insert_app_r_alt; rewrite length_fmap, Hlen; [|lia].
      by rewrite Nat.sub_diag.
Qed.

(** When [init] returns an error, it is the error of an allocation of a
    bitmap for one of the announced partitions, and the table is left not
    initialised if it was not: [inited] and the dataset are as before, so
    that [Get] answers [CODE_DLT_NOT_INIT]. *)
Theorem init_error_leaves_uninitialised
    (mem : N -> bool) (ds : Dataset) (t t' : DLT) (e : Error) :
  groupNum ds < modulus ->
  init mem ds t = Done (Some e) t' ->
  e = ErrAlloc /\ inited t' = inited t /\ dataset t' = dataset t /\
  (exists j grp, (j < N.to_nat (groupNum ds))%nat /\
     ds_groups ds !! j = Some grp /\ mem (grp_fileNum grp) = false) /\
  forall backend r fileName,
    inited t = false ->
    Get backend r fileName t' = Done (None, CODE_DLT_NOT_INIT, None) t'.
Proof.
  intros Hn H. unfold init in H.
  apply bind_Done_inv in H as ([] & t1 & [= <-] & H).
  apply bind_Done_inv in H as (e1 & t2 & H1 & H2).
  destruct e1 as [err|];
    [|apply bind_Done_inv in H2 as (u & t3 & _ & H2); unfold ret in H2; done].
  unfold ret in H2. simplify_eq.
  apply init_loop_error in H1 as (-> & Hin & Hd & j & grp & Hj & Hgrp & Hm);
    simpl in *; try done; try lia.
  split; [done|]. split; [done|]. split; [done|].
  split; [exists j, grp; split; [lia|done]|].
  intros backend r fileName Hi. unfold Get, bind, Get_enter.
  by rewrite Hin, Hi.
Qed.

Lemma init_error_leaves_uninitialised_witness :
  let grp := one_group 3 1 0 in
  let t := new_table grp ∅ in
  let t' := final (init (fun n => n <? 2) (one_group_dataset grp ∅) t) in
  init (fun n => n <? 2) (one_group_dataset grp ∅) t = Done (Some ErrAlloc) t' /\
  inited t' = false /\
  Get plain_backend 7 "1" t' = Done (None, CODE_DLT_NOT_INIT, None) t'.
Proof.
  intros grp t t'.
  assert (H : init (fun n => n <? 2) (one_group_dataset grp ∅) t
              = Done (Some ErrAlloc) t') by (vm_compute; reflexivity).
  split; [exact H|].
  destruct (init_error_leaves_uninitialised (fun n => n <? 2)
              (one_group_dataset grp ∅) t t' ErrAlloc)
    as (_ & Hin & _ & _ & HG); [vm_compute; reflexivity|exact H|].
  split; [rewrite Hin; reflexivity|].
  apply HG. reflexivity.
Defined.

(* ------------------------------------------------------------------------- *)
(** ** A consumed file *)

Lemma addUnreadedFile_consumed (g : DLTGroup) (fileId : N) :
  bit_cache g fileId = true -> final (addUnreadedFile fileId g) = g.
Proof.
  unfold bit_cache. intros Hb. destruct (readedFilesCache g) as [cb|] eqn:Ec; [|done].
  unfold addUnreadedFile, bind, slice_get, cache_Get.
  destruct (unreadFilesIndexs g !! N.to_nat fileId) as [index|]; [|done].
  destruct (negb (index =? 0)); [done|]. by rewrite Ec, Hb.
Qed.

Lemma addFileToCache_consumed_log (g : DLTGroup) (node : FileNode) :
  bit_cache g (node_fileId node) = true ->
  exists n log,
    final (addFileToCache node g) =
      set_readedCachedFileNum n (set_readedCachedFiles log g).
Proof.
  unfold bit_cache. intros Hb.
  assert (Hid : g = set_readedCachedFileNum (readedCachedFileNum g)
                      (set_readedCachedFiles (readedCachedFiles g) g))
    by by destruct g.
  destruct (readedFilesCache g) as [cb|] eqn:Ec; [|done].
  unfold addFileToCache. unfold bind at 1. unfold cache_Get. rewrite Ec, Hb.
  unfold_monad.
  destruct (readedCachedFiles g !! N.to_nat (node_fileId node)) as [v|];
    [|simpl; eauto].
  destruct (v =? 0); [|simpl; eauto].
  destruct (N.to_nat (node_fileId node) <? length (readedCachedFiles g))%nat;
    simpl; eauto.
Qed.

Lemma addFileToCache_consumed (g : DLTGroup) (node : FileNode) :
  bit_cache g (node_fileId node) = true ->
  unread_pool (final (addFileToCache node g)) = unread_pool g /\
  cached_pool (final (addFileToCache node g)) = cached_pool g /\
  prereadFileNum (final (addFileToCache node g)) = prereadFileNum g /\
  cond (final (addFileToCache node g)) = cond g /\
  readedFilesReal (final (addFileToCache node g)) = readedFilesReal g /\
  readedFilesCache (final (addFileToCache node g)) = readedFilesCache g.
Proof.
  intros Hb. destruct (addFileToCache_consumed_log g node Hb) as (n & log & ->).
  done.
Qed.

Lemma consumed_run (gid fileId : N) (acts : list Action) (t : DLT) :
  all_groups (fun i g => i = gid -> bit_cache g fileId = true) t ->
  all_groups (fun i g => i = gid -> bit_cache g fileId = true) (run acts t).
Proof.
  assert (Hlift : forall {A} i (m : M DLTGroup A),
            preserves (fun g => bit_cache g fileId = true) m ->
            preserves (fun g => i = gid -> bit_cache g fileId = true) m).
  { intros A i m Hm g Hg Hi. apply Hm. by apply Hg. }
  assert (Hcache : forall id b g,
            bit_cache g fileId = true -> readedFilesCache g = Some b ->
            bit_cache (set_readedFilesCache (Some (BitMap_Set b id)) g) fileId
            = true).
  { unfold bit_cache. intros id b g Hb Hc. simpl. rewrite Hc in Hb.
    by apply BitMap_Get_Set_mono. }
  assert (Hpick : forall r id,
            preserves (fun g => bit_cache g fileId = true) (pickCachedFile r id)).
  { intros. by apply preserves_pickCachedFile. }
  apply all_groups_run; intros i; intros; apply Hlift.
  - by apply pick_Get_enter_group.
  - by apply pick_Get_fetched_group.
  - by apply pick_Get_woken_group.
  - by apply preserves_addUnreadedFile.
  - by apply preserves_addFileToCache.
Qed.

(** Once the consumed bit of a file is set in its group it stays set through
    every interleaving of the sections of [Get] and of the calls of the
    producer; and from then on the producer cannot offer the file again:
    [addUnreadedFile] for it leaves the group as it is, and [addFileToCache]
    for it changes neither pool, nor the in-flight counter, and signals
    nobody. *)
Theorem consumed_file_is_not_offered_again
    (t : DLT) (acts : list Action) (gid fileId : N) (g : DLTGroup)
    (node : FileNode) :
  (forall g0, groups t !! N.to_nat gid = Some g0 -> bit_cache g0 fileId = true) ->
  groups (run acts t) !! N.to_nat gid = Some g ->
  node_fileId node = fileId ->
  bit_cache g fileId = true /\
  final (addUnreadedFile fileId g) = g /\
  unread_pool (final (addFileToCache node g)) = unread_pool g /\
  cached_pool (final (addFileToCache node g)) = cached_pool g /\
  prereadFileNum (final (addFileToCache node g)) = prereadFileNum g /\
  cond (final (addFileToCache node g)) = cond g.
Proof.
  intros Ht Hg Hnode.
  assert (Hb : bit_cache g fileId = true).
  { apply (consumed_run gid fileId acts t) with (gid := gid); [|done|done].
    intros i g0 Hg0 ->. by apply Ht. }
  split; [done|]. split; [by apply addUnreadedFile_consumed|].
  rewrite <- Hnode in Hb.
  destruct (addFileToCache_consumed g node Hb) as (H1 & H2 & H3 & H4 & _).
  done.
Qed.

Lemma consumed_file_is_not_offered_again_witness :
  let grp := one_group 3 1 0 in
  let t0 := final (init (fun _ => true) (one_group_dataset grp ∅) (new_table grp ∅)) in
  let t := final (Get plain_backend 7 "2" t0) in
  let acts := [AaddFileToCache 0 {| fileId := 2; content := "c" |};
               AGet_enter 5 "1"] in
  let node := {| fileId := 1; content := "b" |} in
  exists g, groups (run acts t) !! 0%nat = Some g /\
    bit_cache g 1 = true /\
    final (addUnreadedFile 1 g) = g /\
    unread_pool (final (addFileToCache node g)) = unread_pool g /\
    cached_pool (final (addFileToCache node g)) = cached_pool g /\
    prereadFileNum (final (addFileToCache node g)) = prereadFileNum g /\
    cond (final (addFileToCache node g)) = cond g.
Proof.
  intros grp t0 t acts node.
  exists (default zeroGroup (groups (run acts t) !! 0%nat)).
  split; [vm_compute; reflexivity|].
  apply (consumed_file_is_not_offered_again t acts 0 1).
  - intros g0 Hg0. vm_compute in Hg0. injection Hg0 as <-. reflexivity.
  - vm_compute. reflexivity.
  - reflexivity.
Defined.

(* ------------------------------------------------------------------------- *)
(** ** Reading a whole partition directly *)

Lemma NoDup_below_length (l : list N) (n : N) :
  NoDup l -> (forall x, x ∈ l -> x < n) -> (length l <= N.to_nat n)%nat.
Proof.
  intros Hnd Hlt.
  assert (H : l ⊆+ (N.of_nat <$> seq 0 (N.to_nat n))).
  { apply NoDup_submseteq; [done|]. intros x Hx.
    apply list_elem_of_fmap. exists (N.to_nat x). split; [lia|].
    apply elem_of_seq. specialize (Hlt x Hx). lia. }
  apply submseteq_length in H. by rewrite length_fmap, length_seq in H.
Qed.

Section Whole_partition.

Variable backend : Fetch -> option FileNode * option Error.
Variable grp : Group.
Variable groupId : N.
Variable names : string -> option N.
Variable owner : N -> N.

(** The request is for a file of the partition that the backend serves. *)
Let servable (q : Request) : Prop :=
  names (rq_name q) = Some (rq_id q) /\ owner (rq_id q) = groupId /\
  rq_id q < grp_fileNum grp /\
  forall req, f_file req = rq_id q -> backend req = (Some (rq_node q), None).

Lemma direct_reads (reqs : list Request) :
  forall (done : list N) (t : DLT),
    table_read_directly grp groupId names owner done t ->
    NoDup ((rq_id <$> reqs) ++ done) ->
    (forall x, x ∈ done -> x < grp_fileNum grp) ->
    Forall servable reqs ->
    exists t',
      Get_all backend reqs t =
        ((fun q => (Some (rq_node q), CODE_EMPTY, None)) <$> reqs, t') /\
      table_read_directly grp groupId names owner
        (reverse (rq_id <$> reqs) ++ done) t'.
Proof.
  induction reqs as [|q rest IH]; intros done t Ht Hnd Hdone Hok; simpl.
  - exists t. split; [done|]. done.
  - apply Forall_cons in Hok as [(Hname & Hown & Hid & Hback) Hrest].
    simpl in Hnd. apply NoDup_cons in Hnd as [Hnew Hnd].
    assert (Hnew' : rq_id q ∉ done) by set_solver.
    assert (Hlen : (length done < N.to_nat (grp_fileNum grp))%nat).
    { assert (H : (length (rq_id q :: done) <= N.to_nat (grp_fileNum grp))%nat).
      { apply NoDup_below_length.
        - apply NoDup_cons. split; [done|]. by apply NoDup_app in Hnd as (_ & _ & ?).
        - intros x Hx. apply elem_of_cons in Hx as [->|Hx]; [done|by apply Hdone]. }
      simpl in H. lia. }
    destruct (direct_step backend grp groupId names owner done t (rq_rand q)
                (rq_name q) (rq_id q) (rq_node q))
      as (t1 & _ & HG & Ht1); try done.
    rewrite HG.
    destruct (IH (rq_id q :: done) t1) as (t' & Hall & Ht'); try done.
    + apply NoDup_app. apply NoDup_app in Hnd as (H1 & H2 & H3).
      split; [done|]. split.
      * intros x Hx Hx'. apply elem_of_cons in Hx' as [->|Hx'].
        -- apply Hnew. set_solver.
        -- by apply (H2 x).
      * apply NoDup_cons. split; [done|done].
    + intros x Hx. apply elem_of_cons in Hx as [->|Hx]; [done|by apply Hdone].
    + exists t'. rewrite Hall. split; [done|].
      rewrite reverse_cons, <- (assoc_L (++)). done.
Qed.

End Whole_partition.

(** After [init] and with no producer, one goroutine that asks, in any order,
    for distinct files of one partition, whatever its size, gets each of them
    from the backend through the direct path: every call returns, with the
    node that the backend serves for the file asked for and [CODE_EMPTY]; and
    afterwards a call for any of these files is refused with
    [AlreadyRequested], leaving the table as it is. *)
Theorem whole_partition_read_directly
    (mem : N -> bool) (ds : Dataset) (t0 t : DLT)
    (backend : Fetch -> option FileNode * option Error)
    (groupId : N) (grp : Group) (reqs : list Request) :
  groupNum ds < modulus ->
  init mem ds t0 = Done None t ->
  groupId < groupNum ds ->
  ds_groups ds !! N.to_nat groupId = Some grp ->
  NoDup (rq_id <$> reqs) ->
  Forall (fun q =>
            GetFileId (dataset t0) (rq_name q) = Some (rq_id q) /\
            fileIdToGroups (dataset t0) (rq_id q) = groupId /\
            rq_id q < grp_fileNum grp /\
            forall req, f_file req = rq_id q ->
                        backend req = (Some (rq_node q), None)) reqs ->
  exists t',
    Get_all backend reqs t =
      ((fun q => (Some (rq_node q), CODE_EMPTY, None)) <$> reqs, t') /\
    forall q r, q ∈ reqs ->
      Get backend r (rq_name q) t' =
        Done (None, CODE_EMPTY, Some (AlreadyRequested (rq_id q))) t'.
Proof.
  intros Hn Hinit Hi Hgrp Hnd Hok.
  destruct (init_group_at _ _ _ _ _ _ Hn Hinit Hi Hgrp) as (Hin & Hd & Hg).
  assert (H0 : table_read_directly grp groupId (GetFileId (dataset t0))
                 (fileIdToGroups (dataset t0)) [] t).
  { split; [done|]. rewrite Hd. split; [done|]. split; [done|].
    exists (fresh_group grp). split; [done|]. apply fresh_group_read_directly. }
  destruct (direct_reads backend grp groupId _ _ reqs [] t H0)
    as (t' & Hall & Ht'); try done.
  { by rewrite app_nil_r. }
  { intros x Hx. by apply elem_of_nil in Hx. }
  exists t'. split; [done|]. intros q r Hq.
  rewrite Forall_forall in Hok. destruct (Hok q Hq) as (Hname & Hown & _).
  eapply read_directly_refused; [exact Ht'|done|done|].
  rewrite app_nil_r, elem_of_reverse. apply list_elem_of_fmap. eauto.
Qed.

Lemma whole_partition_read_directly_witness :
  let grp := one_group 3 1 0 in
  let t0 := new_table grp ∅ in
  let t := final (init (fun _ => true) (one_group_dataset grp ∅) t0) in
  let node i c := {| fileId := i; content := c |} in
  let reqs := [ {| rq_rand := 4; rq_name := "3"; rq_id := 2; rq_node := node 2 "2" |};
                {| rq_rand := 9; rq_name := "1"; rq_id := 0; rq_node := node 0 "0" |} ] in
  exists t',
    Get_all plain_backend reqs t =
      ([(Some (node 2 "2"), CODE_EMPTY, None);
        (Some (node 0 "0"), CODE_EMPTY, None)], t') /\
    Get plain_backend 1 "3" t' =
      Done (None, CODE_EMPTY, Some (AlreadyRequested 2)) t'.
Proof.
  intros grp t0 t node reqs.
  destruct (whole_partition_read_directly (fun _ => true)
              (one_group_dataset grp ∅) t0 t plain_backend 0 grp reqs)
    as (t' & Hall & Hagain).
  - vm_compute. reflexivity.
  - vm_compute. reflexivity.
  - vm_compute. reflexivity.
  - vm_compute. reflexivity.
  - simpl. apply NoDup_cons. split; [|apply NoDup_singleton].
    intros H. apply list_elem_of_singleton in H. discriminate.
  - constructor; [|constructor; [|constructor]];
      (split; [vm_compute; reflexivity|]); (split; [vm_compute; reflexivity|]);
      (split; [vm_compute; reflexivity|]);
      intros [d s g f] Hf; simpl in Hf; subst f; reflexivity.
  - exists t'. split; [exact Hall|].
    apply (Hagain {| rq_rand := 4; rq_name := "3"; rq_id := 2;
                     rq_node := node 2 "2" |} 1).
    apply list_elem_of_here.
Defined.

(* ------------------------------------------------------------------------- *)
(** ** Waiting for a file in flight *)

Lemma int32_add_small (x d : Z) :
  (- 2 ^ 31 <= x + d < 2 ^ 31)%Z -> int32_add x d = (x + d)%Z.
Proof. intros H. unfold int32_add. rewrite Z.mod_small; lia. Qed.

(** With nothing cached, nothing unread and a file in flight, the first
    section of [Get] counts the caller in [hasWiated] and parks it. *)
Lemma Get_enter_group_waits
    (cache : gmap N FileNode) (r fileId : N) (g : DLTGroup)
    (rb : BitMap) (c : Cond) :
  lock g = false -> cond g = Some c ->
  readedFilesReal g = Some rb -> BitMap_Get rb fileId = false ->
  cachedFileNum g = 0 -> unreadFileNum g = 0 -> 0 < prereadFileNum g ->
  Get_enter_group cache r fileId g =
    Done LWait
      (set_cond (Some {| waiters := S (waiters c); notified := notified c |})
         (set_hasWiated (int32_add (hasWiated g) 1) g)).
Proof.
  intros Hl Hc Hrb Hbr Hcn Hun Hpre.
  destruct g. simpl in *. subst.
  unfold Get_enter_group, Get_locked, on_panic_Unlock, Lock, Unlock, Wait_park.
  unfold_monad. simpl. rewrite Hbr. simpl.
  destruct (N.ltb_spec 0 prereadFileNum0); [|lia]. reflexivity.
Qed.

(** A file that lands while a reader waits goes to the first slot of an
    empty cache pool, and the reader is signalled. *)
Lemma addFileToCache_wakes (X : FileNode) (g : DLTGroup) (cb : BitMap) (c : Cond) :
  cond g = Some c -> (0 < hasWiated g)%Z ->
  readedFilesCache g = Some cb -> BitMap_Get cb (node_fileId X) = false ->
  cachedFileNum g = 0 ->
  unreadFilesIndexs g !! N.to_nat (node_fileId X) = Some 0 ->
  cacheedFilesCache g !! N.to_nat (node_fileId X) = Some 0 ->
  (0 < length (cachedFiles g))%nat ->
  addFileToCache X g =
    Done tt
      (set_cond (Some (signal_one c))
         (set_cacheedFilesCache
            (<[N.to_nat (node_fileId X) := 1]> (cacheedFilesCache g))
            (set_cachedFileNum 1
               (set_cachedFiles (<[0%nat := node_fileId X]> (cachedFiles g))
                  (set_prereadFileNum (u32_dec (prereadFileNum g)) g))))).
Proof.
  intros Hc Hw Hcb Hbc Hcn Hux Hcx Hroom.
  apply lookup_lt_Some in Hcx as Hltx.
  destruct g. simpl in *. subst.
  destruct cachedFiles0 as [|y ys]; [simpl in Hroom; lia|].
  unfold addFileToCache, Signal, signal_one. unfold_monad. simpl.
  rewrite Hbc. simpl. rewrite Hux. simpl. rewrite Hcx. simpl.
  rewrite (ltb_nat_true _ _ Hltx). simpl.
  destruct (Z.ltb_spec 0 hasWiated0); [|lia]. simpl.
  destruct (waiters c); reflexivity.
Qed.

(** Taking the only cached file out of the pool. *)
Lemma markCachedFileReaded_last (x : N) (g : DLTGroup) :
  cachedFileNum g = 1 ->
  (N.to_nat x < length (cacheedFilesCache g))%nat ->
  (N.to_nat (readedCachedFileNum g) < length (readedCachedFiles g))%nat ->
  markCachedFileReaded x 0 g =
    Done tt
      (set_cachedFileNum 0
         (set_cacheedFilesCache (<[N.to_nat x := 0]> (cacheedFilesCache g))
            (set_readedCachedFileNum (u32_inc (readedCachedFileNum g))
               (set_readedCachedFiles
                  (<[N.to_nat (readedCachedFileNum g) := x]>
                     (readedCachedFiles g)) g)))).
Proof.
  intros Hcn Hltx Hlog. destruct g. simpl in *. subst.
  unfold markCachedFileReaded. unfold_monad. simpl.
  rewrite (ltb_nat_true _ _ Hlog). simpl.
  rewrite (ltb_nat_true _ _ Hltx). reflexivity.
Qed.

(** With one file [x] in the cache pool, [x] is the file chosen, whether the
    caller asked for [x] or for another file. *)
Lemma pickCachedFile_the_file (r fileId x : N) (g : DLTGroup) (cb : BitMap)
    (ys : list N) :
  readedFilesCache g = Some cb -> BitMap_Get cb x = false ->
  cachedFileNum g = 1 -> cachedFiles g = x :: ys ->
  cacheedFilesCache g !! N.to_nat x = Some 1 ->
  (fileId ≠ x -> cacheedFilesCache g !! N.to_nat fileId = Some 0) ->
  pickCachedFile r fileId g =
    (markCachedFileReaded x 0 ;;; ret (inl x)) g.
Proof.
  intros Hcb Hbx Hcn Hfiles Hix Hif.
  assert (Hrand : (p <~ getRandomCachedFile r ;;
                   if snd p then ret (inl (fst p))
                   else ret (inr ErrCantGetCachedFile) : M DLTGroup (N + Error)) g
                  = (markCachedFileReaded x 0 ;;; ret (inl x)) g).
  { unfold getRandomCachedFile. unfold bind at 1. unfold bind at 1.
    unfold gets at 1. rewrite Hcn. change (1 =? 0) with false. cbv iota.
    rewrite N.mod_1_r. unfold bind at 1. unfold slice_get. rewrite Hfiles.
    simpl. unfold bind. by destruct (markCachedFileReaded x 0 g). }
  unfold pickCachedFile. unfold bind at 1. unfold cache_Get. rewrite Hcb.
  destruct (BitMap_Get cb fileId) eqn:Hbf; [done|].
  unfold bind at 1. unfold slice_get.
  destruct (decide (fileId = x)) as [->|Hne].
  - rewrite Hix. simpl. reflexivity.
  - rewrite (Hif Hne). simpl. exact Hrand.
Qed.

(** A reader that returns from [cond.Wait] with one file [x] in the cache
    pool takes it. *)
Lemma Get_woken_group_takes_the_file
    (cache : gmap N FileNode) (r fileId x : N) (node : FileNode)
    (g : DLTGroup) (rb cb : BitMap) (c : Cond) (k : nat) (ys : list N) :
  lock g = false -> cond g = Some c -> notified c = S k ->
  readedFilesReal g = Some rb -> readedFilesCache g = Some cb ->
  BitMap_Get cb x = false ->
  cachedFileNum g = 1 -> cachedFiles g = x :: ys ->
  cacheedFilesCache g !! N.to_nat x = Some 1 ->
  (fileId ≠ x -> cacheedFilesCache g !! N.to_nat fileId = Some 0) ->
  (N.to_nat (readedCachedFileNum g) < length (readedCachedFiles g))%nat ->
  cache !! x = Some node ->
  Get_woken_group cache r fileId g =
    Done (Some node, CODE_EMPTY, None)
      (set_lock false
         (set_readedFilesReal (Some (BitMap_Set rb fileId))
            (set_readedFilesCache (Some (BitMap_Set cb (node_fileId node)))
               (set_cachedFileNum 0
                  (set_cacheedFilesCache
                     (<[N.to_nat x := 0]> (cacheedFilesCache g))
                     (set_readedCachedFileNum (u32_inc (readedCachedFileNum g))
                        (set_readedCachedFiles
                           (<[N.to_nat (readedCachedFileNum g) := x]>
                              (readedCachedFiles g))
                           (set_hasWiated (int32_add (hasWiated g) (-1))
                              (set_lock true
                                 (set_cond
                                    (Some {| waiters := waiters c; notified := k |})
                                    g)))))))))).
Proof.
  intros Hl Hc Hk Hrb Hcb Hbx Hcn Hfiles Hix Hif Hlog Hnode.
  apply lookup_lt_Some in Hix as Hltx.
  set (g1 := set_hasWiated (int32_add (hasWiated g) (-1))
               (set_lock true
                  (set_cond (Some {| waiters := waiters c; notified := k |}) g))).
  assert (Hpick : pickCachedFile r fileId g1
                  = (markCachedFileReaded x 0 ;;; ret (inl x)) g1).
  { by apply (pickCachedFile_the_file r fileId x g1 cb ys). }
  unfold bind in Hpick.
  rewrite (markCachedFileReaded_last x g1) in Hpick by done.
  unfold Get_woken_group. unfold bind at 1. unfold Wait_resume.
  rewrite Hc, Hk. unfold Lock. simpl. rewrite Hl.
  unfold on_panic_Unlock, Get_relocked.
  unfold bind at 1. unfold bind at 1. unfold bind at 1. unfold gets at 1.
  unfold bind at 1. unfold modify at 1.
  unfold bind at 1. unfold getFileFromCache. unfold bind at 1.
  match goal with |- context [pickCachedFile r fileId ?s] =>
    change s with g1 end.
  rewrite Hpick. simpl. rewrite Hnode.
  unfold bind, cache_Set, real_Set, Unlock, ret. simpl.
  rewrite Hcb. simpl. rewrite Hrb. reflexivity.
Qed.
(** The protocol of a reader that waits.  In a group with nothing cached,
    nothing unread and a file in flight, [Get] for a file that is not
    delivered counts itself in [hasWiated] and parks in [cond.Wait] with the
    mutex released; when a file [X] lands, [addFileToCache] puts it in the
    cache pool and signals; the reader then returns from [cond.Wait], takes
    [X] out of the pool and returns the content that the content cache holds
    for it, with [CODE_EMPTY].  At the end the mutex is free, [hasWiated]
    and the condition variable are as at the start, the pools are empty, the
    in-flight counter is one less, the delivered bit of the file asked for
    and the consumed bit of the content are set. *)
Theorem wait_land_wake
    (cache : gmap N FileNode) (r fileId : N) (X node : FileNode)
    (g : DLTGroup) (rb cb : BitMap) (c : Cond) :
  lock g = false -> cond g = Some c ->
  (0 <= hasWiated g < 2 ^ 31 - 1)%Z ->
  readedFilesReal g = Some rb -> BitMap_Get rb fileId = false ->
  readedFilesCache g = Some cb -> BitMap_Get cb (node_fileId X) = false ->
  cachedFileNum g = 0 -> unreadFileNum g = 0 -> 0 < prereadFileNum g ->
  prereadFileNum g < modulus ->
  unreadFilesIndexs g !! N.to_nat (node_fileId X) = Some 0 ->
  cacheedFilesCache g !! N.to_nat (node_fileId X) = Some 0 ->
  cacheedFilesCache g !! N.to_nat fileId = Some 0 ->
  (0 < length (cachedFiles g))%nat ->
  (N.to_nat (readedCachedFileNum g) < length (readedCachedFiles g))%nat ->
  cache !! node_fileId X = Some node ->
  exists g1 g2 g3,
    Get_enter_group cache r fileId g = Done LWait g1 /\
    lock g1 = false /\ hasWiated g1 = (hasWiated g + 1)%Z /\
    cond g1 = Some {| waiters := S (waiters c); notified := notified c |} /\
    addFileToCache X g1 = Done tt g2 /\
    cache_member g2 (node_fileId X) = true /\
    cond g2 = Some {| waiters := waiters c; notified := S (notified c) |} /\
    Get_woken_group cache r fileId g2 = Done (Some node, CODE_EMPTY, None) g3 /\
    lock g3 = false /\ hasWiated g3 = hasWiated g /\
    cond g3 = Some {| waiters := waiters c; notified := notified c |} /\
    cachedFileNum g3 = 0 /\ cache_member g3 (node_fileId X) = false /\
    unread_pool g3 = unread_pool g /\
    prereadFileNum g3 = prereadFileNum g - 1 /\
    readedFilesReal g3 = Some (BitMap_Set rb fileId) /\
    readedFilesCache g3 = Some (BitMap_Set cb (node_fileId node)) /\
    readedCachedFiles g3 !! N.to_nat (readedCachedFileNum g) = Some (node_fileId X).
Proof.
  intros Hl Hc Hw Hrb Hbr Hcb Hbc Hcn Hun Hpre Hpm Hux Hcx Hcf Hroom Hlog Hnode.
  destruct (cachedFiles g) as [|y ys] eqn:Hfiles; [simpl in Hroom; lia|].
  apply lookup_lt_Some in Hcx as Hltx.
  pose proof (Get_enter_group_waits cache r fileId g rb c
                Hl Hc Hrb Hbr Hcn Hun Hpre) as H1.
  rewrite int32_add_small in H1 by lia.
  set (g1 := set_cond (Some {| waiters := S (waiters c); notified := notified c |})
               (set_hasWiated (hasWiated g + 1) g)) in *.
  assert (H2 := addFileToCache_wakes X g1 cb
                  {| waiters := S (waiters c); notified := notified c |}).
  specialize (H2 eq_refl). simpl in H2.
  specialize (H2 ltac:(lia) Hcb Hbc Hcn Hux Hcx).
  rewrite Hfiles in H2. specialize (H2 ltac:(simpl; lia)). simpl in H2.
  set (g2 := set_cond
               (Some (signal_one {| waiters := S (waiters c);
                                    notified := notified c |})) _) in *.
  assert (H3 := Get_woken_group_takes_the_file cache r fileId (node_fileId X)
                  node g2 rb cb
                  {| waiters := waiters c; notified := S (notified c) |}
                  (notified c) ys Hl eq_refl eq_refl Hrb Hcb Hbc eq_refl eq_refl).
  simpl in H3.
  rewrite list_lookup_insert_eq in H3 by done. specialize (H3 eq_refl).
  assert (Hother : fileId ≠ node_fileId X ->
            <[N.to_nat (node_fileId X) := 1]> (cacheedFilesCache g)
              !! N.to_nat fileId = Some 0).
  { intros Hne. by rewrite list_lookup_insert_ne by lia. }
  specialize (H3 Hother Hlog Hnode).
  rewrite list_insert_insert_eq in H3.
  rewrite int32_add_small in H3 by lia.
  eexists g1, g2, _.
  split; [exact H1|]. split; [done|]. split; [done|]. split; [done|].
  split; [exact H2|]. split.
  { unfold cache_member. simpl. by rewrite list_lookup_insert_eq. }
  split; [done|]. split; [exact H3|]. simpl.
  split; [done|]. split; [lia|]. split; [done|]. split; [done|]. split.
  { unfold cache_member. simpl. by rewrite list_lookup_insert_eq. }
  split; [done|]. split; [apply u32_dec_pos; lia|].
  split; [done|]. split; [done|]. by apply list_lookup_insert_eq.
Qed.

Lemma wait_land_wake_witness :
  let X := {| fileId := 1; content := "X" |} in
  let g := set_unreadFileNum 0 (set_prereadFileNum 1
             (fresh_group (one_group 2 1 0))) in
  exists g1 g2 g3,
    Get_enter_group {[ 1 := X ]} 5 0 g = Done LWait g1 /\
    addFileToCache X g1 = Done tt g2 /\
    Get_woken_group {[ 1 := X ]} 5 0 g2 = Done (Some X, CODE_EMPTY, None) g3 /\
    lock g3 = false /\ hasWiated g3 = 0%Z /\ cachedFileNum g3 = 0 /\
    prereadFileNum g3 = 0 /\ bit_real g3 0 = true /\ bit_cache g3 1 = true.
Proof.
  intros X g.
  destruct (wait_land_wake {[ 1 := X ]} 5 0 X X g
              {| bits := [false; false] |} {| bits := [false; false] |}
              {| waiters := 0; notified := 0 |})
    as (g1 & g2 & g3 & H1 & _ & _ & _ & H2 & _ & _ & H3 & Hl & Hw & _ & Hc & _
        & _ & Hp & Hrb & Hcb & _);
    [ reflexivity | reflexivity | simpl; lia | reflexivity | reflexivity
    | reflexivity | reflexivity | reflexivity | reflexivity | reflexivity
    | vm_compute; reflexivity | reflexivity | reflexivity | reflexivity
    | simpl; lia | simpl; lia | reflexivity | ].
  exists g1, g2, g3. split; [exact H1|]. split; [exact H2|]. split; [exact H3|].
  split; [exact Hl|]. split; [exact Hw|]. split; [exact Hc|]. split; [exact Hp|].
  unfold bit_real, bit_cache. rewrite Hrb, Hcb. split; reflexivity.
Defined.

(* ------------------------------------------------------------------------- *)
(** ** Substitution on the direct path *)

Lemma Get_removeUnread_absent (tempId : N) (g : DLTGroup) :
  unreadFilesIndexs g !! N.to_nat tempId = Some 0 ->
  Get_removeUnread tempId g = Done tt g.
Proof.
  intros H. unfold Get_removeUnread, bind, slice_get. by rewrite H.
Qed.

(** [Get] for a file whose content has been consumed by another request, with
    nothing cached and a consistent, non-empty unread pool: the call draws
    the unread file of slot [r mod unreadFileNum] in its place, takes it out
    of the pool, which stays consistent, sets the consumed bit of the file
    drawn and the delivered bit of the file asked for, and leaves for the
    backend with the file drawn and the mutex released. *)
Theorem Get_substitutes_an_unread_file
    (cache : gmap N FileNode) (r fileId : N) (g : DLTGroup) (rb cb : BitMap) :
  lock g = false ->
  readedFilesReal g = Some rb -> BitMap_Get rb fileId = false ->
  readedFilesCache g = Some cb -> BitMap_Get cb fileId = true ->
  cachedFileNum g = 0 ->
  pool_wf (unread_pool g) -> 0 < unreadFileNum g ->
  exists tempId g',
    Get_enter_group cache r fileId g = Done (LFetch tempId) g' /\
    unreadFiles g !! N.to_nat (r mod unreadFileNum g) = Some tempId /\
    unread_member g tempId = true /\
    unread_member g' tempId = false /\
    (forall x, x ≠ tempId -> unread_member g' x = unread_member g x) /\
    pool_wf (unread_pool g') /\
    unreadFileNum g' = unreadFileNum g - 1 /\
    readedFilesReal g' = Some (BitMap_Set rb fileId) /\
    readedFilesCache g' = Some (BitMap_Set cb tempId) /\
    lock g' = false /\ cached_pool g' = cached_pool g /\
    prereadFileNum g' = prereadFileNum g.
Proof.
  intros Hl Hrb Hbr Hcb Hbc Hcn Hwf Hpos.
  assert (Hr : r mod unreadFileNum g < unreadFileNum g) by (apply N.mod_lt; lia).
  assert (Hid : exists id, unreadFiles g !! N.to_nat (r mod unreadFileNum g) = Some id).
  { apply lookup_lt_is_Some. destruct Hwf as (Hle & _). simpl in Hle. lia. }
  destruct Hid as [tempId Hid].
  set (g1 := set_lock true g).
  destruct (getRandomUnreadedFile_remove g1 r tempId Hwf Hpos Hid)
    as (gp & Hrun & Hpool & Hc & _ & _ & Hrb' & Hcb' & Hpre & Hl' & _).
  change (unread_pool g1) with (unread_pool g) in Hpool.
  change (unreadFileNum g1) with (unreadFileNum g) in Hpool.
  destruct (pool_remove_wf (unread_pool g) _ tempId Hwf Hr Hid)
    as (Hwf' & Hn' & Hout & Hothers).
  assert (Hidx : unreadFilesIndexs gp !! N.to_nat tempId = Some 0).
  { rewrite <- Hpool in Hout. unfold pool_member in Hout. simpl in Hout.
    destruct Hwf' as (_ & _ & _ & Hif). rewrite <- Hpool in Hif. simpl in Hif.
    pose proof Hwf as (_ & _ & Hfi & _).
    assert (Hlt : (N.to_nat tempId < length (unreadFilesIndexs gp))%nat).
    { assert (Hp : p_index (unread_pool gp)
                   = p_index (pool_remove (unread_pool g)
                                (r mod unreadFileNum g) tempId))
        by by rewrite Hpool.
      simpl in Hp. rewrite Hp.
      specialize (Hfi _ _ Hr Hid). apply lookup_lt_Some in Hfi. simpl in Hfi.
      unfold pool_remove. simpl.
      destruct (_ =? _); simpl; by rewrite ?length_insert. }
    apply lookup_lt_is_Some in Hlt as [v Hv]. rewrite Hv in Hout.
    apply negb_false_iff, N.eqb_eq in Hout. by subst. }
  set (g2 := set_readedFilesReal (Some (BitMap_Set rb fileId))
               (set_readedFilesCache (Some (BitMap_Set cb tempId)) gp)).
  exists tempId, (set_lock false g2).
  split.
  { unfold Get_enter_group. unfold bind at 1. unfold Lock. rewrite Hl.
    fold g1. unfold on_panic_Unlock. unfold bind at 1.
    assert (HL : Get_locked cache r fileId g1 = Done (LFetch tempId) g2).
    { unfold Get_locked. unfold bind at 1. unfold real_Get. simpl.
      rewrite Hrb, Hbr. unfold bind at 1. unfold gets at 1. simpl. rewrite Hcn.
      change (0 <? 0) with false. cbv iota.
      unfold bind at 1. unfold gets at 1. simpl.
      destruct (N.ltb_spec 0 (unreadFileNum g)); [|lia].
      unfold bind at 1. unfold cache_Get. simpl. rewrite Hcb, Hbc.
      unfold bind at 1. rewrite Hrun. simpl.
      unfold bind at 1. unfold cache_Set. rewrite Hcb'. simpl. rewrite Hcb.
      unfold bind at 1. unfold real_Set. simpl. rewrite Hrb'. simpl. rewrite Hrb.
      unfold bind at 1. rewrite Get_removeUnread_absent by done.
      reflexivity. }
    rewrite HL. unfold bind, Unlock, ret. simpl. by rewrite Hl'. }
  split; [done|].
  split; [by apply (pool_wf_member (unread_pool g) _ tempId Hwf Hr)|].
  change (unread_pool (set_lock false g2)) with (unread_pool gp).
  split; [by rewrite unread_member_pool; change (unread_pool (set_lock false g2))
            with (unread_pool gp); rewrite Hpool|].
  split.
  { intros x Hx. rewrite !unread_member_pool.
    change (unread_pool (set_lock false g2)) with (unread_pool gp).
    rewrite Hpool. by apply Hothers. }
  split; [by rewrite Hpool|]. split.
  { change (p_num (unread_pool gp) = p_num (unread_pool g) - 1). by rewrite Hpool. }
  split; [done|]. split; [done|]. split; [done|]. split; [exact Hc|exact Hpre].
Qed.

Lemma Get_substitutes_an_unread_file_witness :
  let g0 := final (addUnreadedFile 1 (final (addUnreadedFile 2
              (set_unreadFileNum 0 (set_prereadFileNum 2
                 (fresh_group (one_group 3 1 0))))))) in
  let g := set_readedFilesCache (Some {| bits := [true; false; false] |}) g0 in
  exists tempId g',
    Get_enter_group ∅ 5 0 g = Done (LFetch tempId) g' /\
    tempId = 1 /\ unread_member g' 1 = false /\ unread_member g' 2 = true /\
    bit_real g' 0 = true /\ bit_cache g' 1 = true /\ lock g' = false.
Proof.
  intros g0 g.
  destruct (Get_substitutes_an_unread_file ∅ 5 0 g
              {| bits := [false; false; false] |}
              {| bits := [true; false; false] |})
    as (tempId & g' & HG & Hslot & _ & Hout & Hothers & _ & _ & Hrb & Hcb & Hl & _);
    [ reflexivity | reflexivity | reflexivity | reflexivity | reflexivity
    | reflexivity | apply pool_wfb_correct; vm_compute; reflexivity
    | vm_compute; reflexivity | ].
  assert (Ht : tempId = 1).
  { vm_compute in Hslot. by injection Hslot as <-. }
  subst tempId. exists 1, g'.
  split; [exact HG|]. split; [reflexivity|]. split; [exact Hout|].
  split; [rewrite Hothers by done; vm_compute; reflexivity|].
  unfold bit_real, bit_cache. rewrite Hrb, Hcb. split; [reflexivity|].
  split; [reflexivity|exact Hl].
Defined.

(* ------------------------------------------------------------------------- *)
(** ** A landing file that was registered as unread *)

(** [addFileToCache] for an id of a consistent unread pool that is not in the
    last slot, and that is not consumed: the last id [moved] of the pool is
    copied to the slot of the id and [unreadFileNum] drops by one, but the
    index of [moved] is not updated and still names the old last slot; the
    pool is no longer consistent.  The id itself goes to no pool. *)
Theorem addFileToCache_moves_without_reindexing
    (node : FileNode) (g : DLTGroup) (cb : BitMap) (slot moved : N) :
  readedFilesCache g = Some cb -> BitMap_Get cb (node_fileId node) = false ->
  pool_wf (unread_pool g) ->
  unreadFiles g !! N.to_nat slot = Some (node_fileId node) ->
  slot + 1 < unreadFileNum g ->
  unreadFiles g !! N.to_nat (unreadFileNum g - 1) = Some moved ->
  exists g',
    addFileToCache node g = Done tt g' /\
    unreadFileNum g' = unreadFileNum g - 1 /\
    unread_member g' (node_fileId node) = false /\
    unreadFiles g' !! N.to_nat slot = Some moved /\
    unreadFilesIndexs g' !! N.to_nat moved = Some (unreadFileNum g) /\
    ~ pool_wf (unread_pool g') /\
    cached_pool g' = cached_pool g /\
    prereadFileNum g' = prereadFileNum g.
Proof.
  intros Hcb Hbc Hwf Hid Hslot HL.
  pose proof Hwf as (Hle & Hmod & Hfi & Hif).
  destruct g. unfold unread_pool, cached_pool in *. simpl in *. subst.
  assert (Hidx_id : unreadFilesIndexs0 !! N.to_nat (node_fileId node)
                    = Some (slot + 1)) by (apply Hfi; [lia|done]).
  assert (HidxL : unreadFilesIndexs0 !! N.to_nat moved = Some unreadFileNum0).
  { rewrite (Hfi (unreadFileNum0 - 1) moved) by (lia || done). f_equal. lia. }
  apply lookup_lt_Some in Hidx_id as Hin_id.
  assert (Hne : moved ≠ node_fileId node).
  { intros ->. rewrite Hidx_id in HidxL. injection HidxL. lia. }
  assert (Hlt : (N.to_nat slot < length unreadFiles0)%nat) by lia.
  unfold addFileToCache, unread_member. unfold_monad. simpl.
  rewrite Hbc. simpl. rewrite Hidx_id. simpl.
  destruct (N.eqb_spec (slot + 1) 0); [lia|]. simpl.
  destruct (N.eqb_spec (slot + 1) unreadFileNum0); [lia|]. simpl.
  rewrite !u32_dec_pos by lia. rewrite HL. simpl.
  replace (slot + 1 - 1) with slot by lia.
  rewrite (ltb_nat_true _ _ Hlt). simpl.
  rewrite (ltb_nat_true _ _ Hin_id). simpl.
  eexists. split; [reflexivity|]. simpl.
  rewrite list_lookup_insert_eq by done. simpl.
  rewrite u32_dec_pos by lia.
  split; [done|]. split; [done|].
  split; [by apply list_lookup_insert_eq|].
  split; [by rewrite list_lookup_insert_ne by lia|].
  split; [|done].
  intros (_ & _ & _ & Hif'). simpl in Hif'.
  destruct (Hif' moved unreadFileNum0) as [Hbad _]; [|lia|lia].
  by rewrite list_lookup_insert_ne by lia.
Qed.

Lemma addFileToCache_moves_without_reindexing_witness :
  let g := final (addUnreadedFile 1 (final (addUnreadedFile 2
             (set_unreadFileNum 0 (set_prereadFileNum 2
                (fresh_group (one_group 3 1 0))))))) in
  exists g',
    addFileToCache {| fileId := 2; content := "c" |} g = Done tt g' /\
    unreadFileNum g' = 1 /\ unread_member g' 2 = false /\
    unreadFiles g' !! 0%nat = Some 1 /\
    unreadFilesIndexs g' !! 1%nat = Some 2 /\
    ~ pool_wf (unread_pool g').
Proof.
  intros g.
  destruct (addFileToCache_moves_without_reindexing
              {| fileId := 2; content := "c" |} g
              {| bits := [false; false; false] |} 0 1)
    as (g' & H1 & H2 & H3 & H4 & H5 & H6 & _);
    [ reflexivity | reflexivity | apply pool_wfb_correct; vm_compute; reflexivity
    | reflexivity | vm_compute; reflexivity | reflexivity | ].
  exists g'. split; [exact H1|]. split; [exact H2|]. split; [exact H3|].
  split; [exact H4|]. split; [exact H5|exact H6].
Defined.

(* ------------------------------------------------------------------------- *)
(** ** What a step leaves alone *)

Section Frame.

Variable gid : N.
Variable keys : N -> Prop.
Variable t0 : DLT.




End Frame.


(* ------------------------------------------------------------------------- *)
(** ** An exhausted partition *)

(** [Get] for a file that is not delivered, with the mutex free, fails with
    [Exhausted] exactly when nothing is cached, nothing is unread and nothing
    is in flight; the group is then left as it is. *)
Theorem Get_exhausted
    (cache : gmap N FileNode) (r fileId : N) (g : DLTGroup) (rb : BitMap) :
  lock g = false ->
  readedFilesReal g = Some rb -> BitMap_Get rb fileId = false ->
  (cachedFileNum g = 0 /\ unreadFileNum g = 0 /\ prereadFileNum g = 0 ->
   Get_enter_group cache r fileId g =
     Done (LReturn (None, CODE_EMPTY, Some (Exhausted fileId))) g) /\
  (forall n c g',
     Get_enter_group cache r fileId g =
       Done (LReturn (n, c, Some (Exhausted fileId))) g' ->
     cachedFileNum g = 0 /\ unreadFileNum g = 0 /\ prereadFileNum g = 0 /\
     g' = g).
Proof.
  intros Hl Hrb Hbr. split.
  - intros (Hc & Hu & Hp). destruct g. simpl in *. subst.
    unfold Get_enter_group, Get_locked, on_panic_Unlock, Lock, Unlock.
    unfold_monad. simpl. by rewrite Hbr.
  - intros n c g' H. unfold Get_enter_group in H.
    unfold bind at 1 in H. unfold Lock in H. rewrite Hl in H.
    apply on_panic_Unlock_Done in H.
    apply bind_Done_inv in H as (l & g2 & HL & H).
    assert (l = LReturn (n, c, Some (Exhausted fileId)) /\
            g' = set_lock false g2 /\ lock g2 = true) as (-> & -> & Hl2).
    { destruct l.
      - unfold bind, Unlock, ret in H. destruct (lock g2); by simplify_eq.
      - unfold bind, Unlock, ret in H. destruct (lock g2); by simplify_eq.
      - apply bind_Done_inv in H as (u1 & g3 & _ & H).
        apply bind_Done_inv in H as (u2 & g4 & _ & H).
        apply bind_Done_inv in H as (u3 & g5 & _ & H). unfold ret in H.
        by simplify_eq. }
    unfold Get_locked in HL.
    unfold bind at 1 in HL. unfold real_Get in HL. simpl in HL.
    rewrite Hrb, Hbr in HL.
    unfold bind at 1 in HL. unfold gets at 1 in HL. simpl in HL.
    destruct (N.ltb_spec 0 (cachedFileNum g)) as [Hc|Hc].
    { apply bind_Done_inv in HL as ([n' e'] & g3 & Hget & HL).
      apply getFileFromCache_result in Hget as [[[node ->] ->]|[-> [k ->]]].
      - apply bind_Done_inv in HL as (u1 & g4 & _ & HL).
        apply bind_Done_inv in HL as (u2 & g5 & _ & HL).
        unfold ret in HL. by simplify_eq.
      - unfold ret in HL. by simplify_eq. }
    unfold bind at 1 in HL. unfold gets at 1 in HL. simpl in HL.
    destruct (N.ltb_spec 0 (unreadFileNum g)) as [Hu|Hu].
    { apply bind_Done_inv in HL as (consumed & g3 & _ & HL).
      apply bind_Done_inv in HL as ([id ok] & g4 & _ & HL).
      simpl in HL. destruct (negb ok); simpl in HL.
      - apply bind_Done_inv in HL as (u1 & g5 & _ & HL). unfold ret in HL.
        by simplify_eq.
      - apply bind_Done_inv in HL as (u1 & g5 & _ & HL).
        apply bind_Done_inv in HL as (u2 & g6 & _ & HL).
        apply bind_Done_inv in HL as (u3 & g7 & _ & HL).
        unfold ret in HL. by simplify_eq. }
    unfold bind at 1 in HL. unfold gets at 1 in HL. simpl in HL.
    destruct (N.ltb_spec 0 (prereadFileNum g)) as [Hp|Hp];
      unfold ret in HL; simplify_eq.
    split; [lia|]. split; [lia|]. split; [lia|].
    clear H Hl2. destruct g. simpl in *. by subst.
Qed.

Lemma Get_exhausted_witness :
  let g := set_unreadFileNum 0 (fresh_group (one_group 3 1 0)) in
  Get_enter_group ∅ 5 1 g =
    Done (LReturn (None, CODE_EMPTY, Some (Exhausted 1))) g /\
  cachedFileNum g = 0 /\ unreadFileNum g = 0 /\ prereadFileNum g = 0.
Proof.
  intros g.
  destruct (Get_exhausted ∅ 5 1 g {| bits := [false; false; false] |})
    as [H1 H2]; [reflexivity|reflexivity|reflexivity|].
  assert (H : Get_enter_group ∅ 5 1 g
              = Done (LReturn (None, CODE_EMPTY, Some (Exhausted 1))) g).
  { apply H1. repeat split; reflexivity. }
  split; [exact H|].
  destruct (H2 None CODE_EMPTY g H) as (Hc & Hu & Hp & _).
  split; [exact Hc|]. split; [exact Hu|exact Hp].
Defined.
